(** * Checkpointed, paginated synchronisation of CRM properties

    A shallow embedding of [hubspot_update.js]: the record mapper ([clean]),
    the checkpoint store ([loadCheckpoint], [saveCheckpoint]), the audit
    sink ([writeCsvAppend]), the worker pool ([runWithConcurrency]) and the
    orchestrator ([syncHubSpotPropertiesFromBigQuery]).

    JavaScript strings are sequences of UTF-16 code units, objects used as
    dictionaries are finite maps, the [Set] of processed identifiers is a
    finite set.  The two vendor clients are external: their answers are
    parameters of the run. *)

From Stdlib Require Import ZArith Ascii String.
From stdpp Require Import gmap list sets fin_sets pretty.

Local Open Scope Z_scope.
Local Open Scope nat_scope.

(** ** JavaScript strings and scalar values *)

(** A string is the list of its UTF-16 code units. *)
Abbreviation jstr := (list N).

(** The code units of an ASCII literal. *)
Definition lit (s : string) : jstr := N_of_ascii <$> list_ascii_of_string s.

(** White space and line terminators, as [String.prototype.trim] strips
    them. *)
Definition is_ws (c : N) : bool :=
  match c with
  | 9 | 10 | 11 | 12 | 13 | 32 | 160 | 5760
  | 8192 | 8193 | 8194 | 8195 | 8196 | 8197 | 8198 | 8199 | 8200 | 8201 | 8202
  | 8232 | 8233 | 8239 | 8287 | 12288 | 65279 => true
  | _ => false
  end%N.

Fixpoint trimStart (s : jstr) : jstr :=
  match s with
  | c :: s' => if is_ws c then trimStart s' else s
  | [] => []
  end.

Definition trimEnd (s : jstr) : jstr := reverse (trimStart (reverse s)).

Definition trim (s : jstr) : jstr := trimEnd (trimStart s).

(** [s.endsWith(t)] *)
Definition endsWith (s t : jstr) : bool :=
  bool_decide (drop (length s - length t) s = t).

(** The scalar values a warehouse row holds.  Numbers are the integers
    that a double holds exactly, below 10^21 in absolute value: their text
    is their decimal notation.  The other numbers are left out. *)
Inductive value :=
| VUndefined
| VNull
| VBool (b : bool)
| VNum (z : Z)
| VStr (s : jstr).

Global Instance value_eq_dec : EqDecision value.
Proof. solve_decision. Defined.

(** [String(v)] *)
Definition String_ (v : value) : jstr :=
  match v with
  | VUndefined => lit "undefined"
  | VNull => lit "null"
  | VBool true => lit "true"
  | VBool false => lit "false"
  | VNum z => lit (pretty z)
  | VStr s => s
  end.

(** [!s] on a string that may be absent: [undefined], [null] and the empty
    string are the falsy ones. *)
Definition falsy (o : option jstr) : bool :=
  match o with
  | None | Some [] => true
  | Some _ => false
  end.

(** A row, and any object read as a dictionary: a finite map from column
    name to value. *)
Abbreviation row := (gmap jstr value).

(** [r?.[k]] on a row that is the record of its columns: a column the row
    does not have reads [undefined].  What a JavaScript object inherits
    from its prototype is left out. *)
Definition get (r : row) (k : jstr) : value := default VUndefined (r !! k).

(** ** Configuration of one run *)

(** The [property] argument is a string (with [column_name]) or an object
    from target property to source column. *)
Inductive property_arg :=
| PropMissing
| PropName (p : jstr)
| PropMap (m : gmap jstr jstr).

(** A string argument used as a key or a path: a missing one reads as the
    text of [undefined]. *)
Definition the (o : option jstr) : jstr := default (lit "undefined") o.

Record config := {
  object : option jstr;
  sql : option jstr;
  property : property_arg;
  column_name : option jstr;
  matching_id : option jstr;
  matchKeyType : jstr;
  apply : bool;
  pageSize : Z;
  updateBatchSize : Z;
  updateConcurrency : Z;
  dropBlanks : bool;
  checkpointPath : option jstr;
  skipAlreadyProcessed : bool;
  outputCsvPath : option jstr;
  hubspotClient : bool;
  bigqueryClient : bool;
}.

(** ** Record mapper *)

(** The predicate of the [filter] inside [clean]. *)
Definition keep (dropBlanks : bool) (v : value) : bool :=
  match v with
  | VUndefined | VNull => false
  | _ => if negb dropBlanks then true
         else negb (bool_decide (trim (String_ v) = []))
  end.

Definition clean (dropBlanks : bool) (obj : row) : row :=
  filter (λ kv, keep dropBlanks kv.2 = true) obj.

(** The identifier of a row: [String(idRaw).trim()], or the empty string. *)
Definition row_id (matching : jstr) (r : row) : jstr :=
  match get r matching with
  | VUndefined | VNull => []
  | idRaw => trim (String_ idRaw)
  end.

(** The properties a row maps to, before the emptiness test. *)
Definition row_props (p : property_arg) (column : option jstr) (dropBlanks : bool)
    (r : row) : row :=
  match p with
  | PropMap m => clean dropBlanks ((λ bqCol, get r bqCol) <$> m)
  | PropName hsProp => clean dropBlanks {[ hsProp := get r (the column) ]}
  | PropMissing => clean dropBlanks {[ lit "undefined" := get r (the column) ]}
  end.

(** ** Pending updates, audit records, errors *)

Record pending := { p_id : jstr; p_properties : row }.

Inductive status := DRY_RUN | UPDATED | ERROR.

(** One line of the audit file.  [properties_json] holds the mapping that
    [JSON.stringify] is applied to; the escaping of the cells is left out. *)
Record audit := {
  matchVal : jstr;
  a_status : status;
  properties_json : row;
  a_error : jstr;
}.

(** What a rejected remote call throws: [e.response.body] already
    serialised when it is there and truthy, [e.message], and [String(e)]. *)
Record js_error := {
  response_body : option jstr;
  message : option jstr;
  as_string : jstr;
}.

Definition errText (e : js_error) : jstr :=
  match response_body e with
  | Some json => json
  | None => if falsy (message e) then as_string e else the (message e)
  end.

(** An entry of the summary's [errors]. *)
Record error_entry := {
  e_matchVal : jstr;
  e_error : jstr;
  e_properties : row;
}.

(** ** The two files *)

(** The checkpoint file as [JSON.parse] sees it. *)
Inductive json_file :=
| Unparsable
| NotAnArray
| ArrayOf (arr : list value).

(** A line of the audit file: the header, the line of an audit record, or
    an empty line. *)
Inductive csv_line :=
| Header
| Line (a : audit)
| Blank.

(** The checkpoint file and the audit file; [None] is a file that does not
    exist.  The two paths are taken to be different files. *)
Record files := {
  checkpoint_file : option json_file;
  csv_file : option (list csv_line);
}.

(** The lines joined by line feeds, and one more line feed, are appended:
    every line with its line feed, and a lone line feed, that is an empty
    line, when there is no line to write. *)
Definition writeCsvAppend (d : files) (rows : list audit) : files :=
  let exists_ := bool_decide (is_Some (csv_file d)) in
  let lines := (if negb exists_ then [Header] else []) ++ (Line <$> rows) in
  {| checkpoint_file := checkpoint_file d;
     csv_file :=
       Some (default [] (csv_file d) ++
             if bool_decide (lines = []) then [Blank] else lines) |}.

Definition loadCheckpoint (checkpointPath : option jstr) (d : files) : gset jstr :=
  if falsy checkpointPath then ∅
  else match checkpoint_file d with
       | None => ∅
       | Some Unparsable => ∅
       | Some NotAnArray => ∅
       | Some (ArrayOf arr) => list_to_set (String_ <$> arr)
       end.

Definition saveCheckpoint (checkpointPath : option jstr) (set : gset jstr)
    (d : files) : files :=
  if falsy checkpointPath then d
  else {| checkpoint_file := Some (ArrayOf (VStr <$> elements set));
          csv_file := csv_file d |}.

(** ** The external clients *)

(** The entry point [updateSingleByObjectType] routes to. *)
Inductive endpoint :=
| Contacts
| Companies
| Deals
| Tickets
| Objects (objectType : jstr).

Definition route (object : jstr) : endpoint :=
  if bool_decide (object = lit "contacts") then Contacts
  else if bool_decide (object = lit "companies") then Companies
  else if bool_decide (object = lit "deals") then Deals
  else if bool_decide (object = lit "tickets") then Tickets
  else Objects object.

(** One update request, as the CRM client receives it. *)
Record call := {
  c_endpoint : endpoint;
  c_id : jstr;
  c_properties : row;
}.

Inductive update_result :=
| Resolved
| Rejected (e : js_error).

(** The options [fetchBigQueryPage] passes to [job.getQueryResults]. *)
Record query_opts := {
  maxResults : Z;
  opt_pageToken : option jstr;
}.

(** What [job.getQueryResults] answers: it throws, or it gives the rows and
    [resp?.pageToken]. *)
Inductive fetch_result :=
| FetchRejected (e : js_error)
| Page (rows : list row) (resp_pageToken : option jstr).

(** A job answers its n-th request from n and the options. *)
Definition job := nat → query_opts → fetch_result.

Inductive job_result :=
| JobRejected (e : js_error)
| Job (j : job).

(** ** State of a run *)

(** The variables of [syncHubSpotPropertiesFromBigQuery], the two files,
    and what the two clients have been asked so far. *)
Record state := {
  processed : gset jstr;
  pageToken : option jstr;
  totalFetched : nat;
  totalAttempted : nat;
  totalUpdated : nat;
  totalSkipped : nat;
  errors : list error_entry;
  disk : files;
  requests : list call;
  fetches : nat;
}.

Definition add_processed (i : jstr) (s : state) : state :=
  {| processed := {[ i ]} ∪ processed s; pageToken := pageToken s;
     totalFetched := totalFetched s; totalAttempted := totalAttempted s;
     totalUpdated := totalUpdated s; totalSkipped := totalSkipped s;
     errors := errors s; disk := disk s; requests := requests s;
     fetches := fetches s |}.

Definition add_attempted (n : nat) (s : state) : state :=
  {| processed := processed s; pageToken := pageToken s;
     totalFetched := totalFetched s; totalAttempted := totalAttempted s + n;
     totalUpdated := totalUpdated s; totalSkipped := totalSkipped s;
     errors := errors s; disk := disk s; requests := requests s;
     fetches := fetches s |}.

Definition add_updated (n : nat) (s : state) : state :=
  {| processed := processed s; pageToken := pageToken s;
     totalFetched := totalFetched s; totalAttempted := totalAttempted s;
     totalUpdated := totalUpdated s + n; totalSkipped := totalSkipped s;
     errors := errors s; disk := disk s; requests := requests s;
     fetches := fetches s |}.

Definition add_skipped (n : nat) (s : state) : state :=
  {| processed := processed s; pageToken := pageToken s;
     totalFetched := totalFetched s; totalAttempted := totalAttempted s;
     totalUpdated := totalUpdated s; totalSkipped := totalSkipped s + n;
     errors := errors s; disk := disk s; requests := requests s;
     fetches := fetches s |}.

Definition push_error (e : error_entry) (s : state) : state :=
  {| processed := processed s; pageToken := pageToken s;
     totalFetched := totalFetched s; totalAttempted := totalAttempted s;
     totalUpdated := totalUpdated s; totalSkipped := totalSkipped s;
     errors := errors s ++ [e]; disk := disk s; requests := requests s;
     fetches := fetches s |}.

Definition set_disk (d : files) (s : state) : state :=
  {| processed := processed s; pageToken := pageToken s;
     totalFetched := totalFetched s; totalAttempted := totalAttempted s;
     totalUpdated := totalUpdated s; totalSkipped := totalSkipped s;
     errors := errors s; disk := d; requests := requests s;
     fetches := fetches s |}.

Definition push_request (c : call) (s : state) : state :=
  {| processed := processed s; pageToken := pageToken s;
     totalFetched := totalFetched s; totalAttempted := totalAttempted s;
     totalUpdated := totalUpdated s; totalSkipped := totalSkipped s;
     errors := errors s; disk := disk s; requests := requests s ++ [c];
     fetches := fetches s |}.

(** The page that came back: the token is kept, the rows are counted. *)
Definition fetched_page (n : nat) (next : option jstr) (s : state) : state :=
  {| processed := processed s; pageToken := next;
     totalFetched := totalFetched s + n; totalAttempted := totalAttempted s;
     totalUpdated := totalUpdated s; totalSkipped := totalSkipped s;
     errors := errors s; disk := disk s; requests := requests s;
     fetches := S (fetches s) |}.

(** [arr.slice(start, end)] *)
Definition slice {A} (l : list A) (start end_ : Z) : list A :=
  let len := Z.of_nat (length l) in
  let rel k := if (k <? 0)%Z then Z.max (len + k) 0 else Z.min k len in
  take (Z.to_nat (rel end_ - rel start)) (drop (Z.to_nat (rel start)) l).

(** ** The worker pool of [runWithConcurrency] *)

(** A worker is suspended at its [await], on an item whose remote call is
    in flight with the answer it will get, or it has left its loop. *)
Inductive worker :=
| Awaiting (w : pending) (r : update_result)
| Returned.

(** The shared index, the workers, the rows collected for the audit file
    and the variables of the run. *)
Record pool := {
  idx : nat;
  workers : list worker;
  waveCsvRows : list audit;
  vars : state;
}.

(** The item and the answer a worker waits for. *)
Definition flight (k : worker) : option (pending * update_result) :=
  match k with
  | Awaiting w r => Some (w, r)
  | Returned => None
  end.

(** The remote calls in flight, and their number. *)
Definition flying (p : pool) : list (pending * update_result) :=
  omap flight (workers p).

Definition in_flight (p : pool) : nat := length (flying p).

(** The positions, from [n] on, of the workers that are waiting. *)
Fixpoint waiting_from (n : nat) (ws : list worker) : list nat :=
  match ws with
  | [] => []
  | Awaiting _ _ :: ws => n :: waiting_from (S n) ws
  | Returned :: ws => waiting_from (S n) ws
  end.

Definition waiting (p : pool) : list nat := waiting_from 0 (workers p).

(** What went wrong before the summary could be returned. *)
Inductive thrown :=
| MissingArg (name : string)
| UnsupportedMatchKeyType
| MissingColumnName
| ReadFailed (e : js_error)
| QueryRejected (e : js_error).

(** A run throws before its page loop, throws inside it when a page cannot
    be fetched, or returns.  These are the outcomes of a run whose writes
    to the two files succeed and whose rejected calls have an error text
    that can be built: a throw of [fs], of [JSON.stringify] inside the
    [catch] or of [Array.from] has no outcome here. *)
Inductive outcome :=
| Throws (t : thrown)
| ThrowsInLoop (e : js_error) (s : state)
| Returns (s : state).

Inductive read_result :=
| ReadThrows (e : js_error)
| Contents (text : jstr).

Section Sync.

Variable cfg : config.

(** The CRM client: the answer to a request, given the requests it has
    received before. *)
Variable update : list call → call → update_result.

(** The order in which the calls in flight come back: among the workers
    that are waiting, the one whose call settles next. *)
Variable settles : pool → nat.

(** [fs.readFileSync] on the file of the query, and the warehouse client. *)
Variable readFileSync : jstr → read_result.
Variable createQueryJob : jstr → job_result.

(** *** Building the updates of a page *)

(** The body of [for (const r of rows)]. *)
Definition scan_row (r : row) (acc : state * list pending) : state * list pending :=
  let '(s, batchUpdates) := acc in
  let id_ := row_id (the (matching_id cfg)) r in
  if bool_decide (id_ = []) then acc
  else if skipAlreadyProcessed cfg && bool_decide (id_ ∈ processed s)
  then (add_skipped 1 s, batchUpdates)
  else
    let props := row_props (property cfg) (column_name cfg) (dropBlanks cfg) r in
    if bool_decide (props = ∅)
    then (add_processed id_ (add_skipped 1 s), batchUpdates)
    else (s, batchUpdates ++ [{| p_id := id_; p_properties := props |}]).

Definition scan (rows : list row) (s : state) : state * list pending :=
  foldl (λ acc r, scan_row r acc) (s, []) rows.

(** *** Dry run of a wave *)

Definition dry_run_item (s : state) (w : pending) : state :=
  let s :=
    if negb (falsy (outputCsvPath cfg))
    then set_disk (writeCsvAppend (disk s)
                     [{| matchVal := p_id w; a_status := DRY_RUN;
                         properties_json := p_properties w; a_error := [] |}]) s
    else s in
  add_processed (p_id w) s.

Definition dry_run_wave (wave : list pending) (s : state) : state :=
  let s := add_attempted (length wave) s in
  let s := foldl dry_run_item s wave in
  set_disk (saveCheckpoint (checkpointPath cfg) (processed s) (disk s)) s.

(** *** Applying a wave *)

Definition call_of (w : pending) : call :=
  {| c_endpoint := route (the (object cfg)); c_id := p_id w;
     c_properties := p_properties w |}.

(** The worker function up to its [await]: the call is sent. *)
Definition workerFn_send (w : pending) (s : state) : update_result * state :=
  let s := add_attempted 1 s in
  (update (requests s) (call_of w), push_request (call_of w) s).

(** The worker function after its [await]: the [try] or the [catch]. *)
Definition workerFn_settle (w : pending) (r : update_result) (p : pool) : pool :=
  match r with
  | Resolved =>
      {| idx := idx p; workers := workers p;
         waveCsvRows := waveCsvRows p ++
           [{| matchVal := p_id w; a_status := UPDATED;
               properties_json := p_properties w; a_error := [] |}];
         vars := add_processed (p_id w) (add_updated 1 (vars p)) |}
  | Rejected e =>
      {| idx := idx p; workers := workers p;
         waveCsvRows := waveCsvRows p ++
           [{| matchVal := p_id w; a_status := ERROR;
               properties_json := p_properties w; a_error := errText e |}];
         vars := add_processed (p_id w)
                   (push_error {| e_matchVal := p_id w; e_error := errText e;
                                  e_properties := p_properties w |} (vars p)) |}
  end.

(** A worker from the head of its loop to its next [await] or its
    [break]. *)
Definition worker_loop (items : list pending) (p : pool) : worker * pool :=
  let i := idx p in
  match items !! i with
  | None =>
      (Returned,
       {| idx := S i; workers := workers p; waveCsvRows := waveCsvRows p;
          vars := vars p |})
  | Some w =>
      let '(r, s) := workerFn_send w (vars p) in
      (Awaiting w r,
       {| idx := S i; workers := workers p; waveCsvRows := waveCsvRows p;
          vars := s |})
  end.

(** [Array.from] starts one more worker. *)
Definition spawn_worker (items : list pending) (p : pool) : pool :=
  let '(k, p) := worker_loop items p in
  {| idx := idx p; workers := workers p ++ [k]; waveCsvRows := waveCsvRows p;
     vars := vars p |}.

Definition spawn (items : list pending) (concurrency : nat) (p : pool) : pool :=
  Nat.iter concurrency (spawn_worker items) p.

(** The call of worker [n] comes back: the worker records the outcome and
    goes round its loop. *)
Definition settle (items : list pending) (n : nat) (p : pool) : option pool :=
  match workers p !! n with
  | Some (Awaiting w r) =>
      let '(k, p) := worker_loop items (workerFn_settle w r p) in
      Some {| idx := idx p; workers := <[n := k]> (workers p);
              waveCsvRows := waveCsvRows p; vars := vars p |}
  | _ => None
  end.

(** [Promise.all]: calls settle in the order [settles] gives until no
    worker waits. *)
Fixpoint drive (items : list pending) (steps : nat) (p : pool) : pool :=
  match steps with
  | 0 => p
  | S steps =>
      match waiting p with
      | [] => p
      | n0 :: ns =>
          match settle items (nth (settles p mod length (n0 :: ns)) (n0 :: ns) n0) p with
          | Some p => drive items steps p
          | None => p
          end
      end
  end.

Definition runWithConcurrency (items : list pending) (concurrency : Z)
    (s : state) : pool :=
  drive items (length items)
    (spawn items (Z.to_nat concurrency)
       {| idx := 0; workers := []; waveCsvRows := []; vars := s |}).

Definition apply_wave (wave : list pending) (s : state) : state :=
  let p := runWithConcurrency wave (updateConcurrency cfg) s in
  let s := vars p in
  let s :=
    if negb (falsy (outputCsvPath cfg)) && negb (bool_decide (waveCsvRows p = []))
    then set_disk (writeCsvAppend (disk s) (waveCsvRows p)) s
    else s in
  set_disk (saveCheckpoint (checkpointPath cfg) (processed s) (disk s)) s.

(** *** The waves of a page *)

(** [for (let i = 0; i < batchUpdates.length; i += updateBatchSize)]; the
    loop does not end when the step is not positive, so it runs on fuel. *)
Fixpoint waves (fuel : nat) (batchUpdates : list pending) (i : Z) (s : state)
    : option state :=
  match fuel with
  | 0 => None
  | S fuel =>
      if bool_decide (i < Z.of_nat (length batchUpdates))%Z then
        let wave := slice batchUpdates i (i + updateBatchSize cfg) in
        let s :=
          if bool_decide (wave = []) then s
          else if negb (apply cfg) then dry_run_wave wave s
          else apply_wave wave s in
        waves fuel batchUpdates (i + updateBatchSize cfg)%Z s
      else Some s
  end.

(** *** The page loop *)

Definition fetchBigQueryPage (j : job) (n : nat) (pageToken : option jstr)
    (pageSize : Z) : js_error + list row * option jstr :=
  let opts := {| maxResults := pageSize;
                 opt_pageToken := if falsy pageToken then None else pageToken |} in
  match j n opts with
  | FetchRejected e => inl e
  | Page rows tok => inr (rows, if falsy tok then None else tok)
  end.

(** The body of the page loop after the test for an empty page: the
    updates are built, then dispatched wave by wave.  [None] when the loop
    over the waves does not end. *)
Definition page_body (rows : list row) (s : state) : option state :=
  let '(s, batchUpdates) := scan rows s in
  waves (S (length batchUpdates)) batchUpdates 0 s.

(** [while (true)]: [None] when the fuel runs out. *)
Fixpoint pages (j : job) (fuel : nat) (s : state) : option outcome :=
  match fuel with
  | 0 => None
  | S fuel =>
      match fetchBigQueryPage j (fetches s) (pageToken s) (pageSize cfg) with
      | inl e => Some (ThrowsInLoop e s)
      | inr (rows, nextPageToken) =>
          let s := fetched_page (length rows) nextPageToken s in
          if bool_decide (length rows = 0) then Some (Returns s)
          else
            match page_body rows s with
            | None => None
            | Some s =>
                if falsy (pageToken s) then Some (Returns s)
                else pages j fuel s
            end
      end
  end.

(** *** The run *)

Definition validate : option thrown :=
  if falsy (object cfg) then Some (MissingArg "object")
  else if falsy (sql cfg) then Some (MissingArg "sql")
  else if match property cfg with
          | PropMissing | PropName [] => true
          | _ => false
          end then Some (MissingArg "property")
  else if falsy (matching_id cfg) then Some (MissingArg "matching_id")
  else if negb (hubspotClient cfg) then Some (MissingArg "hubspotClient")
  else if negb (bigqueryClient cfg) then Some (MissingArg "bigqueryClient")
  else if negb (bool_decide (matchKeyType cfg = lit "id"))
  then Some UnsupportedMatchKeyType
  else if match property cfg with
          | PropMap _ => false
          | _ => falsy (column_name cfg)
          end then Some MissingColumnName
  else None.

Definition initial (d : files) : state :=
  {| processed := loadCheckpoint (checkpointPath cfg) d; pageToken := None;
     totalFetched := 0; totalAttempted := 0; totalUpdated := 0;
     totalSkipped := 0; errors := []; disk := d; requests := [];
     fetches := 0 |}.

(** [const query]: the text of [sql], or of the file it names. *)
Definition query : read_result :=
  if endsWith (trim (the (sql cfg))) (lit ".sql")
  then readFileSync (the (sql cfg))
  else Contents (the (sql cfg)).

Definition syncHubSpotPropertiesFromBigQuery (fuel : nat) (d : files)
    : option outcome :=
  match validate with
  | Some t => Some (Throws t)
  | None =>
      match query with
      | ReadThrows e => Some (Throws (ReadFailed e))
      | Contents query =>
          match createQueryJob query with
          | JobRejected e => Some (Throws (QueryRejected e))
          | Job j => pages j fuel (initial d)
          end
      end
  end.

End Sync.

(** The object the run returns. *)
Record summary := {
  fetched : nat;
  attempted : nat;
  updated : nat;
  skipped : nat;
  s_errors : list error_entry;
  s_checkpointPath : option jstr;
  s_outputCsvPath : option jstr;
  note : jstr;
}.

Definition summary_of (cfg : config) (s : state) : summary :=
  {| fetched := totalFetched s;
     attempted := totalAttempted s;
     updated := totalUpdated s;
     skipped := totalSkipped s;
     s_errors := errors s;
     s_checkpointPath := checkpointPath cfg;
     s_outputCsvPath := if falsy (outputCsvPath cfg) then None else outputCsvPath cfg;
     note := if apply cfg then lit "Executed updates." else lit "Dry run only." |}.

(** The arguments with their default values. *)
Definition defaults (object sql : jstr) (property : property_arg)
    (column_name : option jstr) (matching_id : jstr) : config :=
  {| object := Some object; sql := Some sql; property := property;
     column_name := column_name; matching_id := Some matching_id;
     matchKeyType := lit "id"; apply := false; pageSize := 5000;
     updateBatchSize := 500; updateConcurrency := 10; dropBlanks := true;
     checkpointPath := Some (lit "./data/processed_contact_ids.json");
     skipAlreadyProcessed := true; outputCsvPath := None;
     hubspotClient := true; bigqueryClient := true |}.

(** ** Notions the properties are stated with *)

(** The three ways a row with an identifier leaves [scan_row]. *)
Definition already_processed (cfg : config) (r : row) (s : state) : Prop :=
  skipAlreadyProcessed cfg = true ∧ row_id (the (matching_id cfg)) r ∈ processed s.

Definition mapped (cfg : config) (r : row) : row :=
  row_props (property cfg) (column_name cfg) (dropBlanks cfg) r.

Definition update_of (cfg : config) (r : row) : pending :=
  {| p_id := row_id (the (matching_id cfg)) r; p_properties := mapped cfg r |}.

(** The audit line a settled call leaves. *)
Definition audit_of (wr : pending * update_result) : audit :=
  match wr.2 with
  | Resolved =>
      {| matchVal := p_id wr.1; a_status := UPDATED;
         properties_json := p_properties wr.1; a_error := [] |}
  | Rejected e =>
      {| matchVal := p_id wr.1; a_status := ERROR;
         properties_json := p_properties wr.1; a_error := errText e |}
  end.

(** The entry of [errors] that goes with an audit line. *)
Definition error_of (a : audit) : option error_entry :=
  match a_status a with
  | ERROR => Some {| e_matchVal := matchVal a; e_error := a_error a;
                     e_properties := properties_json a |}
  | _ => None
  end.

Definition is_updated (a : audit) : bool :=
  match a_status a with
  | UPDATED => true
  | _ => false
  end.

(** The state an applied wave ends in when its calls have left the audit
    lines [rows]: every item was attempted and requested, every line marks
    its identifier processed, counts as an update or leaves an error, the
    lines are flushed and the checkpoint is saved. *)
Definition applied (cfg : config) (wave : list pending) (rows : list audit)
    (s : state) : state :=
  let done := processed s ∪ list_to_set (matchVal <$> rows) in
  {| processed := done;
     pageToken := pageToken s;
     totalFetched := totalFetched s;
     totalAttempted := totalAttempted s + length wave;
     totalUpdated :=
       totalUpdated s + length (filter (λ a, is_updated a = true) rows);
     totalSkipped := totalSkipped s;
     errors := errors s ++ omap error_of rows;
     disk :=
       saveCheckpoint (checkpointPath cfg) done
         (if negb (falsy (outputCsvPath cfg)) && negb (bool_decide (rows = []))
          then writeCsvAppend (disk s) rows else disk s);
     requests := requests s ++ (call_of cfg <$> wave);
     fetches := fetches s |}.

(** The audit line of an item in a dry run. *)
Definition dry_row (w : pending) : audit :=
  {| matchVal := p_id w; a_status := DRY_RUN;
     properties_json := p_properties w; a_error := [] |}.

(** The state a wave of a dry run ends in. *)
Definition dried (cfg : config) (wave : list pending) (s : state) : state :=
  let done := processed s ∪ list_to_set (p_id <$> wave) in
  {| processed := done;
     pageToken := pageToken s;
     totalFetched := totalFetched s;
     totalAttempted := totalAttempted s + length wave;
     totalUpdated := totalUpdated s;
     totalSkipped := totalSkipped s;
     errors := errors s;
     disk :=
       saveCheckpoint (checkpointPath cfg) done
         (if negb (falsy (outputCsvPath cfg)) && negb (bool_decide (wave = []))
          then writeCsvAppend (disk s) (dry_row <$> wave) else disk s);
     requests := requests s;
     fetches := fetches s |}.

(** What one turn of the loop over the waves does with a wave that is not
    empty. *)
Definition wave_step (cfg : config) (update : list call → call → update_result)
    (settles : pool → nat) (wave : list pending) (s : state) : state :=
  if negb (apply cfg) then dry_run_wave cfg wave s
  else apply_wave cfg update settles wave s.

(** The identifiers the checkpoint file holds, as a run would load them. *)
Definition stored (cfg : config) (s : state) : gset jstr :=
  loadCheckpoint (checkpointPath cfg) (disk s).

(** From [s] to [s']: the processed set has grown, the page loop is where it
    was, and if the checkpoint file held only processed identifiers it still
    does and has lost none. *)
Record grows (cfg : config) (s s' : state) : Prop := {
  grows_processed : processed s ⊆ processed s';
  grows_stored :
    stored cfg s ⊆ processed s →
    stored cfg s' ⊆ processed s' ∧ stored cfg s ⊆ stored cfg s';
  grows_fetches : fetches s' = fetches s;
  grows_pageToken : pageToken s' = pageToken s;
  grows_totalFetched : totalFetched s' = totalFetched s;
}.

(** What the page loop sees of the job, whatever is done with the rows: the
    pages it fetches, and the error of the fetch that throws when one does.
    [None] when the fuel runs out. *)
Fixpoint paging (j : job) (pageSize : Z) (fuel n : nat) (pageToken : option jstr)
    : option (list (list row * option jstr) * option js_error) :=
  match fuel with
  | 0 => None
  | S fuel =>
      match fetchBigQueryPage j n pageToken pageSize with
      | inl e => Some ([], Some e)
      | inr (rows, nextPageToken) =>
          if bool_decide (length rows = 0) then Some ([(rows, nextPageToken)], None)
          else if falsy nextPageToken then Some ([(rows, nextPageToken)], None)
          else
            match paging j pageSize fuel (S n) nextPageToken with
            | None => None
            | Some (pgs, e) => Some ((rows, nextPageToken) :: pgs, e)
            end
      end
  end.

(** One turn of the page loop on a page that was fetched. *)
Definition page_step (cfg : config) (update : list call → call → update_result)
    (settles : pool → nat) (pg : list row * option jstr) (s : state) : option state :=
  let s := fetched_page (length pg.1) pg.2 s in
  if bool_decide (length pg.1 = 0) then Some s
  else page_body cfg update settles pg.1 s.

Fixpoint page_steps (cfg : config) (update : list call → call → update_result)
    (settles : pool → nat) (pgs : list (list row * option jstr)) (s : state)
    : option state :=
  match pgs with
  | [] => Some s
  | pg :: pgs =>
      match page_step cfg update settles pg s with
      | None => None
      | Some s => page_steps cfg update settles pgs s
      end
  end.



(** A property of the state that every step of a run keeps: the scan of a
    row, a wave, the receipt of a page. *)
Definition kept (cfg : config) (update : list call → call → update_result)
    (settles : pool → nat) (I : state → Prop) : Prop :=
  (∀ r s b, I s → I (scan_row cfg r (s, b)).1) ∧
  (∀ wave s, I s → I (wave_step cfg update settles wave s)) ∧
  (∀ n tok s, I s → I (fetched_page n tok s)).

(** The row is dropped by the scan because nothing is left of its
    properties. *)
Definition discarded (cfg : config) (r : row) (s : state) : bool :=
  negb (bool_decide (row_id (the (matching_id cfg)) r = [])) &&
  negb (skipAlreadyProcessed cfg &&
        bool_decide (row_id (the (matching_id cfg)) r ∈ processed s)) &&
  bool_decide (mapped cfg r = ∅).

(** What happens in a run, one change of the state at a time. *)
Inductive event :=
| Scanned (r : row)
| Counted (n : nat)
| Recorded (w : pending)
| Sent (w : pending)
| Settled (w : pending) (r : update_result)
| Flushed (rows : list audit)
| Saved
| Received (n : nat) (nextPageToken : option jstr).

Inductive moment (cfg : config) (update : list call → call → update_result)
    : event → state → state → Prop :=
| moment_scanned r s b :
    moment cfg update (Scanned r) s (scan_row cfg r (s, b)).1
| moment_counted n s :
    moment cfg update (Counted n) s (add_attempted n s)
| moment_recorded w s :
    moment cfg update (Recorded w) s (dry_run_item cfg s w)
| moment_sent w s :
    moment cfg update (Sent w) s (workerFn_send cfg update w s).2
| moment_settled w r p :
    moment cfg update (Settled w r) (vars p) (vars (workerFn_settle w r p))
| moment_flushed rows s :
    moment cfg update (Flushed rows) s (set_disk (writeCsvAppend (disk s) rows) s)
| moment_saved s :
    moment cfg update Saved s
      (set_disk (saveCheckpoint (checkpointPath cfg) (processed s) (disk s)) s)
| moment_received n tok s :
    moment cfg update (Received n tok) s (fetched_page n tok s).

(** A change of the state by one event. *)
Definition moves (cfg : config) (update : list call → call → update_result)
    (s s' : state) : Prop :=
  ∃ ev, moment cfg update ev s s'.

(** The identifiers an event adds to the processed set: that of a row
    dropped as empty, of an item recorded by a dry run, of an item whose call
    came back, resolved or rejected. *)
Definition added (cfg : config) (ev : event) (s : state) : gset jstr :=
  match ev with
  | Scanned r =>
      if discarded cfg r s then {[ row_id (the (matching_id cfg)) r ]} else ∅
  | Recorded w => {[ p_id w ]}
  | Settled w Resolved => {[ p_id w ]}
  | Settled w (Rejected _) => {[ p_id w ]}
  | _ => ∅
  end.

Section Notions.

Variable cfg : config.
Variable update : list call → call → update_result.

(** The items of a wave with the answers their calls get, the calls being
    sent in the order of the wave after the requests [h]. *)
Fixpoint answers (h : list call) (items : list pending)
    : list (pending * update_result) :=
  match items with
  | [] => []
  | w :: items =>
      (w, update h (call_of cfg w)) :: answers (h ++ [call_of cfg w]) items
  end.

(** The pool at the call of [runWithConcurrency]. *)
Definition pool_start (s : state) : pool :=
  {| idx := 0; workers := []; waveCsvRows := []; vars := s |}.

(** One step of the pool: while [Array.from] builds the array a worker is
    started; once it is built, a call in flight comes back. *)
Inductive pool_step (items : list pending) (concurrency : nat) : pool → pool → Prop :=
| step_spawn p :
    length (workers p) < concurrency →
    pool_step items concurrency p (spawn_worker cfg update items p)
| step_settle p n p' :
    length (workers p) = concurrency →
    settle cfg update items n p = Some p' →
    pool_step items concurrency p p'.

(** What holds of the pool of a wave [items] started in state [s0], at
    every step: the requests sent are those of the first [idx] items, each
    of them has come back or is in flight, and the variables of the run
    record exactly the calls that have come back. *)
Record pool_inv (items : list pending) (s0 : state) (p : pool) : Prop := {
  inv_requests :
    requests (vars p) = requests s0 ++ (call_of cfg <$> take (idx p) items);
  inv_rows :
    waveCsvRows p ++ (audit_of <$> flying p) ≡ₚ
    audit_of <$> take (idx p) (answers (requests s0) items);
  inv_returned : Returned ∈ workers p → length items < idx p;
  inv_processed :
    processed (vars p) = processed s0 ∪ list_to_set (matchVal <$> waveCsvRows p);
  inv_errors : errors (vars p) = errors s0 ++ omap error_of (waveCsvRows p);
  inv_updated :
    totalUpdated (vars p) =
    totalUpdated s0 + length (filter (λ a, is_updated a = true) (waveCsvRows p));
  inv_attempted :
    totalAttempted (vars p) = totalAttempted s0 + idx p `min` length items;
  inv_disk : disk (vars p) = disk s0;
  inv_skipped : totalSkipped (vars p) = totalSkipped s0;
  inv_fetched : totalFetched (vars p) = totalFetched s0;
  inv_pageToken : pageToken (vars p) = pageToken s0;
  inv_fetches : fetches (vars p) = fetches s0;
}.

End Notions.

(** ** Rows, jobs and files the examples run on *)

(** The rows of a stream that carry an identifier. *)
Definition identified (cfg : config) (rows : list row) : list row :=
  filter (λ r, row_id (the (matching_id cfg)) r ≠ []) rows.

(** The rows with an identifier that keep a property: those an update is
    built from, unless they are skipped as already processed. *)
Definition updatable (cfg : config) (rows : list row) : list row :=
  filter (λ r, row_id (the (matching_id cfg)) r ≠ [] ∧ mapped cfg r ≠ ∅) rows.

(** The rows with an identifier that keep no property: those whose update
    is discarded as empty, unless they are skipped as already processed. *)
Definition blank_only (cfg : config) (rows : list row) : list row :=
  filter (λ r, row_id (the (matching_id cfg)) r ≠ [] ∧ mapped cfg r = ∅) rows.

(** The number of distinct identifiers of the rows that keep a property. *)
Definition distinct_updated_ids (cfg : config) (rows : list row) : nat :=
  size (list_to_set (C := gset jstr)
          (row_id (the (matching_id cfg)) <$>
             filter (λ r, row_id (the (matching_id cfg)) r ≠ [] ∧ mapped cfg r ≠ ∅)
               rows)).

(** A configuration with another [apply], [updateBatchSize] and
    [updateConcurrency]. *)
Definition with_dispatch (apply_ : bool) (batch concurrency : Z) (cfg : config)
    : config :=
  {| object := object cfg; sql := sql cfg; property := property cfg;
     column_name := column_name cfg; matching_id := matching_id cfg;
     matchKeyType := matchKeyType cfg; apply := apply_; pageSize := pageSize cfg;
     updateBatchSize := batch; updateConcurrency := concurrency;
     dropBlanks := dropBlanks cfg; checkpointPath := checkpointPath cfg;
     skipAlreadyProcessed := skipAlreadyProcessed cfg;
     outputCsvPath := outputCsvPath cfg; hubspotClient := hubspotClient cfg;
     bigqueryClient := bigqueryClient cfg |}.

Module Sample.

Definition no_files : files := {| checkpoint_file := None; csv_file := None |}.

(** The run of [normalized_contacts.js], with one worker-pool of ten and a
    dry-run twin. *)
Definition contacts (apply_ : bool) : config :=
  {| object := Some (lit "contacts");
     sql := Some (lit "SELECT id, country_normalized, state_normalized FROM t");
     property := PropMap {[ lit "country" := lit "country_normalized";
                            lit "state" := lit "state_normalized" ]};
     column_name := None;
     matching_id := Some (lit "id");
     matchKeyType := lit "id";
     apply := apply_;
     pageSize := 5000;
     updateBatchSize := 500;
     updateConcurrency := 10;
     dropBlanks := true;
     checkpointPath := Some (lit "./data/processed_contact_ids.json");
     skipAlreadyProcessed := true;
     outputCsvPath := Some (lit "./data/contact_updates.csv");
     hubspotClient := true;
     bigqueryClient := true |}.

Definition contact (id_ country state : value) : row :=
  {[ lit "id" := id_; lit "country_normalized" := country;
     lit "state_normalized" := state ]}.

Definition row_US : row := contact (VStr (lit "1")) (VStr (lit "US")) (VStr (lit "CA")).
Definition row_blank : row := contact (VStr (lit "2")) VNull VNull.
Definition row_FR : row := contact (VNum 3) (VStr (lit "FR")) (VStr (lit " ")).

(** A row of the contact 1 with neither country nor state. *)
Definition row_blank_1 : row := contact (VStr (lit "1")) VNull VNull.

Definition boom : js_error :=
  {| response_body := None; message := Some (lit "boom");
     as_string := lit "Error: boom" |}.

(** A CRM that accepts everything, and one that rejects the record 3. *)
Definition accepts : list call → call → update_result := λ _ _, Resolved.

Definition rejects_3 : list call → call → update_result :=
  λ _ c, if bool_decide (c_id c = lit "3") then Rejected boom else Resolved.

(** Calls come back in the order of the workers, or the last one first. *)
Definition in_order : pool → nat := λ _, 0.
Definition last_first : pool → nat := λ p, in_flight p - 1.

Definition no_file : jstr → read_result := λ _, ReadThrows boom.

(** A job that gives its pages in turn, each with a token but the last. *)
Definition job_of (pgs : list (list row)) : job :=
  λ n _, match pgs !! n with
         | Some rows =>
             Page rows (if bool_decide (S n < length pgs)
                        then Some (lit "next") else None)
         | None => Page [] None
         end.

Definition warehouse (pgs : list (list row)) : jstr → job_result :=
  λ _, Job (job_of pgs).


(** A job that gives one page with a token, and whose second page cannot
    be fetched. *)
Definition breaks_after (rows : list row) : job :=
  λ n _, match n with
         | 0 => Page rows (Some (lit "next"))
         | _ => FetchRejected boom
         end.

(** Two pages of 5000 rows without identifier, then a page without rows that
    still comes with a token. *)
Definition three_pages : job :=
  λ n _, match n with
         | 0 => Page (replicate 5000 ∅) (Some (lit "t1"))
         | 1 => Page (replicate 5000 ∅) (Some (lit "t2"))
         | _ => Page [] (Some (lit "t3"))
         end.

Definition wave3 : list pending :=
  [update_of (contacts true) row_US;
   update_of (contacts true) row_FR;
   update_of (contacts true) (contact (VStr (lit "4")) (VStr (lit "DE")) VNull)].

Definition fresh : state := initial (contacts true) no_files.

End Sample.

(** ** The text of the audit file *)

(** The characters [csvEscape] tests for: quote, comma, line feed, carriage
    return. *)
Definition special (c : N) : bool :=
  match c with
  | 34 | 44 | 10 | 13 => true
  | _ => false
  end%N.

(** Every quote of [s] written twice, as the [replace] of [csvEscape] does. *)
Fixpoint double_quotes (s : jstr) : jstr :=
  match s with
  | [] => []
  | c :: s => (if (c =? 34)%N then [34; 34] else [c])%N ++ double_quotes s
  end.

Definition csvEscape (v : value) : jstr :=
  match v with
  | VUndefined | VNull => []
  | _ =>
      let s := String_ v in
      if existsb special s then [34%N] ++ double_quotes s ++ [34%N] else s
  end.

(** [cells.join] with a comma. *)
Fixpoint join_commas (cells : list jstr) : jstr :=
  match cells with
  | [] => []
  | [c] => c
  | c :: cells => c ++ [44%N] ++ join_commas cells
  end.

(** A line of the file: the values [r[h]], in the order of the headers, each
    through [csvEscape], joined with commas. *)
Definition csv_line_text (cells : list value) : jstr :=
  join_commas (csvEscape <$> cells).

(** How a reader of the file splits a line into cells: a quote opens and
    closes a quoted stretch, inside which two quotes stand for one; outside,
    a comma ends the cell. *)
Fixpoint split_cells (s : jstr) (quoted : bool) (cur : jstr) : list jstr :=
  match s with
  | [] => [cur]
  | c :: s' =>
      if quoted then
        if (c =? 34)%N then
          match s' with
          | (34 :: s'')%N => split_cells s'' true (cur ++ [34%N])
          | _ => split_cells s' false cur
          end
        else split_cells s' true (cur ++ [c])
      else if (c =? 34)%N then split_cells s' true cur
      else if (c =? 44)%N then cur :: split_cells s' false []
      else split_cells s' false (cur ++ [c])
  end.

(** The audit lines of the file, the header left out. *)
Definition data_lines (d : files) : list audit :=
  omap (λ l, match l with Line a => Some a | _ => None end)
       (default [] (csv_file d)).

(** Two configurations that tell the scan of a page the same. *)
Definition same_scan (cfg cfg' : config) : Prop :=
  matching_id cfg' = matching_id cfg ∧ property cfg' = property cfg ∧
  column_name cfg' = column_name cfg ∧ dropBlanks cfg' = dropBlanks cfg ∧
  skipAlreadyProcessed cfg' = skipAlreadyProcessed cfg.

(** What a request of a run always is: for the entry point of the object,
    for an identifier that is not empty, with a property at least, none
    of them [undefined] or [null], nor blank when blanks are dropped. *)
Definition well_formed (cfg : config) (c : call) : Prop :=
  c_endpoint c = route (the (object cfg)) ∧
  c_id c ≠ [] ∧
  c_properties c ≠ ∅ ∧
  ∀ k v, c_properties c !! k = Some v →
         v ≠ VUndefined ∧ v ≠ VNull ∧
         (dropBlanks cfg = true → trim (String_ v) ≠ []).

(** Two states that differ by the order of the entries of [errors] and of
    the lines of the audit file at most; of the checkpoint file, what a run
    would load from it is compared. *)
Definition same_up_to_order (cfg : config) (s s' : state) : Prop :=
  processed s' = processed s ∧ pageToken s' = pageToken s ∧
  totalFetched s' = totalFetched s ∧ totalAttempted s' = totalAttempted s ∧
  totalUpdated s' = totalUpdated s ∧ totalSkipped s' = totalSkipped s ∧
  requests s' = requests s ∧ fetches s' = fetches s ∧
  errors s' ≡ₚ errors s ∧
  stored cfg s' = stored cfg s ∧
  option_Forall2 (≡ₚ) (csv_file (disk s')) (csv_file (disk s)).

Definition same_outcome (cfg : config) (o o' : outcome) : Prop :=
  match o, o' with
  | Throws t, Throws t' => t' = t
  | ThrowsInLoop e s, ThrowsInLoop e' s' => e' = e ∧ same_up_to_order cfg s s'
  | Returns s, Returns s' => same_up_to_order cfg s s'
  | _, _ => False
  end.

(** The token the page loop holds when it asks for the page [k] of [pgs],
    having started with [first]. *)
Definition token_before (first : option jstr)
    (pgs : list (list row * option jstr)) (k : nat) : option jstr :=
  match k with
  | 0 => first
  | S k' => pgs !! k' ≫= snd
  end.

(** A configuration with [skipAlreadyProcessed] off. *)
Definition without_skip (cfg : config) : config :=
  {| object := object cfg; sql := sql cfg; property := property cfg;
     column_name := column_name cfg; matching_id := matching_id cfg;
     matchKeyType := matchKeyType cfg; apply := apply cfg;
     pageSize := pageSize cfg; updateBatchSize := updateBatchSize cfg;
     updateConcurrency := updateConcurrency cfg; dropBlanks := dropBlanks cfg;
     checkpointPath := checkpointPath cfg; skipAlreadyProcessed := false;
     outputCsvPath := outputCsvPath cfg; hubspotClient := hubspotClient cfg;
     bigqueryClient := bigqueryClient cfg |}.
(** * Properties *)

Set Default Proof Using "Type".

Local Arguments Nat.min : simpl never.
Local Arguments Z.of_nat : simpl never.
Local Arguments Z.to_nat : simpl never.
Local Arguments scan_row : simpl never.

(** ** The blank rule *)

Lemma keep_false (db : bool) (v : value) :
  keep db v = false ↔
  v = VUndefined ∨ v = VNull ∨ (db = true ∧ trim (String_ v) = []).
Proof.
  destruct v, db; simpl; try case_bool_decide;
    intuition (discriminate || congruence).
Qed.

Lemma keep_true (db : bool) (v : value) :
  keep db v = true ↔
  v ≠ VUndefined ∧ v ≠ VNull ∧ (db = true → trim (String_ v) ≠ []).
Proof.
  destruct v, db; simpl; try case_bool_decide;
    intuition (discriminate || congruence).
Qed.

Lemma lookup_clean (db : bool) (obj : row) (k : jstr) (v : value) :
  clean db obj !! k = Some v ↔ obj !! k = Some v ∧ keep db v = true.
Proof. unfold clean. by rewrite map_lookup_filter_Some. Qed.

Lemma lookup_clean_None (db : bool) (obj : row) (k : jstr) (v : value) :
  obj !! k = Some v → keep db v = false → clean db obj !! k = None.
Proof.
  intros Hk Hv. destruct (clean db obj !! k) as [v'|] eqn:E; [|done].
  apply lookup_clean in E as [E1 E2]. congruence.
Qed.

(** C4. An entry of the object survives [clean] exactly when its value is
    neither [undefined] nor [null] and, if [dropBlanks] is set, its text is
    not empty after trimming.  So [undefined] and [null] never survive,
    whatever [dropBlanks] is, and without [dropBlanks] the empty string
    does. *)
Theorem clean_blank_rule :
  (∀ (db : bool) (obj : row) (k : jstr) (v : value),
     clean db obj !! k = Some v ↔
     obj !! k = Some v ∧ v ≠ VUndefined ∧ v ≠ VNull ∧
     (db = true → trim (String_ v) ≠ [])) ∧
  (∀ (db : bool) (obj : row) (k : jstr),
     clean db (<[k := VUndefined]> obj) !! k = None ∧
     clean db (<[k := VNull]> obj) !! k = None) ∧
  (∀ (obj : row) (k : jstr) (v : value),
     clean true (<[k := v]> obj) !! k = None ↔
     v = VUndefined ∨ v = VNull ∨ trim (String_ v) = []) ∧
  (∀ (obj : row) (k : jstr),
     clean false (<[k := VStr []]> obj) !! k = Some (VStr [])).
Proof.
  split_and!.
  - intros db obj k v. by rewrite lookup_clean, keep_true.
  - intros db obj k. split;
      (eapply lookup_clean_None; [apply lookup_insert_eq | done]).
  - intros obj k v. split.
    + intros Hn. destruct (keep true v) eqn:Hk.
      * assert (clean true (<[k:=v]> obj) !! k = Some v) as Hs
          by (apply lookup_clean; split; [apply lookup_insert_eq | done]).
        congruence.
      * apply keep_false in Hk. destruct Hk as [?|[?|[_ ?]]]; auto.
    + intros Hv. eapply lookup_clean_None; [apply lookup_insert_eq |].
      apply keep_false. destruct Hv as [?|[?|?]]; auto.
  - intros obj k. apply lookup_clean. split; [apply lookup_insert_eq | done].
Qed.

(** ** Scanning a page *)

Section Scan.

Variable cfg : config.

Lemma scan_row_no_id r acc :
  row_id (the (matching_id cfg)) r = [] → scan_row cfg r acc = acc.
Proof.
  intros H. destruct acc as [s b]. unfold scan_row. rewrite H.
  by rewrite bool_decide_eq_true_2.
Qed.

Lemma scan_row_skip r s b :
  row_id (the (matching_id cfg)) r ≠ [] → already_processed cfg r s →
  scan_row cfg r (s, b) = (add_skipped 1 s, b).
Proof.
  intros H [Hs Hp]. unfold scan_row.
  rewrite bool_decide_eq_false_2 by done.
  by rewrite Hs, bool_decide_eq_true_2.
Qed.

Lemma not_already_processed r s :
  ¬ already_processed cfg r s →
  skipAlreadyProcessed cfg &&
    bool_decide (row_id (the (matching_id cfg)) r ∈ processed s) = false.
Proof.
  intros H. unfold already_processed in H.
  destruct (skipAlreadyProcessed cfg); [|done]. simpl.
  apply bool_decide_eq_false_2. intros ?. by apply H.
Qed.

Lemma scan_row_discard r s b :
  row_id (the (matching_id cfg)) r ≠ [] → ¬ already_processed cfg r s →
  mapped cfg r = ∅ →
  scan_row cfg r (s, b) =
    (add_processed (row_id (the (matching_id cfg)) r) (add_skipped 1 s), b).
Proof.
  intros H Hp Hm. unfold scan_row.
  rewrite bool_decide_eq_false_2 by done.
  rewrite not_already_processed by done.
  fold (mapped cfg r). by rewrite bool_decide_eq_true_2.
Qed.

Lemma scan_row_enqueue r s b :
  row_id (the (matching_id cfg)) r ≠ [] → ¬ already_processed cfg r s →
  mapped cfg r ≠ ∅ →
  scan_row cfg r (s, b) = (s, b ++ [update_of cfg r]).
Proof.
  intros H Hp Hm. unfold scan_row.
  rewrite bool_decide_eq_false_2 by done.
  rewrite not_already_processed by done.
  fold (mapped cfg r). by rewrite bool_decide_eq_false_2.
Qed.

Lemma already_processed_dec r s :
  already_processed cfg r s ∨ ¬ already_processed cfg r s.
Proof.
  unfold already_processed. destruct (skipAlreadyProcessed cfg).
  - destruct (decide (row_id (the (matching_id cfg)) r ∈ processed s));
      [left | right]; naive_solver.
  - right. naive_solver.
Qed.

(** C5. A row with an identifier whose properties are all dropped creates
    no pending update: the list of updates of the page is unchanged, no
    request is sent and no file is written; the row is counted as skipped;
    its identifier is in the processed set afterwards. *)
Theorem blank_only_row_discarded (r : row) (s : state) (batchUpdates : list pending) :
  row_id (the (matching_id cfg)) r ≠ [] →
  row_props (property cfg) (column_name cfg) (dropBlanks cfg) r = ∅ →
  (scan_row cfg r (s, batchUpdates)).2 = batchUpdates ∧
  totalSkipped (scan_row cfg r (s, batchUpdates)).1 = totalSkipped s + 1 ∧
  row_id (the (matching_id cfg)) r ∈ processed (scan_row cfg r (s, batchUpdates)).1 ∧
  totalAttempted (scan_row cfg r (s, batchUpdates)).1 = totalAttempted s ∧
  requests (scan_row cfg r (s, batchUpdates)).1 = requests s ∧
  disk (scan_row cfg r (s, batchUpdates)).1 = disk s.
Proof.
  intros Hid Hblank.
  destruct (already_processed_dec r s) as [Hp|Hp].
  - rewrite scan_row_skip by done. simpl. destruct Hp as [_ Hp]. done.
  - rewrite scan_row_discard by done. simpl. split_and!; try done. set_solver.
Qed.

End Scan.

(** ** The worker pool *)

Lemma waiting_from_length (n : nat) (ws : list worker) :
  length (waiting_from n ws) = length (omap flight ws).
Proof.
  revert n. induction ws as [|[w r|] ws IH]; intros n; simpl; auto.
Qed.

Lemma waiting_length (p : pool) : length (waiting p) = in_flight p.
Proof. apply waiting_from_length. Qed.

Lemma waiting_from_lookup (b n : nat) (ws : list worker) :
  n ∈ waiting_from b ws →
  ∃ w r, b ≤ n ∧ ws !! (n - b) = Some (Awaiting w r).
Proof.
  revert b. induction ws as [|k ws IH]; intros b; simpl.
  - intros H. by apply elem_of_nil in H.
  - destruct k as [w r|].
    + intros [->|H]%elem_of_cons.
      * exists w, r. split; [lia|]. by rewrite Nat.sub_diag.
      * destruct (IH _ H) as (w' & r' & Hb & Hl). exists w', r'.
        split; [lia|]. replace (n - b) with (S (n - S b)) by lia. done.
    + intros H. destruct (IH _ H) as (w' & r' & Hb & Hl). exists w', r'.
      split; [lia|]. replace (n - b) with (S (n - S b)) by lia. done.
Qed.

Lemma waiting_lookup (p : pool) (n : nat) :
  n ∈ waiting p → ∃ w r, workers p !! n = Some (Awaiting w r).
Proof.
  intros H. destruct (waiting_from_lookup _ _ _ H) as (w & r & _ & Hl).
  exists w, r. by rewrite Nat.sub_0_r in Hl.
Qed.

Lemma in_flight_le_workers (p : pool) : in_flight p ≤ length (workers p).
Proof.
  unfold in_flight, flying. generalize (workers p). clear p.
  intros ws. induction ws as [|[w r|] ws IH]; csimpl in *; lia.
Qed.

Lemma flying_nil_all_returned (ws : list worker) :
  omap flight ws = [] → ws ≠ [] → Returned ∈ ws.
Proof.
  destruct ws as [|[w r|] ws]; simpl; try done.
  intros _ _. apply elem_of_cons. by left.
Qed.

Section Pool.

Variable cfg : config.
Variable update : list call → call → update_result.
Variable items : list pending.

Lemma answers_length (h : list call) (l : list pending) :
  length (answers cfg update h l) = length l.
Proof. revert h. induction l as [|w l IH]; intros h; simpl; auto. Qed.

Lemma answers_fst (h : list call) (l : list pending) :
  (answers cfg update h l).*1 = l.
Proof. revert h. induction l as [|w l IH]; intros h; simpl; f_equal; auto. Qed.

Lemma answers_lookup (h : list call) (l : list pending) (i : nat) (w : pending) :
  l !! i = Some w →
  answers cfg update h l !! i =
    Some (w, update (h ++ (call_of cfg <$> take i l)) (call_of cfg w)).
Proof.
  revert h i. induction l as [|x l IH]; intros h i; [done|].
  destruct i as [|i]; simpl.
  - intros [= ->]. by rewrite app_nil_r.
  - intros H. rewrite (IH _ _ H). by rewrite <- app_assoc.
Qed.

(** What a worker does from the head of its loop. *)
Lemma worker_loop_break (p : pool) :
  items !! idx p = None →
  worker_loop cfg update items p =
    (Returned, {| idx := S (idx p); workers := workers p;
                  waveCsvRows := waveCsvRows p; vars := vars p |}).
Proof. intros H. unfold worker_loop. by rewrite H. Qed.

Lemma worker_loop_send (p : pool) (w : pending) :
  items !! idx p = Some w →
  worker_loop cfg update items p =
    (Awaiting w (update (requests (vars p)) (call_of cfg w)),
     {| idx := S (idx p); workers := workers p; waveCsvRows := waveCsvRows p;
        vars := push_request (call_of cfg w) (add_attempted 1 (vars p)) |}).
Proof. intros H. unfold worker_loop. by rewrite H. Qed.

Lemma workerFn_settle_rows (w : pending) (r : update_result) (p : pool) :
  waveCsvRows (workerFn_settle w r p) = waveCsvRows p ++ [audit_of (w, r)].
Proof. by destruct r. Qed.

Lemma pool_inv_start (s0 : state) : pool_inv cfg update items s0 (pool_start s0).
Proof.
  split; simpl; try done.
  - by rewrite app_nil_r.
  - intros H. by apply elem_of_nil in H.
  - set_solver.
  - by rewrite app_nil_r.
Qed.

Lemma take_answers_S (h : list call) (i : nat) (w : pending) :
  items !! i = Some w →
  take (S i) (answers cfg update h items) =
    take i (answers cfg update h items) ++
      [(w, update (h ++ (call_of cfg <$> take i items)) (call_of cfg w))].
Proof. intros H. apply take_S_r. by apply answers_lookup. Qed.

Lemma take_answers_ge (h : list call) (i : nat) :
  items !! i = None →
  take (S i) (answers cfg update h items) = take i (answers cfg update h items).
Proof.
  intros H%lookup_ge_None.
  rewrite !take_ge; [done | rewrite answers_length; lia ..].
Qed.

Lemma spawn_worker_inv (s0 : state) (p : pool) :
  pool_inv cfg update items s0 p →
  pool_inv cfg update items s0 (spawn_worker cfg update items p).
Proof.
  intros [Hreq Hrows Hret Hproc Herr Hupd Hatt Hd Hsk Hf Ht Hn].
  unfold spawn_worker. destruct (items !! idx p) as [w|] eqn:E.
  - rewrite (worker_loop_send _ w E). split; simpl; try done.
    + rewrite Hreq, (take_S_r _ _ _ E), fmap_app. by rewrite <- app_assoc.
    + unfold flying. simpl. rewrite omap_app. simpl.
      rewrite (take_answers_S _ _ _ E), !fmap_app, app_assoc, Hrows.
      by rewrite Hreq.
    + intros [H|H%list_elem_of_singleton]%elem_of_app; [|done].
      specialize (Hret H). lia.
    + apply lookup_lt_Some in E. lia.
  - rewrite (worker_loop_break _ E). split; simpl; try done.
    + apply lookup_ge_None in E. rewrite Hreq. by rewrite !take_ge by lia.
    + unfold flying. simpl. rewrite omap_app. simpl. rewrite app_nil_r.
      by rewrite (take_answers_ge _ _ E).
    + intros _. apply lookup_ge_None in E. lia.
    + apply lookup_ge_None in E. lia.
Qed.

Lemma workers_split (ws : list worker) (n : nat) (k0 : worker) :
  ws !! n = Some k0 →
  ∃ l1 l2, ws = l1 ++ k0 :: l2 ∧ ∀ k, <[n:=k]> ws = l1 ++ k :: l2.
Proof.
  intros H. destruct (list_elem_of_split_length _ _ _ H) as (l1 & l2 & -> & ->).
  exists l1, l2. split; [done|]. intros k.
  rewrite insert_app_r_alt by lia. by rewrite Nat.sub_diag.
Qed.

Lemma settle_inv (s0 : state) (p p' : pool) (n : nat) :
  pool_inv cfg update items s0 p →
  settle cfg update items n p = Some p' →
  pool_inv cfg update items s0 p' ∧
  length (waveCsvRows p') = S (length (waveCsvRows p)) ∧
  length (workers p') = length (workers p).
Proof.
  intros [Hreq Hrows Hret Hproc Herr Hupd Hatt Hd Hsk Hf Ht Hn].
  unfold settle. destruct (workers p !! n) as [[w r|]|] eqn:En; try done.
  destruct (workers_split _ _ _ En) as (l1 & l2 & Hws & Hins).
  assert (flying p = omap flight l1 ++ (w, r) :: omap flight l2) as Hfly.
  { unfold flying. rewrite Hws, omap_app. done. }
  rewrite Hfly in Hrows.
  set (q := workerFn_settle w r p).
  assert (idx q = idx p) as Hqi by (by destruct r).
  assert (workers q = workers p) as Hqw by (by destruct r).
  assert (waveCsvRows q = waveCsvRows p ++ [audit_of (w, r)]) as Hqr
    by (by destruct r).
  assert (requests (vars q) = requests (vars p)) as Hqreq by (by destruct r).
  assert (processed (vars q) =
          processed s0 ∪ list_to_set (matchVal <$> waveCsvRows q)) as Hqp.
  { rewrite Hqr, fmap_app, list_to_set_app_L. destruct r; simpl;
      rewrite Hproc; set_solver. }
  assert (errors (vars q) = errors s0 ++ omap error_of (waveCsvRows q)) as Hqe.
  { rewrite Hqr, omap_app. destruct r; simpl; rewrite Herr.
    - by rewrite app_nil_r.
    - by rewrite <- app_assoc. }
  assert (totalUpdated (vars q) =
          totalUpdated s0 +
          length (filter (λ a, is_updated a = true) (waveCsvRows q))) as Hqu.
  { rewrite Hqr, filter_app, length_app. destruct r.
    - rewrite filter_cons_True by done. simpl. rewrite Hupd. lia.
    - rewrite filter_cons_False by done. simpl. rewrite Hupd. lia. }
  assert (totalAttempted (vars q) = totalAttempted (vars p)) as Hqa
    by (by destruct r).
  assert (disk (vars q) = disk (vars p) ∧
          totalSkipped (vars q) = totalSkipped (vars p) ∧
          totalFetched (vars q) = totalFetched (vars p) ∧
          pageToken (vars q) = pageToken (vars p) ∧
          fetches (vars q) = fetches (vars p)) as (Hqd & Hqs & Hqf & Hqt & Hqn)
    by (by destruct r).
  clearbody q.
  destruct (items !! idx q) as [w'|] eqn:E.
  - rewrite (worker_loop_send _ w' E). intros [= <-]. simpl.
    rewrite Hqw, Hins. split_and!;
      [|rewrite Hqr, length_app; simpl; lia
       |rewrite Hws, !length_app; simpl; lia].
    rewrite Hqi in E. split; simpl; try congruence.
    + rewrite Hqreq, Hreq, Hqi, (take_S_r _ _ _ E), fmap_app.
      by rewrite <- app_assoc.
    + unfold flying. simpl. rewrite Hqr, Hqi, omap_app. simpl.
      rewrite (take_answers_S _ _ _ E), !fmap_app, <- Hrows.
      rewrite Hqreq, Hreq. rewrite !fmap_app, !fmap_cons.
      rewrite <- !app_assoc. apply Permutation_app_head. csimpl.
      etrans; [|apply Permutation_middle].
      apply perm_skip, Permutation_app_head.
      apply Permutation_cons_append.
    + rewrite Hws in Hret.
      intros [H|[H|H]%elem_of_cons]%elem_of_app; try done.
      * assert (length items < idx p) by (apply Hret; set_solver). lia.
      * assert (length items < idx p) by (apply Hret; set_solver). lia.
    + rewrite Hqa, Hatt, Hqi. apply lookup_lt_Some in E. lia.
  - rewrite (worker_loop_break _ E). intros [= <-]. simpl.
    rewrite Hqw, Hins. split_and!;
      [|rewrite Hqr, length_app; simpl; lia
       |rewrite Hws, !length_app; simpl; lia].
    rewrite Hqi in E. split; simpl; try congruence.
    + rewrite Hqreq, Hreq, Hqi. apply lookup_ge_None in E.
      by rewrite !take_ge by lia.
    + unfold flying. simpl. rewrite Hqr, Hqi, omap_app. simpl.
      rewrite (take_answers_ge _ _ E), <- Hrows.
      rewrite !fmap_app, !fmap_cons.
      rewrite <- !app_assoc. apply Permutation_app_head. csimpl.
      apply Permutation_middle.
    + intros _. rewrite Hqi. apply lookup_ge_None in E. lia.
    + rewrite Hqa, Hatt, Hqi. apply lookup_ge_None in E. lia.
Qed.

Lemma spawn_inv (s0 : state) (c : nat) (p : pool) :
  pool_inv cfg update items s0 p →
  pool_inv cfg update items s0 (spawn cfg update items c p) ∧
  length (workers (spawn cfg update items c p)) = length (workers p) + c.
Proof.
  intros Hp. unfold spawn. induction c as [|c [IH1 IH2]]; simpl.
  - split; [done | lia].
  - split; [by apply spawn_worker_inv|].
    unfold spawn_worker at 1.
    destruct (worker_loop cfg update items _) as [k q] eqn:E. simpl.
    assert (workers q = workers (Nat.iter c (spawn_worker cfg update items) p))
      as ->.
    { revert E. unfold worker_loop. destruct (items !! _); intros [= <- <-]; done. }
    rewrite length_app, IH2. simpl. lia.
Qed.

Variable settles : pool → nat.

Lemma drive_inv (s0 : state) (steps : nat) (p : pool) :
  pool_inv cfg update items s0 p →
  pool_inv cfg update items s0 (drive cfg update settles items steps p) ∧
  length (workers (drive cfg update settles items steps p)) = length (workers p).
Proof.
  revert p. induction steps as [|steps IH]; intros p Hp; simpl; [done|].
  destruct (waiting p) as [|n0 ns]; [done|].
  destruct (settle _ _ _ _ p) as [p'|] eqn:E; [|done].
  destruct (settle_inv _ _ _ _ Hp E) as (Hp' & _ & Hlen).
  destruct (IH _ Hp') as [? ?]. split; [done | congruence].
Qed.

Lemma settled_le (s0 : state) (p : pool) :
  pool_inv cfg update items s0 p →
  length (waveCsvRows p) + in_flight p ≤ length items.
Proof.
  intros Hp. pose proof (Permutation_length (inv_rows _ _ _ _ _ Hp)) as H.
  rewrite length_app, !length_fmap, length_take, answers_length in H.
  unfold in_flight. lia.
Qed.

(** After as many steps as the wave has items no call is in flight. *)
Lemma drive_done (s0 : state) (steps : nat) (p : pool) :
  pool_inv cfg update items s0 p →
  length items ≤ length (waveCsvRows p) + steps →
  flying (drive cfg update settles items steps p) = [].
Proof.
  revert p. induction steps as [|steps IH]; intros p Hp Hlen; cbn [drive].
  - pose proof (settled_le _ _ Hp) as H. unfold in_flight in H.
    apply length_zero_iff_nil. lia.
  - destruct (waiting p) as [|n0 ns] eqn:Ew.
    { apply length_zero_iff_nil. fold (in_flight p).
      by rewrite <- waiting_length, Ew. }
    set (n := nth _ _ _).
    assert (n ∈ waiting p) as Hn.
    { rewrite Ew. apply list_elem_of_In, nth_In.
      apply Nat.mod_upper_bound. simpl. lia. }
    destruct (waiting_lookup _ _ Hn) as (w & r & Hw).
    destruct (settle _ _ _ n p) as [p'|] eqn:E.
    + destruct (settle_inv _ _ _ _ Hp E) as (Hp' & Hrows & _).
      apply IH; [done | lia].
    + exfalso. revert E. unfold settle. rewrite Hw.
      by destruct (worker_loop _ _ _ _).
Qed.

(** What [runWithConcurrency] leaves behind. *)
Lemma runWithConcurrency_inv (concurrency : Z) (s : state) :
  pool_inv cfg update items s
    (runWithConcurrency cfg update settles items concurrency s) ∧
  flying (runWithConcurrency cfg update settles items concurrency s) = [] ∧
  length (workers (runWithConcurrency cfg update settles items concurrency s)) =
    Z.to_nat concurrency.
Proof.
  unfold runWithConcurrency. fold (pool_start s).
  destruct (spawn_inv s (Z.to_nat concurrency) _ (pool_inv_start s)) as [H1 H2].
  destruct (drive_inv s (length items) _ H1) as [H3 H4].
  split_and!; [done | | by rewrite H4, H2].
  apply (drive_done s); [done | lia].
Qed.

(** *** The steps of the pool *)

Lemma pool_step_inv (s0 : state) (c : nat) (p p' : pool) :
  pool_step cfg update items c p p' →
  pool_inv cfg update items s0 p ∧ length (workers p) ≤ c →
  pool_inv cfg update items s0 p' ∧ length (workers p') ≤ c.
Proof.
  intros Hstep [Hp Hlen]. destruct Hstep as [p Hlt | p n p' Heq Hs].
  - split; [by apply spawn_worker_inv|].
    destruct (spawn_inv s0 1 p Hp) as [_ H]. simpl in H. lia.
  - destruct (settle_inv _ _ _ _ Hp Hs) as (Hp' & _ & Hl). split; [done | lia].
Qed.

Lemma reachable_inv (s0 : state) (c : nat) (p : pool) :
  rtc (pool_step cfg update items c) (pool_start s0) p →
  pool_inv cfg update items s0 p ∧ length (workers p) ≤ c.
Proof.
  revert p. apply rtc_ind_r.
  - split; [apply pool_inv_start | simpl; lia].
  - intros q q' _ Hstep IH. by eapply pool_step_inv.
Qed.

Lemma spawn_reachable (c n : nat) (p : pool) :
  length (workers p) + n ≤ c →
  rtc (pool_step cfg update items c) p (spawn cfg update items n p).
Proof.
  intros Hlen. unfold spawn. induction n as [|n IH]; simpl; [done|].
  eapply rtc_r; [apply IH; lia|]. apply step_spawn.
  clear IH. revert Hlen. generalize c. clear c.
  induction n as [|n IH]; simpl; intros c Hlen; [lia|].
  unfold spawn_worker at 1.
  destruct (worker_loop cfg update items _) as [k q] eqn:E. simpl.
  assert (workers q = workers (Nat.iter n (spawn_worker cfg update items) p))
    as ->.
  { revert E. unfold worker_loop. destruct (items !! _); intros [= <- <-]; done. }
  rewrite length_app. simpl. specialize (IH (c - 1)). lia.
Qed.

Lemma drive_reachable (c steps : nat) (p : pool) :
  length (workers p) = c →
  rtc (pool_step cfg update items c) p (drive cfg update settles items steps p).
Proof.
  revert p. induction steps as [|steps IH]; intros p Hlen; cbn [drive]; [done|].
  destruct (waiting p) as [|n0 ns]; [done|].
  destruct (settle _ _ _ _ p) as [p'|] eqn:E; [|done].
  eapply rtc_l; [by eapply step_settle|]. apply IH.
  revert E. unfold settle. destruct (workers p !! _) as [[w r|]|]; try done.
  destruct (worker_loop _ _ _ _) as [k q] eqn:Eq. intros [= <-]. simpl.
  rewrite length_insert.
  revert Eq. unfold worker_loop. destruct (items !! _); intros [= <- <-];
    simpl; by destruct r.
Qed.

Lemma spawn_idx_rows (c : nat) (p : pool) :
  idx (spawn cfg update items c p) = idx p + c ∧
  waveCsvRows (spawn cfg update items c p) = waveCsvRows p.
Proof.
  unfold spawn. induction c as [|c [IH1 IH2]]; simpl; [split; [lia | done]|].
  unfold spawn_worker at 1 3.
  destruct (worker_loop cfg update items _) as [k q] eqn:E. simpl.
  revert E. unfold worker_loop. destruct (items !! _); intros [= <- <-]; simpl;
    (split; [lia | done]).
Qed.

End Pool.

(** ** The two files *)

Lemma state_eq (s t : state) :
  processed s = processed t → pageToken s = pageToken t →
  totalFetched s = totalFetched t → totalAttempted s = totalAttempted t →
  totalUpdated s = totalUpdated t → totalSkipped s = totalSkipped t →
  errors s = errors t → disk s = disk t → requests s = requests t →
  fetches s = fetches t → s = t.
Proof. destruct s, t; simpl; intros; by subst. Qed.

Lemma writeCsvAppend_lines (d : files) (rows : list audit) :
  rows ≠ [] →
  writeCsvAppend d rows =
    {| checkpoint_file := checkpoint_file d;
       csv_file := Some (default [Header] (csv_file d) ++ (Line <$> rows)) |}.
Proof.
  intros Hr. unfold writeCsvAppend. f_equal. f_equal.
  destruct rows as [|a rows]; [done|].
  by destruct (csv_file d) as [old|].
Qed.

Lemma writeCsvAppend_twice (d : files) (r1 r2 : list audit) :
  r1 ≠ [] → r2 ≠ [] →
  writeCsvAppend (writeCsvAppend d r1) r2 = writeCsvAppend d (r1 ++ r2).
Proof.
  intros H1 H2. rewrite (writeCsvAppend_lines d r1) by done.
  rewrite (writeCsvAppend_lines d (r1 ++ r2)) by (by destruct r1).
  rewrite writeCsvAppend_lines by done. simpl.
  by rewrite fmap_app, <- !app_assoc.
Qed.

Lemma loadCheckpoint_writeCsvAppend (path : option jstr) (d : files) (rows : list audit) :
  loadCheckpoint path (writeCsvAppend d rows) = loadCheckpoint path d.
Proof. done. Qed.

(** What is saved is what is loaded. *)
Lemma loadCheckpoint_saveCheckpoint (path : option jstr) (set : gset jstr) (d : files) :
  falsy path = false →
  loadCheckpoint path (saveCheckpoint path set d) = set.
Proof.
  intros H. unfold loadCheckpoint, saveCheckpoint. rewrite H. simpl.
  rewrite <- list_fmap_compose.
  rewrite (list_fmap_ext _ id (elements set)) by done.
  rewrite list_fmap_id. apply list_to_set_elements_L.
Qed.

Lemma saveCheckpoint_no_path (path : option jstr) (set : gset jstr) (d : files) :
  falsy path = true →
  saveCheckpoint path set d = d ∧ loadCheckpoint path d = ∅.
Proof. intros H. unfold loadCheckpoint, saveCheckpoint. by rewrite H. Qed.

(** ** A wave of a dry run *)

Lemma foldl_dry_run_item (cfg : config) (wave : list pending) (s : state) :
  foldl (dry_run_item cfg) s wave =
    {| processed := processed s ∪ list_to_set (p_id <$> wave);
       pageToken := pageToken s;
       totalFetched := totalFetched s;
       totalAttempted := totalAttempted s;
       totalUpdated := totalUpdated s;
       totalSkipped := totalSkipped s;
       errors := errors s;
       disk :=
         (if negb (falsy (outputCsvPath cfg)) && negb (bool_decide (wave = []))
          then writeCsvAppend (disk s) (dry_row <$> wave) else disk s);
       requests := requests s;
       fetches := fetches s |}.
Proof.
  revert s. induction wave as [|w wave IH]; intros s.
  - simpl. rewrite andb_false_r. apply state_eq; simpl; try done. set_solver.
  - cbn [foldl]. rewrite IH. unfold dry_run_item.
    rewrite (bool_decide_eq_false_2 (w :: wave = [])) by done.
    destruct (negb (falsy (outputCsvPath cfg))); simpl;
      apply state_eq; simpl; try done; try set_solver.
    case_bool_decide as Hw; simpl.
    + by subst wave.
    + rewrite writeCsvAppend_twice; [done | done |]. by destruct wave.
Qed.

Lemma dry_run_wave_dried (cfg : config) (wave : list pending) (s : state) :
  dry_run_wave cfg wave s = dried cfg wave s.
Proof.
  unfold dry_run_wave. rewrite foldl_dry_run_item. by apply state_eq.
Qed.

(** ** An applied wave *)

Section Wave.

Variable cfg : config.
Variable update : list call → call → update_result.
Variable settles : pool → nat.

(** With a worker at least, every item of the wave is requested, and the
    audit lines are those of the answers, in the order the calls come
    back. *)
Lemma apply_wave_applied (wave : list pending) (s : state) :
  (1 ≤ updateConcurrency cfg)%Z →
  ∃ rows : list audit,
    rows ≡ₚ audit_of <$> answers cfg update (requests s) wave ∧
    apply_wave cfg update settles wave s = applied cfg wave rows s.
Proof.
  intros HC. unfold apply_wave.
  destruct (runWithConcurrency_inv cfg update wave settles
              (updateConcurrency cfg) s) as (Hinv & Hfly & Hlen).
  set (p := runWithConcurrency _ _ _ _ _ _) in *.
  destruct Hinv as [Hreq Hrows Hret Hproc Herr Hupd Hatt Hd Hsk Hf Ht Hn].
  assert (length wave < idx p) as Hidx.
  { apply Hret. apply flying_nil_all_returned; [done|].
    intros Hnil. rewrite Hnil in Hlen. simpl in Hlen. lia. }
  rewrite Hfly, app_nil_r in Hrows.
  rewrite take_ge in Hrows by (rewrite answers_length; lia).
  rewrite take_ge in Hreq by lia.
  exists (waveCsvRows p). split; [done|].
  apply state_eq; unfold applied;
    destruct (negb (falsy (outputCsvPath cfg)) &&
              negb (bool_decide (waveCsvRows p = []))); simpl;
    rewrite ?Hproc, ?Hd; try done; lia.
Qed.

(** Without a worker nothing is sent: only the checkpoint is written. *)
Lemma apply_wave_no_worker (wave : list pending) (s : state) :
  (updateConcurrency cfg ≤ 0)%Z →
  apply_wave cfg update settles wave s =
    set_disk (saveCheckpoint (checkpointPath cfg) (processed s) (disk s)) s.
Proof.
  intros HC. unfold apply_wave, runWithConcurrency.
  replace (Z.to_nat (updateConcurrency cfg)) with 0 by lia. simpl.
  assert (drive cfg update settles wave (length wave)
            {| idx := 0; workers := []; waveCsvRows := []; vars := s |} =
          {| idx := 0; workers := []; waveCsvRows := []; vars := s |}) as ->
    by (by destruct (length wave)).
  simpl. by rewrite andb_false_r.
Qed.

End Wave.

(** ** What every step of a run keeps *)

Lemma stored_save (cfg : config) (set : gset jstr) (d : files) (s : state) :
  stored cfg (set_disk (saveCheckpoint (checkpointPath cfg) set d) s) =
    if falsy (checkpointPath cfg) then ∅ else set.
Proof.
  unfold stored. simpl. destruct (falsy (checkpointPath cfg)) eqn:E.
  - unfold loadCheckpoint. by rewrite E.
  - by apply loadCheckpoint_saveCheckpoint.
Qed.

Lemma stored_no_path (cfg : config) (s : state) :
  falsy (checkpointPath cfg) = true → stored cfg s = ∅.
Proof. intros E. unfold stored, loadCheckpoint. by rewrite E. Qed.

Lemma grows_refl (cfg : config) (s : state) : grows cfg s s.
Proof. by split. Qed.

Lemma grows_trans (cfg : config) (s1 s2 s3 : state) :
  grows cfg s1 s2 → grows cfg s2 s3 → grows cfg s1 s3.
Proof.
  intros [Hp1 Hs1 Hf1 Ht1 Hn1] [Hp2 Hs2 Hf2 Ht2 Hn2]. split; try congruence.
  - set_solver.
  - intros H. destruct (Hs1 H) as [H1 H1']. destruct (Hs2 H1) as [H2 H2'].
    split; [done | set_solver].
Qed.

(** A state whose files are those of [s] and whose processed set is larger. *)
Lemma grows_same_disk (cfg : config) (s s' : state) :
  processed s ⊆ processed s' → disk s' = disk s → fetches s' = fetches s →
  pageToken s' = pageToken s → totalFetched s' = totalFetched s →
  grows cfg s s'.
Proof.
  intros Hp Hd Hf Ht Hn. split; try done.
  unfold stored. rewrite Hd. set_solver.
Qed.

(** A state that ends with the checkpoint saved. *)
Lemma grows_saved (cfg : config) (s s' : state) (d : files) :
  processed s ⊆ processed s' →
  disk s' = saveCheckpoint (checkpointPath cfg) (processed s') d →
  fetches s' = fetches s → pageToken s' = pageToken s →
  totalFetched s' = totalFetched s →
  grows cfg s s'.
Proof.
  intros Hp Hd Hf Ht Hn. split; try done. intros Hs.
  assert (stored cfg s' = if falsy (checkpointPath cfg) then ∅ else processed s')
    as Hs'.
  { rewrite <- (stored_save cfg (processed s') d s'). unfold stored. simpl.
    by rewrite Hd. }
  rewrite Hs'. destruct (falsy (checkpointPath cfg)) eqn:E.
  - rewrite (stored_no_path cfg s E). set_solver.
  - set_solver.
Qed.

Section Grows.

Variable cfg : config.
Variable update : list call → call → update_result.
Variable settles : pool → nat.

Lemma scan_row_grows (r : row) (s : state) (b : list pending) :
  grows cfg s (scan_row cfg r (s, b)).1.
Proof.
  unfold scan_row. case_bool_decide; [apply grows_refl|].
  destruct (_ && _); [by apply grows_same_disk|].
  case_bool_decide; [|apply grows_refl].
  apply grows_same_disk; simpl; try done. set_solver.
Qed.

Lemma scan_grows (rows : list row) (s : state) :
  grows cfg s (scan cfg rows s).1.
Proof.
  unfold scan. generalize (@nil pending). revert s.
  induction rows as [|r rows IH]; intros s b; simpl; [apply grows_refl|].
  pose proof (scan_row_grows r s b) as H.
  destruct (scan_row cfg r (s, b)) as [s1 b1] eqn:E.
  eapply grows_trans; [|apply IH]. done.
Qed.

Lemma dry_run_wave_grows (wave : list pending) (s : state) :
  grows cfg s (dry_run_wave cfg wave s).
Proof.
  rewrite dry_run_wave_dried. eapply grows_saved; simpl; try done. set_solver.
Qed.

Lemma apply_wave_grows (wave : list pending) (s : state) :
  grows cfg s (apply_wave cfg update settles wave s).
Proof.
  unfold apply_wave.
  destruct (runWithConcurrency_inv cfg update wave settles
              (updateConcurrency cfg) s) as (Hinv & _ & _).
  set (p := runWithConcurrency _ _ _ _ _ _) in *.
  destruct Hinv as [Hreq Hrows Hret Hproc Herr Hupd Hatt Hd Hsk Hf Ht Hn].
  destruct (negb (falsy (outputCsvPath cfg)) &&
            negb (bool_decide (waveCsvRows p = [])));
    (eapply grows_saved; simpl; [rewrite Hproc; set_solver | done ..]).
Qed.

Lemma wave_step_grows (wave : list pending) (s : state) :
  grows cfg s (wave_step cfg update settles wave s).
Proof.
  unfold wave_step. destruct (negb (apply cfg));
    [apply dry_run_wave_grows | apply apply_wave_grows].
Qed.

Lemma waves_grows (fuel : nat) (batchUpdates : list pending) (i : Z) (s s' : state) :
  waves cfg update settles fuel batchUpdates i s = Some s' → grows cfg s s'.
Proof.
  revert i s. induction fuel as [|fuel IH]; intros i s; [done|].
  cbn [waves]. case_bool_decide; [|intros [= ->]; apply grows_refl].
  intros Hw%IH. eapply grows_trans; [|done].
  case_bool_decide; [apply grows_refl|]. apply wave_step_grows.
Qed.

Lemma page_body_grows (rows : list row) (s s' : state) :
  page_body cfg update settles rows s = Some s' → grows cfg s s'.
Proof.
  unfold page_body. pose proof (scan_grows rows s) as H.
  destruct (scan cfg rows s) as [s1 b]. simpl in H.
  intros H'%waves_grows. by eapply grows_trans.
Qed.

End Grows.

(** ** The loop over the waves *)

Lemma slice_chunk {A} (l : list A) (i step : Z) :
  (0 ≤ i < Z.of_nat (length l))%Z → (0 < step)%Z →
  slice l i (i + step) = take (Z.to_nat step) (drop (Z.to_nat i) l).
Proof.
  intros Hi Hs. unfold slice.
  rewrite (proj2 (Z.ltb_ge i 0)) by lia.
  rewrite (proj2 (Z.ltb_ge (i + step) 0)) by lia.
  rewrite (Z.min_l i) by lia.
  destruct (Z.min_spec (i + step) (Z.of_nat (length l))) as [[? ->]|[? ->]].
  - f_equal. lia.
  - rewrite !take_ge; [done | rewrite length_drop; lia ..].
Qed.

Section Waves.

Variable cfg : config.
Variable update : list call → call → update_result.
Variable settles : pool → nat.

Lemma waves_rule_from (P : list pending → state → Prop) (batchUpdates : list pending)
    (fuel : nat) (i : Z) (s : state) :
  (0 < updateBatchSize cfg)%Z →
  (∀ done wave t, wave ≠ [] → P done t →
     P (done ++ wave) (wave_step cfg update settles wave t)) →
  (0 ≤ i)%Z →
  length (drop (Z.to_nat i) batchUpdates) < fuel →
  P (take (Z.to_nat i) batchUpdates) s →
  ∃ s', waves cfg update settles fuel batchUpdates i s = Some s' ∧
        P batchUpdates s'.
Proof.
  intros Hbs Hstep. revert i s.
  induction fuel as [|fuel IH]; intros i s Hi Hfuel HP; [lia|].
  cbn [waves]. case_bool_decide as Hlt.
  - rewrite slice_chunk by lia.
    set (wave := take _ (drop _ _)).
    assert (wave ≠ []) as Hne.
    { intros Hnil. apply (f_equal length) in Hnil. revert Hnil.
      unfold wave. rewrite length_take, length_drop. simpl. lia. }
    rewrite (bool_decide_eq_false_2 _ Hne). fold (wave_step cfg update settles wave s).
    apply IH; [lia | |].
    + rewrite length_drop in *. lia.
    + replace (Z.to_nat (i + updateBatchSize cfg))
        with (Z.to_nat i + Z.to_nat (updateBatchSize cfg)) by lia.
      rewrite <- take_take_drop. by apply Hstep.
  - exists s. split; [done|]. by rewrite take_ge in HP by lia.
Qed.

(** With a positive [updateBatchSize] the loop over the waves ends, and
    what holds before it and is kept by every wave holds after it. *)
Lemma waves_rule (P : list pending → state → Prop) (batchUpdates : list pending)
    (s : state) :
  (0 < updateBatchSize cfg)%Z →
  P [] s →
  (∀ done wave t, wave ≠ [] → P done t →
     P (done ++ wave) (wave_step cfg update settles wave t)) →
  ∃ s', waves cfg update settles (S (length batchUpdates)) batchUpdates 0 s = Some s' ∧
        P batchUpdates s'.
Proof.
  intros Hbs H0 Hstep. apply waves_rule_from; try done.
  rewrite length_drop. lia.
Qed.

(** More fuel changes nothing. *)
Lemma waves_fuel_mono (batchUpdates : list pending) (fuel fuel' : nat) (i : Z)
    (s s' : state) :
  waves cfg update settles fuel batchUpdates i s = Some s' → fuel ≤ fuel' →
  waves cfg update settles fuel' batchUpdates i s = Some s'.
Proof.
  revert fuel' i s. induction fuel as [|fuel IH]; intros fuel' i s; [done|].
  destruct fuel' as [|fuel']; [lia|]. cbn [waves].
  case_bool_decide; [|done]. intros Hw ?. apply IH; [done | lia].
Qed.

(** With a step that is not positive the loop over the waves of a page that
    has updates never ends. *)
Lemma waves_diverges (batchUpdates : list pending) (fuel : nat) (i : Z) (s : state) :
  (updateBatchSize cfg ≤ 0)%Z → batchUpdates ≠ [] → (i ≤ 0)%Z →
  waves cfg update settles fuel batchUpdates i s = None.
Proof.
  intros Hbs Hne. revert i s. induction fuel as [|fuel IH]; intros i s Hi; [done|].
  cbn [waves]. rewrite bool_decide_eq_true_2.
  - apply IH. lia.
  - destruct batchUpdates; [done|]. simpl. lia.
Qed.

End Waves.

(** ** The page loop *)

Section Pages.

Variable cfg : config.
Variable update : list call → call → update_result.
Variable settles : pool → nat.

(** The page loop is the pages of [paging], each put through [page_step]. *)
Lemma pages_paging (j : job) (fuel : nat) (s : state) :
  pages cfg update settles j fuel s =
    match paging j (pageSize cfg) fuel (fetches s) (pageToken s) with
    | None => None
    | Some (pgs, e) =>
        match page_steps cfg update settles pgs s with
        | None => None
        | Some s' =>
            Some (match e with
                  | None => Returns s'
                  | Some e => ThrowsInLoop e s'
                  end)
        end
    end.
Proof.
  revert s. induction fuel as [|fuel IH]; intros s; [done|].
  cbn [pages paging].
  destruct (fetchBigQueryPage j (fetches s) (pageToken s) (pageSize cfg))
    as [e|[rows next]]; [done|].
  case_bool_decide as Hlen.
  { cbn [page_steps]. unfold page_step. simpl.
    by rewrite bool_decide_eq_true_2. }
  destruct (page_body cfg update settles rows (fetched_page (length rows) next s))
    as [s2|] eqn:Hbody.
  - pose proof (page_body_grows _ _ _ _ _ _ Hbody) as [_ _ Hf Ht _].
    simpl in Hf, Ht. rewrite Ht.
    destruct (falsy next) eqn:Hnext.
    + cbn [page_steps]. unfold page_step. simpl.
      by rewrite bool_decide_eq_false_2, Hbody.
    + rewrite IH, Hf, Ht.
      destruct (paging j (pageSize cfg) fuel (S (fetches s)) next)
        as [[pgs e]|]; [|done].
      cbn [page_steps]. unfold page_step. simpl.
      by rewrite bool_decide_eq_false_2, Hbody.
  - destruct (falsy next) eqn:Hnext.
    + cbn [page_steps]. unfold page_step. simpl.
      by rewrite bool_decide_eq_false_2, Hbody.
    + destruct (paging j (pageSize cfg) fuel (S (fetches s)) next)
        as [[pgs e]|]; [|done].
      cbn [page_steps]. unfold page_step. simpl.
      by rewrite bool_decide_eq_false_2, Hbody.
Qed.

(** More fuel changes nothing for the pages either. *)
Lemma paging_fuel_mono (j : job) (size : Z) (fuel fuel' n : nat) (tok : option jstr)
    (r : list (list row * option jstr) * option js_error) :
  paging j size fuel n tok = Some r → fuel ≤ fuel' →
  paging j size fuel' n tok = Some r.
Proof.
  revert fuel' n tok r. induction fuel as [|fuel IH]; intros fuel' n tok r; [done|].
  destruct fuel' as [|fuel']; [lia|]. cbn [paging].
  destruct (fetchBigQueryPage j n tok size) as [e|[rows next]]; [done|].
  case_bool_decide; [done|]. destruct (falsy next); [done|].
  destruct (paging j size fuel (S n) next) as [r'|] eqn:E; [|done].
  intros Hr ?. by rewrite (IH fuel' _ _ r' E) by lia.
Qed.

(** With a positive [updateBatchSize] a page is always gone through. *)
Lemma page_body_total (rows : list row) (s : state) :
  (0 < updateBatchSize cfg)%Z →
  ∃ s', page_body cfg update settles rows s = Some s'.
Proof.
  intros Hbs. unfold page_body. destruct (scan cfg rows s) as [s1 b].
  destruct (waves_rule cfg update settles (λ _ _, True) b s1) as (s' & H & _);
    eauto.
Qed.

Lemma page_steps_total (pgs : list (list row * option jstr)) (s : state) :
  (0 < updateBatchSize cfg)%Z →
  ∃ s', page_steps cfg update settles pgs s = Some s'.
Proof.
  intros Hbs. revert s. induction pgs as [|pg pgs IH]; intros s; simpl; [eauto|].
  unfold page_step. case_bool_decide; [apply IH|].
  destruct (page_body_total pg.1 (fetched_page (length pg.1) pg.2 s) Hbs)
    as [s' ->]. apply IH.
Qed.

Lemma page_steps_app (pgs1 pgs2 : list (list row * option jstr)) (s : state) :
  page_steps cfg update settles (pgs1 ++ pgs2) s =
    match page_steps cfg update settles pgs1 s with
    | Some a => page_steps cfg update settles pgs2 a
    | None => None
    end.
Proof.
  revert s. induction pgs1 as [|pg pgs1 IH]; intros s; [done|].
  rewrite <- app_comm_cons. cbn [page_steps].
  by destruct (page_step cfg update settles pg s).
Qed.

(** With an [updateBatchSize] that is not positive a page that has an
    update to dispatch is never gone through. *)
Lemma page_body_diverges (rows : list row) (s : state) :
  (updateBatchSize cfg ≤ 0)%Z → (scan cfg rows s).2 ≠ [] →
  page_body cfg update settles rows s = None.
Proof.
  intros Hbs Hb. unfold page_body. destruct (scan cfg rows s) as [s1 b].
  by apply waves_diverges.
Qed.

(** The first page of a run with an update to dispatch, when
    [updateBatchSize] is not positive: the run does not get over it. *)
Lemma pages_diverges (j : job) (fuel0 : nat) (s a : state)
    (pre post : list (list row * option jstr)) (rows : list row)
    (tok : option jstr) (e : option js_error) :
  (updateBatchSize cfg ≤ 0)%Z →
  paging j (pageSize cfg) fuel0 (fetches s) (pageToken s) =
    Some (pre ++ (rows, tok) :: post, e) →
  page_steps cfg update settles pre s = Some a →
  (scan cfg rows (fetched_page (length rows) tok a)).2 ≠ [] →
  ∀ fuel : nat, pages cfg update settles j fuel s = None.
Proof.
  intros Hbs Hpg Hpre Hb fuel. rewrite pages_paging.
  destruct (paging j (pageSize cfg) fuel (fetches s) (pageToken s))
    as [[pgs e']|] eqn:E; [|done].
  assert (pgs = pre ++ (rows, tok) :: post) as ->.
  { assert (fuel ≤ fuel `max` fuel0) as H1 by lia.
    assert (fuel0 ≤ fuel `max` fuel0) as H2 by lia.
    pose proof (paging_fuel_mono _ _ _ _ _ _ _ E H1) as H3.
    pose proof (paging_fuel_mono _ _ _ _ _ _ _ Hpg H2) as H4.
    congruence. }
  rewrite page_steps_app, Hpre. cbn [page_steps]. unfold page_step. simpl.
  case_bool_decide as Hlen.
  { apply length_zero_iff_nil in Hlen. subst rows. by destruct Hb. }
  by rewrite page_body_diverges.
Qed.

Lemma page_step_fetched (pg : list row * option jstr) (s s' : state) :
  page_step cfg update settles pg s = Some s' →
  totalFetched s' = totalFetched s + length pg.1 ∧ fetches s' = S (fetches s) ∧
  pageToken s' = pg.2.
Proof.
  unfold page_step. case_bool_decide; [by intros [= <-]|].
  intros [_ _ Hf Ht Hn]%page_body_grows. by rewrite Hf, Ht, Hn.
Qed.

Lemma page_steps_fetched (pgs : list (list row * option jstr)) (s s' : state) :
  page_steps cfg update settles pgs s = Some s' →
  totalFetched s' = totalFetched s + sum_list (length ∘ fst <$> pgs) ∧
  fetches s' = fetches s + length pgs.
Proof.
  revert s. induction pgs as [|pg pgs IH]; intros s; cbn [page_steps].
  - intros [= <-]. simpl. lia.
  - destruct (page_step cfg update settles pg s) as [s1|] eqn:E; [|done].
    intros [H1 H2]%IH. destruct (page_step_fetched _ _ _ E) as (? & ? & _).
    rewrite fmap_cons. simpl in *. lia.
Qed.

(** *** Properties every step keeps *)

Section Kept.

Variable I : state → Prop.
Hypothesis HI : kept cfg update settles I.

Lemma scan_kept (rows : list row) (s : state) : I s → I (scan cfg rows s).1.
Proof using HI.
  destruct HI as (Hrow & _ & _). unfold scan. generalize (@nil pending).
  revert s. induction rows as [|r rows IH]; intros s b Hs; simpl; [done|].
  specialize (Hrow r s b Hs).
  destruct (scan_row cfg r (s, b)) as [s1 b1]. by apply IH.
Qed.

Lemma waves_kept (fuel : nat) (batchUpdates : list pending) (i : Z) (s s' : state) :
  waves cfg update settles fuel batchUpdates i s = Some s' → I s → I s'.
Proof using HI.
  destruct HI as (_ & Hwave & _).
  revert i s. induction fuel as [|fuel IH]; intros i s; [done|].
  cbn [waves]. case_bool_decide; [|by intros [= ->]].
  intros Hw Hs. apply (IH _ _ Hw). case_bool_decide; [done|].
  by apply Hwave.
Qed.

Lemma page_body_kept (rows : list row) (s s' : state) :
  page_body cfg update settles rows s = Some s' → I s → I s'.
Proof using HI.
  unfold page_body. intros H Hs. pose proof (scan_kept rows s Hs) as H1.
  destruct (scan cfg rows s) as [s1 b]. by eapply waves_kept.
Qed.

Lemma page_steps_kept (pgs : list (list row * option jstr)) (s s' : state) :
  page_steps cfg update settles pgs s = Some s' → I s → I s'.
Proof using HI.
  revert s. induction pgs as [|pg pgs IH]; intros s; cbn [page_steps].
  - by intros [= ->].
  - destruct (page_step cfg update settles pg s) as [s1|] eqn:E; [|done].
    intros H Hs. apply (IH _ H). revert E. unfold page_step.
    destruct HI as (_ & _ & Hpage).
    case_bool_decide; [intros [= <-]; by apply Hpage|].
    intros E. eapply page_body_kept; [done|]. by apply Hpage.
Qed.

Lemma pages_kept (j : job) (fuel : nat) (s : state) (o : outcome) :
  pages cfg update settles j fuel s = Some o → I s →
  match o with
  | Throws _ => True
  | ThrowsInLoop _ s' | Returns s' => I s'
  end.
Proof using HI.
  rewrite pages_paging.
  destruct (paging _ _ _ _ _) as [[pgs e]|]; [|done].
  destruct (page_steps cfg update settles pgs s) as [s'|] eqn:E; [|done].
  intros [= <-] Hs. pose proof (page_steps_kept _ _ _ E Hs). by destruct e.
Qed.

End Kept.

Variable readFileSync : jstr → read_result.
Variable createQueryJob : jstr → job_result.

(** A run that gets to its page loop. *)
Lemma sync_pages (text : jstr) (j : job) (fuel : nat) (d : files) :
  validate cfg = None →
  query cfg readFileSync = Contents text →
  createQueryJob text = Job j →
  syncHubSpotPropertiesFromBigQuery cfg update settles readFileSync createQueryJob
    fuel d = pages cfg update settles j fuel (initial cfg d).
Proof.
  intros Hv Hsql Hjob. unfold syncHubSpotPropertiesFromBigQuery.
  by rewrite Hv, Hsql, Hjob.
Qed.

End Pages.

(** ** One rejected call in a wave *)

Lemma all_resolved (l : list (pending * update_result)) :
  (∀ w r, (w, r) ∈ l → r = Resolved) →
  omap error_of (audit_of <$> l) = [] ∧
  length (filter (λ a, is_updated a = true) (audit_of <$> l)) = length l.
Proof.
  induction l as [|[w r] l IH]; intros H; [done|].
  assert (r = Resolved) as -> by (apply (H w); left).
  destruct IH as [IH1 IH2]; [intros w' r' ?; apply (H w'); by right|].
  rewrite fmap_cons, filter_cons_True by done. csimpl. by rewrite IH1, IH2.
Qed.

Lemma one_rejected (l : list (pending * update_result)) (k : nat) (wk : pending)
    (e : js_error) :
  l !! k = Some (wk, Rejected e) →
  (∀ j w r, j ≠ k → l !! j = Some (w, r) → r = Resolved) →
  omap error_of (audit_of <$> l) =
    [{| e_matchVal := p_id wk; e_error := errText e;
        e_properties := p_properties wk |}] ∧
  length (filter (λ a, is_updated a = true) (audit_of <$> l)) = length l - 1.
Proof.
  intros Hk Hothers.
  destruct (list_elem_of_split_length _ _ _ Hk) as (l1 & l2 & -> & ->).
  destruct (all_resolved l1) as [H1 H1'].
  { intros w r [j Hj]%list_elem_of_lookup. apply (Hothers j w).
    - apply lookup_lt_Some in Hj. lia.
    - by rewrite lookup_app_l by (by eapply lookup_lt_Some). }
  destruct (all_resolved l2) as [H2 H2'].
  { intros w r [j Hj]%list_elem_of_lookup.
    apply (Hothers (length l1 + S j) w); [lia|].
    rewrite lookup_app_r by lia.
    by replace (length l1 + S j - length l1) with (S j) by lia. }
  rewrite fmap_app, fmap_cons, omap_app, filter_app, !length_app.
  rewrite filter_cons_False by done. csimpl.
  rewrite H1, H2, H1', H2'. split; [done | lia].
Qed.

(** C2, as the code has it.  In a wave that is applied with a worker at
    least, let the call of item [k] be rejected and every other call be
    resolved.  Then the wave ends: every item was attempted, all but one
    are counted as updated and have their UPDATED line, item [k] has its
    ERROR line with the text of the error and is the one entry added to
    [errors], and its identifier, like the others, is in the processed set.
    And the run goes on to its summary when [updateBatchSize] is positive
    and no page fetch throws: the page loop then returns from any state. *)
Theorem failure_isolation (cfg : config) (update : list call → call → update_result)
    (settles : pool → nat) (wave : list pending) (k : nat) (wk : pending)
    (e : js_error) (s : state) :
  (1 ≤ updateConcurrency cfg)%Z →
  answers cfg update (requests s) wave !! k = Some (wk, Rejected e) →
  (∀ j w r, j ≠ k →
     answers cfg update (requests s) wave !! j = Some (w, r) → r = Resolved) →
  (∃ rows : list audit,
     apply_wave cfg update settles wave s = applied cfg wave rows s ∧
     rows ≡ₚ audit_of <$> answers cfg update (requests s) wave ∧
     {| matchVal := p_id wk; a_status := ERROR;
        properties_json := p_properties wk; a_error := errText e |} ∈ rows ∧
     (∀ j w, j ≠ k → wave !! j = Some w →
        {| matchVal := p_id w; a_status := UPDATED;
           properties_json := p_properties w; a_error := [] |} ∈ rows)) ∧
  totalAttempted (apply_wave cfg update settles wave s) =
    totalAttempted s + length wave ∧
  totalUpdated (apply_wave cfg update settles wave s) =
    totalUpdated s + (length wave - 1) ∧
  errors (apply_wave cfg update settles wave s) =
    errors s ++ [{| e_matchVal := p_id wk; e_error := errText e;
                    e_properties := p_properties wk |}] ∧
  p_id wk ∈ processed (apply_wave cfg update settles wave s) ∧
  (∀ w, w ∈ wave → p_id w ∈ processed (apply_wave cfg update settles wave s)) ∧
  (∀ (j : job) (fuel : nat) (s0 : state) (pgs : list (list row * option jstr)),
     (0 < updateBatchSize cfg)%Z →
     paging j (pageSize cfg) fuel (fetches s0) (pageToken s0) = Some (pgs, None) →
     ∃ s1, pages cfg update settles j fuel s0 = Some (Returns s1)).
Proof.
  intros HC Hk Hothers.
  destruct (apply_wave_applied cfg update settles wave s HC) as (rows & Hperm & ->).
  destruct (one_rejected _ _ _ _ Hk Hothers) as [Herr Hupd].
  rewrite answers_length in Hupd.
  assert (∀ j w r, answers cfg update (requests s) wave !! j = Some (w, r) →
                   audit_of (w, r) ∈ rows) as Hin.
  { intros j w r Hj. rewrite Hperm. apply list_elem_of_fmap. exists (w, r).
    split; [done|]. by eapply list_elem_of_lookup_2. }
  assert (∀ w, w ∈ wave → p_id w ∈ processed (applied cfg wave rows s)) as Hproc.
  { intros w [j Hj]%list_elem_of_lookup. simpl.
    pose proof (answers_lookup cfg update (requests s) wave j w Hj) as Ha.
    apply Hin in Ha. apply elem_of_union_r, elem_of_list_to_set.
    apply list_elem_of_fmap. eexists. split; [|exact Ha].
    unfold audit_of. simpl. by destruct (update _ _). }
  split_and!.
  - exists rows. split_and!; try done.
    + apply (Hin k wk (Rejected e) Hk).
    + intros j w Hjk Hj.
      pose proof (answers_lookup cfg update (requests s) wave j w Hj) as Ha.
      rewrite (Hothers j w _ Hjk Ha) in Ha. apply (Hin j w Resolved Ha).
  - done.
  - simpl. by rewrite (Permutation_length (filter_Permutation _ _ _ Hperm)), Hupd.
  - simpl. f_equal. apply Permutation_singleton_r.
    by rewrite <- Herr, Hperm.
  - apply Hproc. apply list_elem_of_lookup. exists k.
    pose proof (f_equal (fmap fst) Hk) as Hk'. simpl in Hk'.
    rewrite <- list_lookup_fmap in Hk'. by rewrite answers_fst in Hk'.
  - done.
  - intros j fuel s0 pgs Hbs Hpg. rewrite pages_paging, Hpg.
    destruct (page_steps_total cfg update settles pgs s0 Hbs) as [s1 ->]. eauto.
Qed.

(** ** A run, one event at a time *)

Section Moments.

Variable cfg : config.
Variable update : list call → call → update_result.

Lemma moves_once (ev : event) (s s' : state) :
  moment cfg update ev s s' → rtc (moves cfg update) s s'.
Proof. intros H. apply rtc_once. by exists ev. Qed.

Lemma dry_run_items_moves (wave : list pending) (s : state) :
  rtc (moves cfg update) s (foldl (dry_run_item cfg) s wave).
Proof.
  revert s. induction wave as [|w wave IH]; intros s; simpl; [done|].
  etrans; [|apply IH]. apply (moves_once (Recorded w)). constructor.
Qed.

Lemma dry_run_wave_moves (wave : list pending) (s : state) :
  rtc (moves cfg update) s (dry_run_wave cfg wave s).
Proof.
  unfold dry_run_wave.
  etrans; [apply (moves_once (Counted (length wave))); constructor|].
  etrans; [apply dry_run_items_moves|].
  apply (moves_once Saved). constructor.
Qed.

Lemma worker_loop_moves (items : list pending) (p : pool) :
  rtc (moves cfg update) (vars p) (vars (worker_loop cfg update items p).2).
Proof.
  unfold worker_loop. destruct (items !! idx p) as [w|]; simpl; [|done].
  apply (moves_once (Sent w)). constructor.
Qed.

Lemma pool_step_moves (items : list pending) (c : nat) (p p' : pool) :
  pool_step cfg update items c p p' → rtc (moves cfg update) (vars p) (vars p').
Proof.
  intros [q _|q n q' _ Hs].
  - unfold spawn_worker. pose proof (worker_loop_moves items q) as H.
    by destruct (worker_loop cfg update items q).
  - revert Hs. unfold settle.
    destruct (workers q !! n) as [[w r|]|]; try done.
    pose proof (worker_loop_moves items (workerFn_settle w r q)) as H.
    destruct (worker_loop cfg update items _) as [k q1]. intros [= <-]. simpl.
    etrans; [|exact H]. apply (moves_once (Settled w r)). constructor.
Qed.

Lemma pool_steps_moves (items : list pending) (c : nat) (p p' : pool) :
  rtc (pool_step cfg update items c) p p' →
  rtc (moves cfg update) (vars p) (vars p').
Proof.
  induction 1 as [|p q p' Hstep _ IH]; [done|].
  etrans; [|exact IH]. by eapply pool_step_moves.
Qed.

Lemma moment_added (ev : event) (s s' : state) :
  moment cfg update ev s s' → processed s' = processed s ∪ added cfg ev s.
Proof.
  destruct 1 as [r s b|n s|w s|w s|w r p|rows s|s|n tok s]; simpl;
    try set_solver.
  - unfold scan_row, discarded. fold (mapped cfg r).
    case_bool_decide; simpl; [set_solver|].
    destruct (_ && _); simpl; [set_solver|].
    case_bool_decide; simpl; set_solver.
  - unfold dry_run_item. destruct (negb _); simpl; set_solver.
  - destruct r; simpl; set_solver.
Qed.

Lemma moment_stored (ev : event) (s s' : state) :
  moment cfg update ev s s' →
  stored cfg s ⊆ processed s → stored cfg s' ⊆ processed s'.
Proof.
  intros Hm Hs. pose proof (moment_added _ _ _ Hm) as Hp.
  destruct Hm as [r s b|n s|w s|w s|w r p|rows s|s|n tok s].
  - pose proof (scan_row_grows cfg r s b) as [_ H _ _ _]. by apply H.
  - unfold stored in *. simpl in *. set_solver.
  - unfold stored, dry_run_item in *.
    destruct (negb _); simpl in *; set_solver.
  - unfold stored in *. simpl in *. set_solver.
  - unfold stored in *. rewrite Hp.
    assert (disk (vars (workerFn_settle w r p)) = disk (vars p)) as ->
      by (by destruct r).
    set_solver.
  - unfold stored in *. simpl in *. set_solver.
  - rewrite stored_save. destruct (falsy _); set_solver.
  - unfold stored in *. simpl in *. set_solver.
Qed.

Variable settles : pool → nat.

Lemma runWithConcurrency_steps (items : list pending) (concurrency : Z) (s : state) :
  rtc (pool_step cfg update items (Z.to_nat concurrency)) (pool_start s)
    (runWithConcurrency cfg update settles items concurrency s).
Proof.
  unfold runWithConcurrency. fold (pool_start s). etrans.
  - apply (spawn_reachable cfg update items (Z.to_nat concurrency)
             (Z.to_nat concurrency)).
    unfold pool_start. cbn [workers length]. lia.
  - apply drive_reachable.
    destruct (spawn_inv cfg update items s (Z.to_nat concurrency) _
                (pool_inv_start cfg update items s)) as [_ H].
    by rewrite H.
Qed.

Lemma apply_wave_moves (wave : list pending) (s : state) :
  rtc (moves cfg update) s (apply_wave cfg update settles wave s).
Proof.
  unfold apply_wave.
  pose proof (pool_steps_moves _ _ _ _
                (runWithConcurrency_steps wave (updateConcurrency cfg) s)) as H.
  simpl in H. etrans; [exact H|].
  set (p := runWithConcurrency _ _ _ _ _ _).
  destruct (_ && _).
  - etrans; [apply (moves_once (Flushed (waveCsvRows p))); constructor|].
    apply (moves_once Saved). constructor.
  - apply (moves_once Saved). constructor.
Qed.

(** The states a run can be in from [s0] on are kept by every step. *)
Lemma moves_kept (s0 : state) :
  kept cfg update settles (λ s, rtc (moves cfg update) s0 s).
Proof.
  split_and!.
  - intros r s b Hs. etrans; [exact Hs|].
    apply (moves_once (Scanned r)). constructor.
  - intros wave s Hs. etrans; [exact Hs|]. unfold wave_step.
    destruct (negb (apply cfg)); [apply dry_run_wave_moves | apply apply_wave_moves].
  - intros n tok s Hs. etrans; [exact Hs|].
    apply (moves_once (Received n tok)). constructor.
Qed.

End Moments.

(** ** A page whose updates are all dispatched *)

Lemma audit_of_matchVal (l : list (pending * update_result)) :
  matchVal <$> (audit_of <$> l) = p_id <$> l.*1.
Proof.
  induction l as [|[w r] l IH]; [done|]. rewrite !fmap_cons, IH. f_equal.
  unfold audit_of. simpl. by destruct r.
Qed.

Section Dispatch.

Variable cfg : config.
Variable update : list call → call → update_result.
Variable settles : pool → nat.

Hypothesis Hbs : (0 < updateBatchSize cfg)%Z.
Hypothesis Hworkers : apply cfg = false ∨ (1 ≤ updateConcurrency cfg)%Z.

(** The state after a wave, when items are dispatched. *)
Lemma wave_step_dispatch (wave : list pending) (s : state) :
  wave ≠ [] →
  processed (wave_step cfg update settles wave s) =
    processed s ∪ list_to_set (p_id <$> wave) ∧
  requests (wave_step cfg update settles wave s) =
    requests s ++ (if apply cfg then call_of cfg <$> wave else []) ∧
  totalSkipped (wave_step cfg update settles wave s) = totalSkipped s ∧
  totalAttempted (wave_step cfg update settles wave s) =
    totalAttempted s + length wave ∧
  stored cfg (wave_step cfg update settles wave s) =
    if falsy (checkpointPath cfg) then ∅
    else processed s ∪ list_to_set (p_id <$> wave).
Proof using Hworkers.
  intros Hne. unfold wave_step. destruct (apply cfg) eqn:Happly; cbn [negb].
  - destruct Hworkers as [?|HC]; [done|].
    destruct (apply_wave_applied cfg update settles wave s HC)
      as (rows & Hperm & ->).
    assert (list_to_set (matchVal <$> rows) =@{gset jstr}
            list_to_set (p_id <$> wave)) as Hids.
    { rewrite Hperm, audit_of_matchVal. by rewrite answers_fst. }
    unfold applied, stored.
    cbn [processed requests totalSkipped totalAttempted disk]. rewrite Hids.
    split_and!; try done. apply (stored_save cfg _ _ s).
  - rewrite dry_run_wave_dried. unfold dried, stored.
    cbn [processed requests totalSkipped totalAttempted disk].
    split_and!; try done; [by rewrite app_nil_r|].
    apply (stored_save cfg _ _ s).
Qed.

(** The page after its scan: every update built is dispatched. *)
Lemma waves_dispatch (batchUpdates : list pending) (s : state) :
  ∃ s', waves cfg update settles (S (length batchUpdates)) batchUpdates 0 s = Some s' ∧
    processed s' = processed s ∪ list_to_set (p_id <$> batchUpdates) ∧
    requests s' =
      requests s ++ (if apply cfg then call_of cfg <$> batchUpdates else []) ∧
    totalSkipped s' = totalSkipped s ∧
    totalAttempted s' = totalAttempted s + length batchUpdates ∧
    (batchUpdates = [] → s' = s) ∧
    (batchUpdates ≠ [] →
     stored cfg s' = if falsy (checkpointPath cfg) then ∅ else processed s').
Proof using Hbs Hworkers.
  apply (waves_rule cfg update settles
           (λ done t,
              processed t = processed s ∪ list_to_set (p_id <$> done) ∧
              requests t =
                requests s ++ (if apply cfg then call_of cfg <$> done else []) ∧
              totalSkipped t = totalSkipped s ∧
              totalAttempted t = totalAttempted s + length done ∧
              (done = [] → t = s) ∧
              (done ≠ [] →
               stored cfg t = if falsy (checkpointPath cfg) then ∅ else processed t)));
    [done | |].
  - split_and!; try done; try set_solver; try (simpl; lia).
    destruct (apply cfg); simpl; by rewrite app_nil_r.
  - intros done wave t Hne (Hp & Hr & Hsk & Hat & _ & _).
    destruct (wave_step_dispatch wave t Hne) as (Hp' & Hr' & Hsk' & Hat' & Hst').
    split_and!.
    + rewrite Hp', Hp, fmap_app, list_to_set_app_L. set_solver.
    + rewrite Hr', Hr. destruct (apply cfg).
      * by rewrite fmap_app, app_assoc.
      * by rewrite !app_nil_r.
    + congruence.
    + rewrite Hat', Hat, length_app. lia.
    + intros Hnil. by destruct done, wave.
    + intros _. by rewrite Hst', Hp'.
Qed.

End Dispatch.

(** ** Two rows of a page with one identifier *)

Lemma filter_call_of (cfg : config) (i : jstr) (l : list pending) :
  filter (λ c, c_id c = i) (call_of cfg <$> l) =
    call_of cfg <$> filter (λ w, p_id w = i) l.
Proof.
  induction l as [|w l IH]; [done|]. rewrite fmap_cons.
  destruct (decide (p_id w = i)) as [Hw|Hw].
  - rewrite !filter_cons_True by done. by rewrite fmap_cons, IH.
  - by rewrite !filter_cons_False by done.
Qed.

Lemma scan_requests (cfg : config) (rows : list row) (s : state) :
  requests (scan cfg rows s).1 = requests s ∧
  disk (scan cfg rows s).1 = disk s ∧
  totalAttempted (scan cfg rows s).1 = totalAttempted s ∧
  totalUpdated (scan cfg rows s).1 = totalUpdated s ∧
  errors (scan cfg rows s).1 = errors s.
Proof.
  unfold scan. generalize (@nil pending). revert s.
  induction rows as [|r rows IH]; intros s b; [done|]. cbn [foldl].
  assert (∃ t b', scan_row cfg r (s, b) = (t, b') ∧ requests t = requests s ∧
            disk t = disk s ∧ totalAttempted t = totalAttempted s ∧
            totalUpdated t = totalUpdated s ∧ errors t = errors s)
    as (t & b' & -> & Hr & Hd & Ha & Hu & He).
  { unfold scan_row. case_bool_decide; [by eauto 10|].
    destruct (_ && _); [by eauto 10|]. case_bool_decide; by eauto 10. }
  rewrite <- Hr, <- Hd, <- Ha, <- Hu, <- He. apply IH.
Qed.

Lemma scan_fresh_id (cfg : config) (rows : list row) (s : state)
    (b : list pending) (i : jstr) :
  i ≠ [] → i ∉ processed s →
  (∀ r, r ∈ rows → row_id (the (matching_id cfg)) r = i → mapped cfg r ≠ ∅) →
  filter (λ w, p_id w = i) (foldl (λ acc r, scan_row cfg r acc) (s, b) rows).2 =
    filter (λ w, p_id w = i) b ++
    (update_of cfg <$> filter (λ r, row_id (the (matching_id cfg)) r = i) rows) ∧
  i ∉ processed (foldl (λ acc r, scan_row cfg r acc) (s, b) rows).1.
Proof.
  intros Hi. revert s b. induction rows as [|r rows IH]; intros s b Hs Hrows.
  { simpl. by rewrite app_nil_r. }
  cbn [foldl].
  assert (∀ r', r' ∈ rows → row_id (the (matching_id cfg)) r' = i →
                mapped cfg r' ≠ ∅) as Hrows' by (intros; apply Hrows; set_solver).
  destruct (decide (row_id (the (matching_id cfg)) r = i)) as [Hr|Hr].
  - rewrite filter_cons_True by done.
    rewrite scan_row_enqueue.
    + destruct (IH s (b ++ [update_of cfg r]) Hs Hrows') as [IH1 IH2].
      split; [|done]. rewrite IH1, filter_app, filter_cons_True by done.
      by rewrite fmap_cons, <- app_assoc.
    + congruence.
    + intros [_ H]. congruence.
    + apply Hrows; [set_solver | done].
  - rewrite filter_cons_False by done.
    destruct (decide (row_id (the (matching_id cfg)) r = [])) as [Hnil|Hnil].
    { rewrite scan_row_no_id by done. by apply IH. }
    destruct (already_processed_dec cfg r s) as [Hp|Hp].
    { rewrite scan_row_skip by done. by apply IH. }
    destruct (decide (mapped cfg r = ∅)) as [Hm|Hm].
    + rewrite scan_row_discard by done. apply IH; [|done]. simpl. set_solver.
    + rewrite scan_row_enqueue by done.
      destruct (IH s (b ++ [update_of cfg r]) Hs Hrows') as [IH1 IH2].
      split; [|done]. rewrite IH1, filter_app, filter_cons_False by done.
      by rewrite filter_nil, app_nil_r.
Qed.

(** C9, as the code has it.  Let two rows of a page carry the same
    identifier, not processed when the scan of the page starts, and let
    every row of the page with this identifier keep some property.  Then
    the scan does not mark the identifier and builds one update for each of
    these rows, the two rows among them; and in apply mode, with a worker
    at least and a positive [updateBatchSize], the page sends one request
    for each of them, so two at least for the identifier, which is marked
    processed only by then. *)
Theorem duplicates_dispatched_twice (cfg : config)
    (update : list call → call → update_result) (settles : pool → nat)
    (l1 l2 l3 : list row) (r1 r2 : row) (s : state) :
  apply cfg = true → (1 ≤ updateConcurrency cfg)%Z → (0 < updateBatchSize cfg)%Z →
  row_id (the (matching_id cfg)) r1 ≠ [] →
  row_id (the (matching_id cfg)) r2 = row_id (the (matching_id cfg)) r1 →
  row_id (the (matching_id cfg)) r1 ∉ processed s →
  (∀ r, r ∈ l1 ++ r1 :: l2 ++ r2 :: l3 →
     row_id (the (matching_id cfg)) r = row_id (the (matching_id cfg)) r1 →
     mapped cfg r ≠ ∅) →
  ∃ s' : state,
    page_body cfg update settles (l1 ++ r1 :: l2 ++ r2 :: l3) s = Some s' ∧
    filter (λ w, p_id w = row_id (the (matching_id cfg)) r1)
      (scan cfg (l1 ++ r1 :: l2 ++ r2 :: l3) s).2 =
      update_of cfg <$>
        filter (λ r, row_id (the (matching_id cfg)) r =
                     row_id (the (matching_id cfg)) r1)
          (l1 ++ r1 :: l2 ++ r2 :: l3) ∧
    update_of cfg r1 ∈ (scan cfg (l1 ++ r1 :: l2 ++ r2 :: l3) s).2 ∧
    update_of cfg r2 ∈ (scan cfg (l1 ++ r1 :: l2 ++ r2 :: l3) s).2 ∧
    row_id (the (matching_id cfg)) r1 ∉
      processed (scan cfg (l1 ++ r1 :: l2 ++ r2 :: l3) s).1 ∧
    requests s' =
      requests s ++ (call_of cfg <$> (scan cfg (l1 ++ r1 :: l2 ++ r2 :: l3) s).2) ∧
    filter (λ c, c_id c = row_id (the (matching_id cfg)) r1) (requests s') =
      filter (λ c, c_id c = row_id (the (matching_id cfg)) r1) (requests s) ++
      (call_of cfg <$>
         (update_of cfg <$>
            filter (λ r, row_id (the (matching_id cfg)) r =
                         row_id (the (matching_id cfg)) r1)
              (l1 ++ r1 :: l2 ++ r2 :: l3))) ∧
    2 ≤ length (filter (λ r, row_id (the (matching_id cfg)) r =
                             row_id (the (matching_id cfg)) r1)
                  (l1 ++ r1 :: l2 ++ r2 :: l3)) ∧
    row_id (the (matching_id cfg)) r1 ∈ processed s'.
Proof.
  intros Happly HC Hbs Hid H21 Hfresh Hkeep.
  set (i := row_id (the (matching_id cfg)) r1) in *.
  set (rows := l1 ++ r1 :: l2 ++ r2 :: l3) in *.
  destruct (scan_fresh_id cfg rows s [] i Hid Hfresh Hkeep) as [Hb Hs1].
  fold (scan cfg rows s) in Hb, Hs1. rewrite filter_nil, app_nil_l in Hb.
  assert (filter (λ r, row_id (the (matching_id cfg)) r = i) rows =
          filter (λ r, row_id (the (matching_id cfg)) r = i) l1 ++
          r1 :: filter (λ r, row_id (the (matching_id cfg)) r = i) l2 ++
          r2 :: filter (λ r, row_id (the (matching_id cfg)) r = i) l3) as Hf.
  { unfold rows. rewrite filter_app, filter_cons_True by done.
    by rewrite filter_app, filter_cons_True by done. }
  assert (∀ r, r ∈ filter (λ r, row_id (the (matching_id cfg)) r = i) rows →
               update_of cfg r ∈ (scan cfg rows s).2) as Hin.
  { intros r Hr. eapply (list_elem_of_filter (λ w, p_id w = i)).
    rewrite Hb. by apply list_elem_of_fmap_2. }
  unfold page_body.
  destruct (scan cfg rows s) as [s1 b] eqn:Hscan. simpl in *.
  destruct (waves_dispatch cfg update settles Hbs (or_intror HC) b s1)
    as (s' & Hw & Hp & Hr & _).
  assert (requests s1 = requests s) as Hreq.
  { pose proof (scan_requests cfg rows s) as [H _]. by rewrite Hscan in H. }
  rewrite Happly, Hreq in Hr.
  exists s'. split_and!; try done.
  - apply Hin. rewrite Hf. set_solver.
  - apply Hin. rewrite Hf. set_solver.
  - by rewrite Hr, filter_app, filter_call_of, Hb.
  - rewrite Hf, !length_app. simpl. rewrite length_app. simpl. lia.
  - rewrite Hp. apply elem_of_union_r, elem_of_list_to_set.
    apply list_elem_of_fmap. exists (update_of cfg r1). split; [done|].
    apply Hin. rewrite Hf. set_solver.
Qed.

(** ** The processed set and the checkpoint file along a run *)

Lemma sync_outcome (cfg : config) (update : list call → call → update_result)
    (settles : pool → nat) (readFileSync : jstr → read_result)
    (createQueryJob : jstr → job_result) (fuel : nat) (d : files) (o : outcome) :
  syncHubSpotPropertiesFromBigQuery cfg update settles readFileSync createQueryJob
    fuel d = Some o →
  (∃ t, o = Throws t) ∨
  (∃ j, pages cfg update settles j fuel (initial cfg d) = Some o).
Proof.
  unfold syncHubSpotPropertiesFromBigQuery.
  destruct (validate cfg); [intros [= <-]; eauto|].
  destruct (query cfg readFileSync) as [e|text]; [intros [= <-]; eauto|].
  destruct (createQueryJob text) as [e|j]; [intros [= <-]; eauto|]. eauto.
Qed.

Lemma moves_processed (cfg : config) (update : list call → call → update_result)
    (s s' : state) :
  rtc (moves cfg update) s s' → processed s ⊆ processed s'.
Proof.
  induction 1 as [|s t s' [ev Hm] _ IH]; [done|].
  rewrite (moment_added _ _ _ _ _ Hm) in IH. set_solver.
Qed.

Lemma moves_stored (cfg : config) (update : list call → call → update_result)
    (s s' : state) :
  rtc (moves cfg update) s s' →
  stored cfg s ⊆ processed s → stored cfg s' ⊆ processed s'.
Proof.
  induction 1 as [|s t s' [ev Hm] _ IH]; [done|].
  intros Hs. apply IH. by eapply moment_stored.
Qed.

(** A run is a sequence of events from its first state. *)
Lemma sync_moves (cfg : config) (update : list call → call → update_result)
    (settles : pool → nat) (readFileSync : jstr → read_result)
    (createQueryJob : jstr → job_result) (fuel : nat) (d : files) (o : outcome) :
  syncHubSpotPropertiesFromBigQuery cfg update settles readFileSync createQueryJob
    fuel d = Some o →
  match o with
  | Throws _ => True
  | ThrowsInLoop _ s | Returns s => rtc (moves cfg update) (initial cfg d) s
  end.
Proof.
  intros [[t ->]|[j Hp]]%sync_outcome; [done|].
  by apply (pages_kept cfg update settles _
              (moves_kept cfg update settles (initial cfg d)) j fuel _ o Hp).
Qed.

Lemma moment_checkpoint_file (cfg : config)
    (update : list call → call → update_result) (ev : event) (s s' : state) :
  moment cfg update ev s s' → ev ≠ Saved →
  checkpoint_file (disk s') = checkpoint_file (disk s).
Proof.
  destruct 1 as [r s b|n s|w s|w s|w r p|rows s|s|n tok s]; try done; intros _.
  - unfold scan_row. case_bool_decide; [done|].
    destruct (_ && _); [done|]. by case_bool_decide.
  - unfold dry_run_item. by destruct (negb _).
  - by destruct r.
Qed.

Lemma page_body_no_update (cfg : config) (update : list call → call → update_result)
    (settles : pool → nat) (rows : list row) (s : state) :
  (scan cfg rows s).2 = [] →
  page_body cfg update settles rows s = Some (scan cfg rows s).1 ∧
  disk (scan cfg rows s).1 = disk s.
Proof.
  intros Hb. split; [|apply scan_requests].
  unfold page_body. destruct (scan cfg rows s) as [s1 b]. simpl in Hb.
  by subst b.
Qed.

(** C10. When a run starts the checkpoint file holds the processed set.
    Every event keeps the identifiers of the file inside the processed
    set, so this holds in every state of a run, the last one included.  The
    file is written by the [Saved] events only, which end the waves: a page
    that leaves no update is gone through without a write.  And the two can
    differ at the end: the run over one page whose only row is blank-only
    returns with the identifier processed and no checkpoint file. *)
Theorem checkpoint_file_lags :
  (∀ (cfg : config) (update : list call → call → update_result)
     (settles : pool → nat) (readFileSync : jstr → read_result)
     (createQueryJob : jstr → job_result),
     (∀ d, stored cfg (initial cfg d) = processed (initial cfg d)) ∧
     (∀ ev s s', moment cfg update ev s s' →
        stored cfg s ⊆ processed s → stored cfg s' ⊆ processed s') ∧
     (∀ d s, rtc (moves cfg update) (initial cfg d) s →
        stored cfg s ⊆ processed s) ∧
     (∀ fuel d o,
        syncHubSpotPropertiesFromBigQuery cfg update settles readFileSync
          createQueryJob fuel d = Some o →
        match o with
        | Throws _ => True
        | ThrowsInLoop _ s | Returns s =>
            rtc (moves cfg update) (initial cfg d) s ∧
            stored cfg s ⊆ processed s
        end) ∧
     (∀ ev s s', moment cfg update ev s s' → ev ≠ Saved →
        checkpoint_file (disk s') = checkpoint_file (disk s)) ∧
     (∀ rows s, (scan cfg rows s).2 = [] →
        page_body cfg update settles rows s = Some (scan cfg rows s).1 ∧
        disk (scan cfg rows s).1 = disk s)) ∧
  (∃ s : state,
     syncHubSpotPropertiesFromBigQuery (Sample.contacts true) Sample.accepts
       Sample.in_order Sample.no_file (Sample.warehouse [[Sample.row_blank]])
       2 Sample.no_files = Some (Returns s) ∧
     processed s = {[ lit "2" ]} ∧
     stored (Sample.contacts true) s = ∅ ∧
     checkpoint_file (disk s) = None).
Proof.
  split.
  - intros cfg update settles readFileSync createQueryJob.
    assert (∀ d s, rtc (moves cfg update) (initial cfg d) s →
                   stored cfg s ⊆ processed s) as Hreach.
    { intros d s H. by apply (moves_stored _ _ _ _ H). }
    split_and!.
    + done.
    + apply moment_stored.
    + done.
    + intros fuel d o Ho. pose proof (sync_moves _ _ _ _ _ _ _ _ Ho) as H.
      destruct o as [t|e s|s]; [done| |]; (split; [done|]; by eapply Hreach).
    + apply moment_checkpoint_file.
    + apply page_body_no_update.
  - eexists. split; [vm_compute; reflexivity|].
    split_and!; vm_compute; reflexivity.
Qed.

(** ** A second run on the checkpoint of the first *)

Lemma scan_batch_grows (cfg : config) (rows : list row) (s : state)
    (b : list pending) (w : pending) :
  w ∈ b → w ∈ (foldl (λ acc r, scan_row cfg r acc) (s, b) rows).2.
Proof.
  revert s b. induction rows as [|r rows IH]; intros s b Hw; [done|].
  cbn [foldl]. destruct (scan_row cfg r (s, b)) as [s1 b1] eqn:E.
  apply IH. revert E. unfold scan_row. case_bool_decide; [by intros [= _ <-]|].
  destruct (_ && _); [by intros [= _ <-]|].
  case_bool_decide; intros [= _ <-]; set_solver.
Qed.

Lemma scan_row_processed (cfg : config) (r : row) (s : state) (b : list pending) :
  processed (scan_row cfg r (s, b)).1 ⊆
    processed s ∪ {[ row_id (the (matching_id cfg)) r ]}.
Proof.
  unfold scan_row. case_bool_decide; [set_solver|].
  destruct (_ && _); [set_solver|]. case_bool_decide; simpl; set_solver.
Qed.

(** ** What a run adds to the processed set *)

(** An update the scan builds comes from a row with an identifier that
    keeps a property. *)
Lemma scan_builds (cfg : config) (rows : list row) (s : state) (b : list pending) :
  ∀ w, w ∈ (foldl (λ acc r, scan_row cfg r acc) (s, b) rows).2 →
       w ∈ b ∨ ∃ r, r ∈ rows ∧ w = update_of cfg r ∧
                    row_id (the (matching_id cfg)) r ≠ [] ∧ mapped cfg r ≠ ∅.
Proof.
  revert s b. induction rows as [|r rows IH]; intros s b w; [by left|].
  cbn [foldl]. intros Hw.
  assert (∃ s1 b1, scan_row cfg r (s, b) = (s1, b1) ∧
            (b1 = b ∨ (b1 = b ++ [update_of cfg r] ∧
                       row_id (the (matching_id cfg)) r ≠ [] ∧
                       mapped cfg r ≠ ∅))) as (s1 & b1 & E & Hb1).
  { unfold scan_row. fold (mapped cfg r). case_bool_decide; [by eauto|].
    destruct (_ && _); [by eauto|]. case_bool_decide; [by eauto|].
    eexists _, _. split; [done|]. right. done. }
  rewrite E in Hw. destruct (IH _ _ _ Hw) as [Hin|(r' & Hr' & Hrest)].
  - destruct Hb1 as [->|(-> & Hid & Hm)]; [by left|].
    apply elem_of_app in Hin as [?|Hin]; [by left|].
    apply list_elem_of_singleton in Hin as ->.
    right. exists r. split; [by left | done].
  - right. exists r'. split; [by right | done].
Qed.

(** The scan of a page adds the identifiers of the rows whose update is
    discarded as empty, and no other. *)
Lemma scan_processed (cfg : config) (rows : list row) (s : state) (b : list pending) :
  processed (foldl (λ acc r, scan_row cfg r acc) (s, b) rows).1 =
    processed s ∪
    list_to_set (row_id (the (matching_id cfg)) <$> blank_only cfg rows).
Proof.
  revert s b. unfold blank_only.
  induction rows as [|r rows IH]; intros s b; [simpl; set_solver|].
  cbn [foldl].
  destruct (decide (row_id (the (matching_id cfg)) r = [])) as [Hnil|Hid].
  { rewrite scan_row_no_id by done. rewrite filter_cons_False by tauto. apply IH. }
  destruct (already_processed_dec cfg r s) as [Hp|Hp].
  { rewrite scan_row_skip by done. rewrite IH. simpl. destruct Hp as [_ Hp].
    destruct (decide (mapped cfg r = ∅)) as [Hm|Hm].
    - rewrite filter_cons_True by done. rewrite fmap_cons. simpl. set_solver.
    - by rewrite filter_cons_False by tauto. }
  destruct (decide (mapped cfg r = ∅)) as [Hm|Hm].
  - rewrite scan_row_discard by done. rewrite filter_cons_True by done.
    rewrite IH, fmap_cons. simpl. set_solver.
  - rewrite scan_row_enqueue by done. rewrite filter_cons_False by tauto. apply IH.
Qed.

(** A row that keeps a property has its update built, or its identifier
    was in the processed set. *)
Lemma scan_covers (cfg : config) (rows : list row) (s : state) (b : list pending)
    (r : row) :
  r ∈ updatable cfg rows →
  update_of cfg r ∈ (foldl (λ acc r, scan_row cfg r acc) (s, b) rows).2 ∨
  row_id (the (matching_id cfg)) r ∈
    processed (foldl (λ acc r, scan_row cfg r acc) (s, b) rows).1.
Proof.
  unfold updatable. revert s b.
  induction rows as [|r' rows IH]; intros s b Hr; [by apply elem_of_nil in Hr|].
  cbn [foldl].
  destruct (decide (row_id (the (matching_id cfg)) r' = [])) as [Hnil|Hid].
  { rewrite scan_row_no_id by done. rewrite filter_cons_False in Hr by tauto.
    by apply IH. }
  destruct (decide (mapped cfg r' = ∅)) as [Hm|Hm].
  { rewrite filter_cons_False in Hr by tauto.
    destruct (scan_row cfg r' (s, b)) as [s1 b1]. by apply IH. }
  rewrite filter_cons_True in Hr by done.
  apply elem_of_cons in Hr as [->|Hr];
    [|destruct (scan_row cfg r' (s, b)) as [s1 b1]; by apply IH].
  destruct (already_processed_dec cfg r' s) as [Hp|Hp].
  - rewrite scan_row_skip by done. right. rewrite scan_processed. simpl.
    destruct Hp as [_ Hp]. set_solver.
  - rewrite scan_row_enqueue by done. left. apply scan_batch_grows. set_solver.
Qed.

Section Added.

Variable cfg : config.
Variable update : list call → call → update_result.
Variable settles : pool → nat.

(** The loop over the waves, when it ends, has dispatched the updates of
    the page, or none of them when no worker is started. *)
Lemma waves_end (b : list pending) (s s' : state) :
  waves cfg update settles (S (length b)) b 0 s = Some s' →
  ∃ sent : list pending,
    requests s' = requests s ++ (if apply cfg then call_of cfg <$> sent else []) ∧
    processed s' = processed s ∪ list_to_set (p_id <$> sent) ∧
    (apply cfg = false → sent = b).
Proof.
  intros Hw.
  destruct (decide (0 < updateBatchSize cfg)%Z) as [Hbs|Hbs].
  - destruct (decide (apply cfg = false ∨ (1 ≤ updateConcurrency cfg)%Z))
      as [Hworkers|Hno].
    + destruct (waves_dispatch cfg update settles Hbs Hworkers b s)
        as (s'' & Hw' & Hp & Hr & _).
      rewrite Hw in Hw'. injection Hw' as <-. by exists b.
    + assert (apply cfg = true) as Happly by (destruct (apply cfg); tauto).
      destruct (waves_rule cfg update settles
                  (λ _ t, requests t = requests s ∧ processed t = processed s)
                  b s Hbs) as (s'' & Hw' & Hr & Hp); [done| |].
      { intros done wave t _ [H1 H2]. unfold wave_step.
        rewrite Happly. cbn [negb]. rewrite apply_wave_no_worker by lia.
        by simpl. }
      rewrite Hw in Hw'. injection Hw' as <-. exists [].
      rewrite Hp, Hr, Happly. simpl. rewrite app_nil_r.
      split_and!; [done | set_solver | done].
  - destruct b as [|w b].
    + simpl in Hw. injection Hw as <-. exists []. simpl.
      split_and!; [by destruct (apply cfg); rewrite app_nil_r | set_solver | done].
    + rewrite waves_diverges in Hw by (done || lia). done.
Qed.

(** A page that is gone through: the identifiers of its rows without a
    property and of the updates it dispatched are added. *)
Lemma page_body_processed (rows : list row) (s s' : state) :
  page_body cfg update settles rows s = Some s' →
  ∃ sent : list pending,
    requests s' = requests s ++ (if apply cfg then call_of cfg <$> sent else []) ∧
    processed s' =
      processed s ∪
      list_to_set (row_id (the (matching_id cfg)) <$> blank_only cfg rows) ∪
      list_to_set (p_id <$> sent) ∧
    (apply cfg = false →
     processed s' =
       processed s ∪
       list_to_set (row_id (the (matching_id cfg)) <$> blank_only cfg rows) ∪
       list_to_set (row_id (the (matching_id cfg)) <$> updatable cfg rows)).
Proof.
  unfold page_body.
  pose proof (scan_processed cfg rows s []) as Hp.
  pose proof (scan_builds cfg rows s []) as Hb.
  pose proof (λ r, scan_covers cfg rows s [] r) as Hc.
  pose proof (scan_requests cfg rows s) as (Hr & _).
  fold (scan cfg rows s) in Hp, Hb, Hc.
  destruct (scan cfg rows s) as [s1 b]. cbn [fst snd] in *.
  intros (sent & Hreq & Hproc & Hdry)%waves_end.
  exists sent. rewrite Hreq, Hproc, Hr, Hp. split_and!; [done | done |].
  intros Happly. rewrite (Hdry Happly). apply set_eq. intros i.
  rewrite !elem_of_union, !elem_of_list_to_set, !list_elem_of_fmap. split.
  - intros [[?|?]|(w & -> & Hw)]; [tauto | tauto |].
    destruct (Hb w Hw) as [[]%elem_of_nil|(r & Hin & -> & Hid & Hm)].
    right. exists r. split; [done|]. unfold updatable.
    by apply list_elem_of_filter.
  - intros [[?|?]|(r & -> & Hin)]; [tauto | tauto |].
    destruct (Hc r Hin) as [Hw|Hin'].
    + right. by exists (update_of cfg r).
    + rewrite Hp in Hin'.
      rewrite elem_of_union, elem_of_list_to_set, list_elem_of_fmap in Hin'. tauto.
Qed.

Lemma page_steps_processed (pgs : list (list row * option jstr)) (a s : state) :
  page_steps cfg update settles pgs a = Some s →
  ∃ sent : list pending,
    requests s = requests a ++ (if apply cfg then call_of cfg <$> sent else []) ∧
    processed s =
      processed a ∪
      list_to_set (row_id (the (matching_id cfg)) <$>
                     blank_only cfg (concat pgs.*1)) ∪
      list_to_set (p_id <$> sent) ∧
    (apply cfg = false →
     processed s =
       processed a ∪
       list_to_set (row_id (the (matching_id cfg)) <$>
                      blank_only cfg (concat pgs.*1)) ∪
       list_to_set (row_id (the (matching_id cfg)) <$>
                      updatable cfg (concat pgs.*1))).
Proof.
  revert a. induction pgs as [|pg pgs IH]; intros a; cbn [page_steps].
  { intros [= <-]. exists []. simpl.
    split_and!; [by destruct (apply cfg); rewrite app_nil_r | set_solver |].
    intros _. set_solver. }
  destruct (page_step cfg update settles pg a) as [a1|] eqn:E; [|done].
  assert (∃ sent1,
            requests a1 =
              requests a ++ (if apply cfg then call_of cfg <$> sent1 else []) ∧
            processed a1 =
              processed a ∪
              list_to_set (row_id (the (matching_id cfg)) <$> blank_only cfg pg.1) ∪
              list_to_set (p_id <$> sent1) ∧
            (apply cfg = false →
             processed a1 =
               processed a ∪
               list_to_set (row_id (the (matching_id cfg)) <$>
                              blank_only cfg pg.1) ∪
               list_to_set (row_id (the (matching_id cfg)) <$>
                              updatable cfg pg.1)))
    as (sent1 & Hr1 & Hp1 & Hd1).
  { revert E. unfold page_step. case_bool_decide as Hlen.
    - apply length_zero_iff_nil in Hlen. rewrite Hlen. intros [= <-].
      exists []. simpl.
      split_and!; [by destruct (apply cfg); rewrite app_nil_r | set_solver |].
      intros _. set_solver.
    - intros H. by apply page_body_processed in H. }
  intros (sent & Hr & Hp & Hd)%IH. exists (sent1 ++ sent).
  rewrite fmap_cons, concat_cons. unfold blank_only, updatable in *.
  rewrite !filter_app, !fmap_app, !list_to_set_app_L.
  split_and!.
  - rewrite Hr, Hr1. destruct (apply cfg); [|by rewrite !app_nil_r].
    by rewrite app_assoc.
  - rewrite Hp, Hp1. set_solver.
  - intros Happly. rewrite (Hd Happly), (Hd1 Happly). set_solver.
Qed.

End Added.

(** C7. The processed set of a run only grows: every event of a run leaves
    in it what it held, so a run ends with a set that holds all that was
    loaded from the checkpoint.  And an identifier is added in the terminal
    cases and in no other.  At the end of a run, or when a page fetch
    throws, the set holds the identifiers loaded from the checkpoint, those
    of the rows whose update was discarded as empty, those of the update
    requests that were sent, all of which have come back, resolved or
    rejected, and in a dry run those of the rows that keep a property; and
    no other identifier.  Along the way: the scan of a page adds the
    identifiers of the rows without a property and no other, so none for
    an update it builds; a dry-run wave adds those of its items; in an
    applied wave, at every step of the pool, the identifiers added are
    those of the calls that have come back, with an UPDATED or an ERROR
    line, the calls in flight being the others that were sent; and the
    wave ends with the identifiers of the calls it has sent, all of them
    with a worker at least. *)
Theorem processed_set_grows (cfg : config) (update : list call → call → update_result)
    (settles : pool → nat) (readFileSync : jstr → read_result)
    (createQueryJob : jstr → job_result) :
  (∀ s s', rtc (moves cfg update) s s' → processed s ⊆ processed s') ∧
  (∀ fuel d o,
     syncHubSpotPropertiesFromBigQuery cfg update settles readFileSync
       createQueryJob fuel d = Some o →
     match o with
     | Throws _ => True
     | ThrowsInLoop _ s | Returns s =>
         rtc (moves cfg update) (initial cfg d) s ∧
         loadCheckpoint (checkpointPath cfg) d ⊆ processed s ∧
         ∃ (text : jstr) (j : job) (pgs : list (list row * option jstr))
           (e : option js_error),
           query cfg readFileSync = Contents text ∧
           createQueryJob text = Job j ∧
           paging j (pageSize cfg) fuel 0 None = Some (pgs, e) ∧
           ∀ i : jstr,
             i ∈ processed s ↔
               i ∈ loadCheckpoint (checkpointPath cfg) d ∨
               i ∈ row_id (the (matching_id cfg)) <$>
                     blank_only cfg (concat pgs.*1) ∨
               (apply cfg = true ∧ i ∈ c_id <$> requests s) ∨
               (apply cfg = false ∧
                i ∈ row_id (the (matching_id cfg)) <$>
                      updatable cfg (concat pgs.*1))
     end) ∧
  (∀ (rows : list row) (s : state),
     processed (scan cfg rows s).1 =
       processed s ∪
       list_to_set (row_id (the (matching_id cfg)) <$> blank_only cfg rows)) ∧
  (∀ (wave : list pending) (s : state),
     processed (dry_run_wave cfg wave s) =
       processed s ∪ list_to_set (p_id <$> wave)) ∧
  (∀ (wave : list pending) (concurrency : Z) (s : state) (p : pool),
     rtc (pool_step cfg update wave (Z.to_nat concurrency)) (pool_start s) p →
     processed (vars p) =
       processed s ∪ list_to_set (matchVal <$> waveCsvRows p) ∧
     Forall (λ a, a_status a = UPDATED ∨ a_status a = ERROR) (waveCsvRows p) ∧
     waveCsvRows p ++ (audit_of <$> flying p) ≡ₚ
       audit_of <$> take (idx p) (answers cfg update (requests s) wave)) ∧
  (∀ (wave : list pending) (s : state),
     ∃ n : nat,
       ((1 ≤ updateConcurrency cfg)%Z → n = length wave) ∧
       requests (apply_wave cfg update settles wave s) =
         requests s ++ (call_of cfg <$> take n wave) ∧
       processed (apply_wave cfg update settles wave s) =
         processed s ∪ list_to_set (p_id <$> take n wave)).
Proof.
  split_and!.
  - apply moves_processed.
  - intros fuel d o Ho. pose proof (sync_moves _ _ _ _ _ _ _ _ Ho) as H.
    assert (match o with
            | Throws _ => True
            | ThrowsInLoop _ s | Returns s =>
                ∃ text j pgs e,
                  query cfg readFileSync = Contents text ∧
                  createQueryJob text = Job j ∧
                  paging j (pageSize cfg) fuel 0 None = Some (pgs, e) ∧
                  page_steps cfg update settles pgs (initial cfg d) = Some s
            end) as Hsteps.
    { revert Ho. unfold syncHubSpotPropertiesFromBigQuery.
      destruct (validate cfg); [by intros [= <-]|].
      destruct (query cfg readFileSync) as [?|text]; [by intros [= <-]|].
      destruct (createQueryJob text) as [?|j] eqn:Hj; [by intros [= <-]|].
      rewrite pages_paging. simpl fetches. simpl pageToken.
      destruct (paging j (pageSize cfg) fuel 0 None) as [[pgs e]|] eqn:Hpg; [|done].
      destruct (page_steps cfg update settles pgs (initial cfg d)) as [s|] eqn:Hs;
        [|done].
      intros [= <-]. destruct e; by eexists text, j, pgs, _. }
    assert (∀ s, rtc (moves cfg update) (initial cfg d) s →
              (∃ text j pgs e,
                 query cfg readFileSync = Contents text ∧
                 createQueryJob text = Job j ∧
                 paging j (pageSize cfg) fuel 0 None = Some (pgs, e) ∧
                 page_steps cfg update settles pgs (initial cfg d) = Some s) →
              rtc (moves cfg update) (initial cfg d) s ∧
              loadCheckpoint (checkpointPath cfg) d ⊆ processed s ∧
              ∃ text j pgs e,
                query cfg readFileSync = Contents text ∧
                createQueryJob text = Job j ∧
                paging j (pageSize cfg) fuel 0 None = Some (pgs, e) ∧
                ∀ i : jstr,
                  i ∈ processed s ↔
                    i ∈ loadCheckpoint (checkpointPath cfg) d ∨
                    i ∈ row_id (the (matching_id cfg)) <$>
                          blank_only cfg (concat pgs.*1) ∨
                    (apply cfg = true ∧ i ∈ c_id <$> requests s) ∨
                    (apply cfg = false ∧
                     i ∈ row_id (the (matching_id cfg)) <$>
                           updatable cfg (concat pgs.*1))) as Hall.
    { intros s Hm (text & j & pgs & e & Hq & Hj & Hpg & Hs).
      split; [done|]. split; [by apply moves_processed in Hm|].
      exists text, j, pgs, e. split_and!; try done. intros i.
      destruct (page_steps_processed cfg update settles pgs _ _ Hs)
        as (sent & Hr & Hp & Hd).
      simpl in Hr, Hp, Hd.
      destruct (apply cfg) eqn:Happly.
      - rewrite Hr, Hp, <- list_fmap_compose.
        rewrite !elem_of_union, !elem_of_list_to_set.
        change (c_id ∘ call_of cfg) with p_id. naive_solver.
      - rewrite (Hd eq_refl). rewrite !elem_of_union, !elem_of_list_to_set.
        naive_solver. }
    destruct o as [t|e s|s]; [done| |]; by apply Hall.
  - intros rows s. apply scan_processed.
  - intros wave s. by rewrite dry_run_wave_dried.
  - intros wave concurrency s p Hp.
    apply reachable_inv in Hp as [[_ Hrows _ Hproc _ _ _ _ _ _ _ _] _].
    split_and!; [done | | done].
    assert (Forall (λ a, a_status a = UPDATED ∨ a_status a = ERROR)
              (waveCsvRows p ++ (audit_of <$> flying p))) as H.
    { rewrite Hrows. apply Forall_fmap, Forall_forall. intros [w r] _.
      unfold audit_of. simpl. destruct r; simpl; tauto. }
    by apply Forall_app in H as [H _].
  - intros wave s.
    destruct (decide (1 ≤ updateConcurrency cfg)%Z) as [HC|HC].
    + destruct (apply_wave_applied cfg update settles wave s HC)
        as (rows & Hperm & ->).
      exists (length wave). rewrite firstn_all. simpl. split_and!; [done | done |].
      f_equal. apply list_to_set_perm_L.
      by rewrite Hperm, audit_of_matchVal, answers_fst.
    + rewrite apply_wave_no_worker by lia. exists 0. simpl.
      split_and!; [lia | by rewrite app_nil_r | set_solver].
Qed.

(** Along the pages the checkpoint file holds processed identifiers only
    and loses none. *)
Lemma page_steps_stored (cfg : config) (update : list call → call → update_result)
    (settles : pool → nat) (pgs : list (list row * option jstr)) (a s : state) :
  page_steps cfg update settles pgs a = Some s →
  stored cfg a ⊆ processed a →
  stored cfg s ⊆ processed s ∧ stored cfg a ⊆ stored cfg s.
Proof.
  intros Hp Ha.
  assert (kept cfg update settles
            (λ t, stored cfg t ⊆ processed t ∧ stored cfg a ⊆ stored cfg t))
    as HI.
  { split_and!.
    - intros r t b [Ht Hat].
      destruct (scan_row_grows cfg r t b) as [_ H _ _ _].
      destruct (H Ht). split; [done | set_solver].
    - intros wave t [Ht Hat].
      destruct (wave_step_grows cfg update settles wave t) as [_ H _ _ _].
      destruct (H Ht). split; [done | set_solver].
    - intros n tok t [Ht Hat]. done. }
  by apply (page_steps_kept cfg update settles _ HI pgs a s Hp).
Qed.

Section Rerun.

Variable cfg : config.
Hypothesis Hskip : skipAlreadyProcessed cfg = true.

(** The scan of the second run, next to that of the first: where the first
    run built updates whose identifiers are all in [G] and processed for the
    second run, the second run builds none and counts every row that has an
    identifier as skipped. *)
Lemma scan_rerun (G : gset jstr) (rows : list row) (t1 t2 : state)
    (b1 b2 : list pending) :
  processed t1 ⊆ processed t2 → G ⊆ processed t2 →
  (∀ w, w ∈ (foldl (λ acc r, scan_row cfg r acc) (t1, b1) rows).2 → p_id w ∈ G) →
  (foldl (λ acc r, scan_row cfg r acc) (t2, b2) rows).2 = b2 ∧
  processed (foldl (λ acc r, scan_row cfg r acc) (t1, b1) rows).1 ⊆
    processed (foldl (λ acc r, scan_row cfg r acc) (t2, b2) rows).1 ∧
  G ⊆ processed (foldl (λ acc r, scan_row cfg r acc) (t2, b2) rows).1 ∧
  totalSkipped (foldl (λ acc r, scan_row cfg r acc) (t2, b2) rows).1 =
    totalSkipped t2 + length (identified cfg rows).
Proof using Hskip.
  revert t1 t2 b1 b2. induction rows as [|r rows IH]; intros t1 t2 b1 b2 H12 HG Hb.
  { simpl. split_and!; try done; lia. }
  cbn [foldl] in *. unfold identified in *.
  destruct (decide (row_id (the (matching_id cfg)) r = [])) as [Hnil|Hid].
  { rewrite !scan_row_no_id in * by done. rewrite filter_cons_False by eauto.
    by apply IH. }
  rewrite filter_cons_True by done. cbn [length].
  pose proof (scan_row_processed cfg r t1 b1) as Hp1.
  destruct (scan_row cfg r (t1, b1)) as [t1' b1'] eqn:E1. simpl in Hp1.
  destruct (decide (row_id (the (matching_id cfg)) r ∈ processed t2)) as [Hin|Hout].
  - rewrite scan_row_skip by done.
    destruct (IH t1' (add_skipped 1 t2) b1' b2) as (IH1 & IH2 & IH3 & IH4);
      [simpl; set_solver | done | done |].
    split_and!; try done. rewrite IH4. simpl. lia.
  - assert (¬ already_processed cfg r t2) as Hn2 by (by intros [_ ?]).
    assert (¬ already_processed cfg r t1) as Hn1
      by (intros [_ ?]; apply Hout; set_solver).
    destruct (decide (mapped cfg r = ∅)) as [Hm|Hm].
    + rewrite scan_row_discard by done.
      destruct (IH t1'
                  (add_processed (row_id (the (matching_id cfg)) r)
                     (add_skipped 1 t2)) b1' b2)
        as (IH1 & IH2 & IH3 & IH4); [simpl; set_solver | simpl; set_solver | done |].
      split_and!; try done. rewrite IH4. simpl. lia.
    + exfalso. apply Hout, HG, (Hb (update_of cfg r)).
      rewrite scan_row_enqueue in E1 by done. injection E1 as <- <-.
      apply scan_batch_grows. set_solver.
Qed.

Variable update1 update2 : list call → call → update_result.
Variable settles1 settles2 : pool → nat.

Hypothesis Hpath : falsy (checkpointPath cfg) = false.
Hypothesis Hbs : (0 < updateBatchSize cfg)%Z.
Hypothesis Hworkers : apply cfg = false ∨ (1 ≤ updateConcurrency cfg)%Z.

(** In the first run the identifiers of the updates of a page are in the
    checkpoint file when the page is done. *)
Lemma page_step_saves (pg : list row * option jstr) (a a' : state) :
  page_step cfg update1 settles1 pg a = Some a' →
  (∀ w, w ∈ (scan cfg pg.1 (fetched_page (length pg.1) pg.2 a)).2 →
        p_id w ∈ stored cfg a') ∧
  processed a' =
    processed (scan cfg pg.1 (fetched_page (length pg.1) pg.2 a)).1 ∪
    list_to_set (p_id <$> (scan cfg pg.1 (fetched_page (length pg.1) pg.2 a)).2).
Proof using Hskip Hpath Hbs Hworkers.
  unfold page_step. case_bool_decide as Hlen.
  { apply length_zero_iff_nil in Hlen. rewrite Hlen. intros [= <-].
    split; [intros w Hw; by apply elem_of_nil in Hw | simpl; set_solver]. }
  unfold page_body.
  destruct (scan cfg pg.1 (fetched_page (length pg.1) pg.2 a)) as [t b].
  destruct (waves_dispatch cfg update1 settles1 Hbs Hworkers b t)
    as (s' & Hw & Hp & _ & _ & _ & _ & Hst).
  rewrite Hw. intros [= <-]. simpl. split; [|done].
  intros w Hin. rewrite Hst, Hpath, Hp by (by intros ->; apply elem_of_nil in Hin).
  apply elem_of_union_r, elem_of_list_to_set. by apply list_elem_of_fmap_2.
Qed.

(** The pages of the second run, next to those of the first. *)
Lemma page_steps_rerun (pgs : list (list row * option jstr)) (a1 a2 s1 : state) :
  page_steps cfg update1 settles1 pgs a1 = Some s1 →
  stored cfg a1 ⊆ processed a1 →
  processed a1 ⊆ processed a2 →
  stored cfg s1 ⊆ processed a2 →
  ∃ s2, page_steps cfg update2 settles2 pgs a2 = Some s2 ∧
    requests s2 = requests a2 ∧ totalAttempted s2 = totalAttempted a2 ∧
    totalUpdated s2 = totalUpdated a2 ∧ errors s2 = errors a2 ∧
    disk s2 = disk a2 ∧
    totalSkipped s2 = totalSkipped a2 + length (identified cfg (concat pgs.*1)).
Proof using Hskip Hpath Hbs Hworkers.
  revert a1 a2. induction pgs as [|pg pgs IH]; intros a1 a2 H1 Hst H12 HG.
  { exists a2. simpl. split_and!; try done; lia. }
  cbn [page_steps] in *.
  destruct (page_step cfg update1 settles1 pg a1) as [a1'|] eqn:E1; [|done].
  destruct (page_step_saves _ _ _ E1) as [Hsaved Hp1].
  assert (stored cfg a1' ⊆ processed a1' ∧ stored cfg a1 ⊆ stored cfg a1')
    as [Hst' _].
  { apply (page_steps_stored cfg update1 settles1 [pg] a1 a1'); [|done].
    cbn [page_steps]. by rewrite E1. }
  destruct (page_steps_stored cfg update1 settles1 pgs a1' s1 H1 Hst') as [_ Hmono].
  set (b1 := fetched_page (length pg.1) pg.2 a1) in *.
  set (b2 := fetched_page (length pg.1) pg.2 a2).
  destruct (scan_rerun (stored cfg s1) pg.1 b1 b2 [] [])
    as (Hb2 & Hsub & HG' & Hsk); [done | done | |].
  { intros w Hw. apply Hmono, Hsaved, Hw. }
  fold (scan cfg pg.1 b1) in Hsub. fold (scan cfg pg.1 b2) in Hb2, Hsub, HG', Hsk.
  assert (page_step cfg update2 settles2 pg a2 = Some (scan cfg pg.1 b2).1) as E2.
  { unfold page_step. fold b2. case_bool_decide as Hlen.
    - apply length_zero_iff_nil in Hlen. by rewrite Hlen.
    - by apply page_body_no_update. }
  rewrite E2.
  destruct (IH a1' (scan cfg pg.1 b2).1 H1 Hst') as (s2 & Hs2 & IHr);
    [|done|].
  { rewrite Hp1. apply union_subseteq. split; [done|].
    intros i [w [-> Hw]]%elem_of_list_to_set%list_elem_of_fmap.
    apply HG', Hmono, Hsaved, Hw. }
  destruct IHr as (Hr & Ha & Hu & He & Hd & Hs).
  destruct (scan_requests cfg pg.1 b2) as (Hr' & Hd' & Ha' & Hu' & He').
  exists s2. split; [done|].
  rewrite Hr, Ha, Hu, He, Hd, Hs, Hr', Hd', Ha', Hu', He', Hsk.
  split_and!; try done.
  rewrite fmap_cons, concat_cons. unfold identified.
  rewrite filter_app, length_app. simpl. lia.
Qed.

End Rerun.

Lemma distinct_updated_ids_length (cfg : config) (rows : list row) :
  NoDup (row_id (the (matching_id cfg)) <$> identified cfg rows) →
  (∀ r, r ∈ identified cfg rows → mapped cfg r ≠ ∅) →
  distinct_updated_ids cfg rows = length (identified cfg rows).
Proof.
  intros Hnd Hkeep. unfold distinct_updated_ids.
  assert (filter (λ r, row_id (the (matching_id cfg)) r ≠ [] ∧ mapped cfg r ≠ ∅)
            rows = identified cfg rows) as ->.
  { unfold identified in *. induction rows as [|r rows IH]; [done|].
    destruct (decide (row_id (the (matching_id cfg)) r = [])) as [Hr|Hr].
    - rewrite !filter_cons_False by tauto. rewrite filter_cons_False in Hnd, Hkeep
        by tauto. by apply IH.
    - rewrite filter_cons_True in Hnd, Hkeep by done.
      rewrite (filter_cons_True (λ r, row_id (the (matching_id cfg)) r ≠ [])) by done.
      rewrite filter_cons_True by (split; [done | apply Hkeep; set_solver]).
      f_equal. apply IH.
      + rewrite fmap_cons in Hnd. by apply NoDup_cons in Hnd as [_ ?].
      + intros r' Hr'. apply Hkeep. set_solver. }
  rewrite size_list_to_set by done. by rewrite length_fmap.
Qed.

(** C1, as the code has it.  Let a run return, with [skipAlreadyProcessed]
    set, a checkpoint path, a positive [updateBatchSize] and, in apply mode,
    a worker at least.  A second run of the same query on the files the
    first one left also returns; it sends no update request at all, attempts
    and updates nothing, records no error, and counts as skipped every row
    of the stream that has an identifier, each occurrence once and the
    blank-only rows too.  When no identifier comes twice and every such row
    keeps a property, this count is the number of distinct identifiers that
    were given an update. *)
Theorem rerun_skips_everything (cfg : config)
    (update1 update2 : list call → call → update_result)
    (settles1 settles2 : pool → nat) (readFileSync : jstr → read_result)
    (createQueryJob : jstr → job_result) (text : jstr) (j : job)
    (pgs : list (list row * option jstr)) (fuel : nat) (d : files) :
  validate cfg = None →
  query cfg readFileSync = Contents text →
  createQueryJob text = Job j →
  skipAlreadyProcessed cfg = true →
  falsy (checkpointPath cfg) = false →
  (0 < updateBatchSize cfg)%Z →
  apply cfg = false ∨ (1 ≤ updateConcurrency cfg)%Z →
  paging j (pageSize cfg) fuel 0 None = Some (pgs, None) →
  ∃ s1 s2 : state,
    syncHubSpotPropertiesFromBigQuery cfg update1 settles1 readFileSync
      createQueryJob fuel d = Some (Returns s1) ∧
    syncHubSpotPropertiesFromBigQuery cfg update2 settles2 readFileSync
      createQueryJob fuel (disk s1) = Some (Returns s2) ∧
    requests s2 = [] ∧ totalAttempted s2 = 0 ∧ totalUpdated s2 = 0 ∧
    errors s2 = [] ∧
    totalSkipped s2 = length (identified cfg (concat pgs.*1)) ∧
    (NoDup (row_id (the (matching_id cfg)) <$> identified cfg (concat pgs.*1)) →
     (∀ r, r ∈ identified cfg (concat pgs.*1) → mapped cfg r ≠ ∅) →
     totalSkipped s2 = distinct_updated_ids cfg (concat pgs.*1)).
Proof.
  intros Hv Hq Hjob Hskip Hpath Hbs Hworkers Hpg.
  destruct (page_steps_total cfg update1 settles1 pgs (initial cfg d) Hbs)
    as [s1 Hs1].
  destruct (page_steps_stored cfg update1 settles1 pgs (initial cfg d) s1 Hs1)
    as [_ Hmono]; [done|].
  destruct (page_steps_rerun cfg Hskip update1 update2 settles1 settles2
              Hpath Hbs Hworkers pgs (initial cfg d) (initial cfg (disk s1)) s1)
    as (s2 & Hs2 & Hr & Ha & Hu & He & _ & Hsk); try done.
  exists s1, s2.
  rewrite !(sync_pages cfg _ _ readFileSync createQueryJob text j) by done.
  rewrite !pages_paging. simpl fetches. simpl pageToken.
  rewrite Hpg, Hs1, Hs2. simpl in *.
  split_and!; try done.
  intros Hnd Hkeep. by rewrite distinct_updated_ids_length.
Qed.

(** ** Errors that are thrown, errors that are recorded *)



Lemma take_answers (cfg : config) (update : list call → call → update_result)
    (h : list call) (wave : list pending) (n : nat) :
  take n (answers cfg update h wave) = answers cfg update h (take n wave).
Proof.
  revert h n. induction wave as [|w wave IH]; intros h [|n]; simpl; try done.
  by rewrite IH.
Qed.



Lemma pages_not_Throws (cfg : config) (update : list call → call → update_result)
    (settles : pool → nat) (j : job) (fuel : nat) (s : state) (t : thrown) :
  pages cfg update settles j fuel s ≠ Some (Throws t).
Proof.
  rewrite pages_paging. destruct (paging _ _ _ _ _) as [[pgs [e|]]|]; [| |done];
    by destruct (page_steps _ _ _ _ _).
Qed.


(** C6, as the code has it.  The page loop ends on a page without rows,
    whatever token came with it.  On a page that came without a token it
    ends once the page is gone through, and that depends on the loop over
    the waves: with a positive [updateBatchSize], or when the page has no
    update to dispatch, the run returns after this page; with an
    [updateBatchSize] that is not positive and an update to dispatch the
    page loop does not end.  A job that gives a page of 5000 rows with a
    token, a second one of 5000 rows with a token, and then a page without
    rows, with or without a token, is asked three times and the run, with
    a positive [updateBatchSize], returns with 10000 rows fetched. *)
Theorem pagination_terminates (cfg : config) (update : list call → call → update_result)
    (settles : pool → nat) :
  (∀ (j : job) (fuel : nat) (s : state) (tok : option jstr),
     fetchBigQueryPage j (fetches s) (pageToken s) (pageSize cfg) = inr ([], tok) →
     pages cfg update settles j (S fuel) s = Some (Returns (fetched_page 0 tok s))) ∧
  (∀ (j : job) (s : state) (rows : list row),
     fetchBigQueryPage j (fetches s) (pageToken s) (pageSize cfg) = inr (rows, None) →
     ((0 < updateBatchSize cfg)%Z ∨
      (scan cfg rows (fetched_page (length rows) None s)).2 = [] →
      ∃ s' : state,
        page_body cfg update settles rows (fetched_page (length rows) None s) =
          Some s' ∧
        ∀ fuel : nat, pages cfg update settles j (S fuel) s = Some (Returns s')) ∧
     ((updateBatchSize cfg ≤ 0)%Z →
      (scan cfg rows (fetched_page (length rows) None s)).2 ≠ [] →
      ∀ fuel : nat, pages cfg update settles j fuel s = None)) ∧
  (∀ (readFileSync : jstr → read_result) (createQueryJob : jstr → job_result)
     (text : jstr) (j : job) (rows1 rows2 : list row) (t1 t2 : jstr)
     (t3 : option jstr) (d : files) (fuel : nat),
     validate cfg = None →
     query cfg readFileSync = Contents text →
     createQueryJob text = Job j →
     (0 < updateBatchSize cfg)%Z →
     length rows1 = 5000 → length rows2 = 5000 → t1 ≠ [] → t2 ≠ [] →
     j 0 {| maxResults := pageSize cfg; opt_pageToken := None |} =
       Page rows1 (Some t1) →
     j 1 {| maxResults := pageSize cfg; opt_pageToken := Some t1 |} =
       Page rows2 (Some t2) →
     j 2 {| maxResults := pageSize cfg; opt_pageToken := Some t2 |} =
       Page [] t3 →
     3 ≤ fuel →
     ∃ s' : state,
       syncHubSpotPropertiesFromBigQuery cfg update settles readFileSync
         createQueryJob fuel d = Some (Returns s') ∧
       totalFetched s' = 10000 ∧ fetches s' = 3).
Proof.
  split_and!.
  - intros j fuel s tok H. cbn [pages]. by rewrite H.
  - intros j s rows H. split.
    + intros Hend.
      assert (∃ s', page_body cfg update settles rows
                      (fetched_page (length rows) None s) = Some s')
        as [s' Hbody].
      { destruct Hend as [Hbs|Hb]; [by apply page_body_total|].
        eexists. by apply page_body_no_update. }
      exists s'. split; [done|]. intros fuel. cbn [pages]. rewrite H.
      case_bool_decide as Hlen.
      * apply length_zero_iff_nil in Hlen. subst rows.
        revert Hbody. unfold page_body. simpl. by intros [= <-].
      * rewrite Hbody.
        by pose proof (page_body_grows _ _ _ _ _ _ Hbody) as [_ _ _ -> _].
    + intros Hbs Hb [|fuel]; [done|]. cbn [pages]. rewrite H.
      case_bool_decide as Hlen.
      * apply length_zero_iff_nil in Hlen. subst rows. by destruct Hb.
      * by rewrite page_body_diverges.
  - intros readFileSync createQueryJob text j rows1 rows2 t1 t2 t3 d fuel
      Hv Hsql Hjob Hbs H1 H2 Ht1 Ht2 Hj0 Hj1 Hj2 Hfuel.
    rewrite (sync_pages cfg update settles readFileSync createQueryJob text j)
      by done.
    rewrite pages_paging.
    assert (paging j (pageSize cfg) 3 0 None =
            Some ([(rows1, Some t1); (rows2, Some t2);
                   ([], if falsy t3 then None else t3)], None)) as Hpg.
    { cbn [paging]. unfold fetchBigQueryPage. simpl. rewrite Hj0.
      destruct t1 as [|c1 t1]; [done|]. simpl.
      rewrite bool_decide_eq_false_2 by lia. rewrite Hj1.
      destruct t2 as [|c2 t2]; [done|]. simpl.
      rewrite bool_decide_eq_false_2 by lia. by rewrite Hj2. }
    simpl fetches. simpl pageToken.
    rewrite (paging_fuel_mono _ _ _ _ _ _ _ Hpg Hfuel).
    destruct (page_steps_total cfg update settles
                [(rows1, Some t1); (rows2, Some t2);
                 ([], if falsy t3 then None else t3)] (initial cfg d) Hbs)
      as [s' Hs'].
    rewrite Hs'. exists s'. split; [done|].
    destruct (page_steps_fetched _ _ _ _ _ _ Hs') as [Hf Hn].
    simpl in Hf, Hn. rewrite H1, H2 in Hf. done.
Qed.

(** C8. The pool of a wave runs by the steps of [pool_step], and in every
    state these steps reach at most [concurrency] calls are in flight: the
    requests sent are the calls that came back and the calls in flight, and
    the calls in flight are never more than the workers.  The bound is
    reached as soon as the workers are started when the wave has at least
    that many items. *)
Theorem concurrency_bound (cfg : config) (update : list call → call → update_result)
    (settles : pool → nat) (wave : list pending) (concurrency : Z) (s : state) :
  (∀ steps : nat,
     rtc (pool_step cfg update wave (Z.to_nat concurrency)) (pool_start s)
       (drive cfg update settles wave steps
          (spawn cfg update wave (Z.to_nat concurrency) (pool_start s)))) ∧
  (∀ p : pool,
     rtc (pool_step cfg update wave (Z.to_nat concurrency)) (pool_start s) p →
     in_flight p ≤ Z.to_nat concurrency ∧
     length (requests (vars p)) =
       length (requests s) + length (waveCsvRows p) + in_flight p) ∧
  (Z.to_nat concurrency ≤ length wave →
   in_flight (spawn cfg update wave (Z.to_nat concurrency) (pool_start s)) =
     Z.to_nat concurrency).
Proof.
  split_and!.
  - intros steps. etrans.
    + apply (spawn_reachable cfg update wave (Z.to_nat concurrency)
               (Z.to_nat concurrency)).
      unfold pool_start. cbn [workers length]. lia.
    + apply drive_reachable.
      destruct (spawn_inv cfg update wave s (Z.to_nat concurrency) _
                  (pool_inv_start cfg update wave s)) as [_ H].
      by rewrite H.
  - intros p Hp. apply reachable_inv in Hp as [Hinv Hlen].
    split.
    + pose proof (in_flight_le_workers p). lia.
    + pose proof (Permutation_length (inv_rows _ _ _ _ _ Hinv)) as H.
      rewrite length_app, !length_fmap, length_take, answers_length in H.
      rewrite (inv_requests _ _ _ _ _ Hinv), length_app, length_fmap, length_take.
      unfold in_flight in *. lia.
  - intros Hle.
    destruct (spawn_inv cfg update wave s (Z.to_nat concurrency) _
                (pool_inv_start cfg update wave s)) as [Hinv _].
    destruct (spawn_idx_rows cfg update wave (Z.to_nat concurrency) (pool_start s))
      as [Hi Hr].
    pose proof (Permutation_length (inv_rows _ _ _ _ _ Hinv)) as H.
    rewrite length_app, !length_fmap, length_take, answers_length, Hi, Hr in H.
    simpl in H. unfold in_flight. lia.
Qed.


(** * More of the code *)

(** ** The cells of the audit file *)

Lemma split_cells_plain (s tail cur : jstr) :
  existsb special s = false →
  split_cells (s ++ tail) false cur = split_cells tail false (cur ++ s).
Proof.
  revert cur. induction s as [|c s IH]; intros cur Hs.
  - by rewrite app_nil_r.
  - simpl in Hs. apply orb_false_iff in Hs as [Hc Hs].
    cbn [app split_cells].
    assert ((c =? 34)%N = false ∧ (c =? 44)%N = false) as [-> ->].
    { split; apply N.eqb_neq; intros ->; discriminate. }
    rewrite IH by done. by rewrite <- app_assoc.
Qed.

Lemma split_cells_quoted (s tail cur : jstr) :
  head tail ≠ Some 34%N →
  split_cells (double_quotes s ++ 34%N :: tail) true cur =
    split_cells tail false (cur ++ s).
Proof.
  intros Htail. revert cur. induction s as [|c s IH]; intros cur.
  - rewrite app_nil_r. cbn [double_quotes app split_cells N.eqb Pos.eqb].
    destruct tail as [|c tail]; [done|].
    destruct (decide (c = 34%N)) as [->|Hc]; [done|].
    destruct c as [|p]; [done|].
    repeat (destruct p as [p|p|]; try done).
  - cbn [double_quotes]. destruct (c =? 34)%N eqn:Hc.
    + apply N.eqb_eq in Hc as ->.
      cbn [app split_cells N.eqb Pos.eqb]. rewrite IH. by rewrite <- app_assoc.
    + cbn [app split_cells]. rewrite Hc, IH. by rewrite <- app_assoc.
Qed.

Lemma split_cells_cell (s tail : jstr) :
  head tail ≠ Some 34%N →
  split_cells (csvEscape (VStr s) ++ tail) false [] = split_cells tail false s.
Proof.
  intros Htail. unfold csvEscape. cbn [String_].
  destruct (existsb special s) eqn:Hs.
  - rewrite <- !app_assoc. cbn [app split_cells N.eqb Pos.eqb].
    by rewrite split_cells_quoted.
  - by rewrite split_cells_plain.
Qed.

(** X1. A line of the audit file splits back into the cells it was written
    from, whatever commas, quotes and line breaks the cells hold; so two
    lines are the same only when their cells are. *)
Theorem csv_line_splits_back :
  (∀ (c : jstr) (cells : list jstr),
     split_cells (csv_line_text (VStr <$> c :: cells)) false [] = c :: cells) ∧
  (∀ (c c' : jstr) (cells cells' : list jstr),
     csv_line_text (VStr <$> c :: cells) = csv_line_text (VStr <$> c' :: cells') →
     c :: cells = c' :: cells').
Proof.
  assert (∀ (c : jstr) (cells : list jstr),
            split_cells (csv_line_text (VStr <$> c :: cells)) false [] = c :: cells)
    as Hsplit.
  { intros c cells. revert c. unfold csv_line_text.
    induction cells as [|c' cells IH]; intros c.
    - cbn [fmap list_fmap join_commas].
      rewrite <- (app_nil_r (csvEscape (VStr c))).
      by rewrite split_cells_cell.
    - specialize (IH c'). rewrite !fmap_cons in *. cbn [join_commas] in *.
      rewrite split_cells_cell by done. cbn [app split_cells N.eqb Pos.eqb].
      f_equal. exact IH. }
  split; [exact Hsplit|].
  intros c c' cells cells' H. rewrite <- (Hsplit c cells), <- (Hsplit c' cells').
  by rewrite H.
Qed.

(** ** Appending to the audit file *)

(** One append to a file that exists. *)
Lemma writeCsvAppend_exists (d : files) (old : list csv_line) (rows : list audit) :
  csv_file d = Some old →
  csv_file (writeCsvAppend d rows) =
    Some (old ++ if bool_decide (rows = []) then [Blank] else Line <$> rows).
Proof.
  intros Hd. unfold writeCsvAppend. rewrite Hd. simpl. by destruct rows.
Qed.

Lemma data_lines_writeCsvAppend (d : files) (rows : list audit) :
  data_lines (writeCsvAppend d rows) = data_lines d ++ rows.
Proof.
  assert (omap (λ l, match l with Line a => Some a | _ => None end)
               (Line <$> rows) = rows) as Hl.
  { induction rows as [|a l IH]; [done|]. rewrite fmap_cons. csimpl. by rewrite IH. }
  unfold data_lines. destruct (csv_file d) as [old|] eqn:Hd.
  - rewrite (writeCsvAppend_exists d old) by done. simpl. rewrite omap_app.
    case_bool_decide as Hr; [by subst rows|]. by rewrite Hl.
  - unfold writeCsvAppend. rewrite Hd. simpl. exact Hl.
Qed.

Lemma foldl_writeCsvAppend (d : files) (old : list csv_line)
    (more : list (list audit)) :
  csv_file d = Some old →
  ∃ lines : list csv_line,
    csv_file (foldl writeCsvAppend d more) = Some (old ++ lines) ∧
    Header ∉ lines ∧
    (Forall (λ r, r ≠ []) more → lines = Line <$> concat more) ∧
    checkpoint_file (foldl writeCsvAppend d more) = checkpoint_file d.
Proof.
  revert d old. induction more as [|r more IH]; intros d old Hd.
  { exists []. simpl. rewrite app_nil_r. split_and!; try done. apply not_elem_of_nil. }
  cbn [foldl].
  destruct (IH (writeCsvAppend d r) _ (writeCsvAppend_exists d old r Hd))
    as (lines & Hf & Hh & Hl & Hc).
  exists ((if bool_decide (r = []) then [Blank] else Line <$> r) ++ lines).
  rewrite Hf, Hc, app_assoc. split_and!; try done.
  - rewrite elem_of_app. intros [H|H]; [|done].
    case_bool_decide; [by apply list_elem_of_singleton in H|].
    by apply list_elem_of_fmap in H as (a & [=] & _).
  - intros [Hr Hm]%Forall_cons. rewrite bool_decide_eq_false_2 by done.
    by rewrite (Hl Hm), concat_cons, fmap_app.
Qed.

(** X2. However many times the audit file is appended to, the header is
    written once, by the first append and only when the file did not
    exist: the file is what it was, or the header, followed by lines none
    of which is a header.  The audit records of the file are those it had,
    followed by the rows of the appends in their order, and when no append
    is empty the lines added are the lines of these rows and no other.  An
    append of no rows to a file that exists adds an empty line.  The
    checkpoint file is not touched. *)
Theorem header_written_once (d : files) (rows : list audit) (more : list (list audit)) :
  (∃ lines : list csv_line,
     csv_file (foldl writeCsvAppend d (rows :: more)) =
       Some (default [Header] (csv_file d) ++ lines) ∧
     Header ∉ lines ∧
     (Forall (λ r, r ≠ []) (rows :: more) →
      lines = Line <$> rows ++ concat more)) ∧
  data_lines (foldl writeCsvAppend d (rows :: more)) =
    data_lines d ++ rows ++ concat more ∧
  (∀ old : list csv_line,
     csv_file d = Some old →
     csv_file (writeCsvAppend d []) = Some (old ++ [Blank])) ∧
  checkpoint_file (foldl writeCsvAppend d (rows :: more)) = checkpoint_file d.
Proof.
  split_and!.
  - cbn [foldl].
    assert (∃ l0, csv_file (writeCsvAppend d rows) =
                    Some (default [Header] (csv_file d) ++ l0) ∧
                  Header ∉ l0 ∧ (rows ≠ [] → l0 = Line <$> rows))
      as (l0 & H0 & Hh0 & Hl0).
    { destruct (csv_file d) as [old|] eqn:Hd.
      - exists (if bool_decide (rows = []) then [Blank] else Line <$> rows).
        rewrite (writeCsvAppend_exists d old) by done. split_and!; [done| |].
        + case_bool_decide; [by intros ?%list_elem_of_singleton|].
          by intros (a & [=] & _)%list_elem_of_fmap.
        + intros Hr. by rewrite bool_decide_eq_false_2.
      - exists (Line <$> rows). unfold writeCsvAppend. rewrite Hd. simpl.
        split_and!; [done| |done].
        by intros (a & [=] & _)%list_elem_of_fmap. }
    destruct (foldl_writeCsvAppend (writeCsvAppend d rows) _ more H0)
      as (lines & Hf & Hh & Hl & _).
    exists (l0 ++ lines). rewrite Hf, app_assoc. split_and!; [done| |].
    + rewrite elem_of_app. tauto.
    + intros [Hr Hm]%Forall_cons. by rewrite (Hl0 Hr), (Hl Hm), fmap_app.
  - change (rows ++ concat more) with (concat (rows :: more)).
    generalize (rows :: more). intros l. revert d.
    induction l as [|r l IH]; intros d; simpl.
    + by rewrite app_nil_r.
    + by rewrite IH, data_lines_writeCsvAppend, app_assoc.
  - intros old Hd. by rewrite (writeCsvAppend_exists d old).
  - generalize (rows :: more). intros l. revert d.
    induction l as [|r l IH]; intros d; [done|]. simpl. by rewrite IH.
Qed.

(** ** The checkpoint file *)

(** X3. What is saved is what is loaded again: with a checkpoint path the
    set read back from the file just saved is the set that was saved, and a
    save replaces the one before it.  Without a path nothing is written and
    the empty set is loaded.  A file that is missing, cannot be parsed or
    holds no array loads as the empty set, and the audit file is left as it
    is. *)
Theorem checkpoint_round_trip (path : option jstr) (d : files) :
  (∀ set : gset jstr,
     loadCheckpoint path (saveCheckpoint path set d) =
       if falsy path then ∅ else set) ∧
  (∀ set set' : gset jstr,
     saveCheckpoint path set' (saveCheckpoint path set d) =
       saveCheckpoint path set' d) ∧
  (falsy path = true → ∀ set, saveCheckpoint path set d = d) ∧
  (checkpoint_file d = None ∨ checkpoint_file d = Some Unparsable ∨
   checkpoint_file d = Some NotAnArray → loadCheckpoint path d = ∅) ∧
  (∀ set, csv_file (saveCheckpoint path set d) = csv_file d).
Proof.
  split_and!.
  - intros set. destruct (falsy path) eqn:E.
    + unfold loadCheckpoint. by rewrite E.
    + by apply loadCheckpoint_saveCheckpoint.
  - intros set set'. unfold saveCheckpoint. by destruct (falsy path).
  - intros E set. unfold saveCheckpoint. by rewrite E.
  - unfold loadCheckpoint. destruct (falsy path); [done|].
    by intros [->|[->| ->]].
  - intros set. unfold saveCheckpoint. by destruct (falsy path).
Qed.

(** X4. A wave, dry or applied, with workers or without, ends with the
    checkpoint file holding the whole processed set (when a checkpoint path
    is given): what a crash after the wave would lose is nothing. *)
Theorem wave_saves_processed (cfg : config) (update : list call → call → update_result)
    (settles : pool → nat) (wave : list pending) (s : state) :
  stored cfg (wave_step cfg update settles wave s) =
    if falsy (checkpointPath cfg) then ∅
    else processed (wave_step cfg update settles wave s).
Proof.
  unfold wave_step. destruct (negb (apply cfg)).
  - rewrite dry_run_wave_dried. unfold dried, stored. cbn [disk processed].
    apply (stored_save cfg _ _ s).
  - unfold apply_wave.
    set (p := runWithConcurrency _ _ _ _ _ _).
    destruct (negb (falsy (outputCsvPath cfg)) &&
              negb (bool_decide (waveCsvRows p = []))); unfold stored; simpl;
      match goal with
      | |- loadCheckpoint _ (saveCheckpoint _ ?set ?d) = _ =>
          apply (stored_save cfg set d s)
      end.
Qed.

(** ** The counters of the summary *)

Lemma audit_lines_count (l : list (pending * update_result)) (rows : list audit) :
  rows ≡ₚ audit_of <$> l →
  length (filter (λ a, is_updated a = true) rows) + length (omap error_of rows) =
    length rows ∧
  Forall (λ a, a_status a ≠ DRY_RUN) rows.
Proof.
  intros Hperm. rewrite Hperm. clear Hperm rows.
  induction l as [|[w r] l [IH1 IH2]]; [by split|].
  rewrite fmap_cons. split.
  - destruct r.
    + rewrite filter_cons_True by done. csimpl. lia.
    + rewrite filter_cons_False by done. csimpl. lia.
  - constructor; [by destruct r | done].
Qed.

(** The pool when [Promise.all] is through. *)
Lemma runWithConcurrency_done (cfg : config)
    (update : list call → call → update_result) (settles : pool → nat)
    (wave : list pending) (s : state) :
  ∃ (n : nat) (rows : list audit) (t : state),
    n ≤ length wave ∧
    waveCsvRows (runWithConcurrency cfg update settles wave
                   (updateConcurrency cfg) s) = rows ∧
    vars (runWithConcurrency cfg update settles wave (updateConcurrency cfg) s) = t ∧
    rows ≡ₚ audit_of <$> answers cfg update (requests s) (take n wave) ∧
    length rows = n ∧
    requests t = requests s ++ (call_of cfg <$> take n wave) ∧
    totalAttempted t = totalAttempted s + n ∧
    totalUpdated t =
      totalUpdated s + length (filter (λ a, is_updated a = true) rows) ∧
    errors t = errors s ++ omap error_of rows ∧
    processed t = processed s ∪ list_to_set (matchVal <$> rows) ∧
    disk t = disk s ∧ totalSkipped t = totalSkipped s.
Proof.
  destruct (runWithConcurrency_inv cfg update wave settles
              (updateConcurrency cfg) s) as (Hinv & Hfly & _).
  set (p := runWithConcurrency _ _ _ _ _ _) in *.
  destruct Hinv as [Hreq Hrows _ Hproc Herr Hupd Hatt Hd Hsk _ _ _].
  rewrite Hfly, app_nil_r, take_answers in Hrows.
  exists (idx p `min` length wave), (waveCsvRows p), (vars p).
  assert (take (idx p) wave = take (idx p `min` length wave) wave) as Htake.
  { destruct (Nat.min_spec (idx p) (length wave)) as [[? ->]|[? ->]]; [done|].
    by rewrite !take_ge by lia. }
  rewrite <- Htake.
  split_and!; try done; [lia|].
  rewrite (Permutation_length Hrows), length_fmap, answers_length, length_take.
  lia.
Qed.

(** X5. The counters of a run add up.  In apply mode every attempt is a
    request that was sent, and it ended as an update or as an entry of
    [errors]: attempted = updated + errors.  In a dry run nothing is sent,
    nothing is counted as updated and there is no error. *)
Theorem counters_add_up (cfg : config) (update : list call → call → update_result)
    (settles : pool → nat) (readFileSync : jstr → read_result)
    (createQueryJob : jstr → job_result) (fuel : nat) (d : files) (s : state) :
  syncHubSpotPropertiesFromBigQuery cfg update settles readFileSync createQueryJob
    fuel d = Some (Returns s) →
  (apply cfg = true →
   attempted (summary_of cfg s) =
     updated (summary_of cfg s) + length (s_errors (summary_of cfg s)) ∧
   length (requests s) = attempted (summary_of cfg s)) ∧
  (apply cfg = false →
   requests s = [] ∧ updated (summary_of cfg s) = 0 ∧
   s_errors (summary_of cfg s) = []).
Proof.
  intros [[t [=]]|[j Hp]]%sync_outcome. simpl.
  assert (kept cfg update settles
            (λ s, (apply cfg = true →
                   totalAttempted s = totalUpdated s + length (errors s) ∧
                   length (requests s) = totalAttempted s) ∧
                  (apply cfg = false →
                   requests s = [] ∧ totalUpdated s = 0 ∧ errors s = [])))
    as HI.
  { split_and!.
    - intros r t b Ht. unfold scan_row. case_bool_decide; [done|].
      destruct (_ && _); [done|]. by case_bool_decide.
    - intros wave t [Ha Hd]. unfold wave_step.
      destruct (apply cfg) eqn:Happly; cbn [negb].
      + split; [|done]. intros _. destruct (Ha eq_refl) as [Ha1 Ha2].
        unfold apply_wave.
        destruct (runWithConcurrency_done cfg update settles wave t)
          as (n & rows & t' & Hn & -> & -> & Hperm & Hlen & Hr & Hat & Hu & He & _).
        destruct (audit_lines_count _ _ Hperm) as [Hcount _].
        assert (totalAttempted t' = totalUpdated t' + length (errors t') ∧
                length (requests t') = totalAttempted t') as H.
        { rewrite Hat, Hu, He, Hr, !length_app, length_fmap, length_take. lia. }
        by destruct (_ && _).
      + split; [done|]. intros _. rewrite dry_run_wave_dried. simpl. by apply Hd.
    - done. }
  apply (pages_kept cfg update settles _ HI j fuel _ _ Hp).
  split; [|done]. intros _. simpl. split; reflexivity.
Qed.

(** X6. With an audit path, a run that returns has added to the audit file
    one line for each attempt, after the lines that were there: DRY_RUN
    lines in a dry run, UPDATED or ERROR lines in apply mode.  Without an
    audit path the file is not touched. *)
Theorem audit_line_per_attempt (cfg : config)
    (update : list call → call → update_result) (settles : pool → nat)
    (readFileSync : jstr → read_result) (createQueryJob : jstr → job_result)
    (fuel : nat) (d : files) (s : state) :
  syncHubSpotPropertiesFromBigQuery cfg update settles readFileSync createQueryJob
    fuel d = Some (Returns s) →
  if falsy (outputCsvPath cfg) then csv_file (disk s) = csv_file d
  else
    ∃ lines : list audit,
      data_lines (disk s) = data_lines d ++ lines ∧
      length lines = attempted (summary_of cfg s) ∧
      Forall (λ a, a_status a = DRY_RUN ↔ apply cfg = false) lines.
Proof.
  intros [[t [=]]|[j Hp]]%sync_outcome. simpl.
  assert (∀ set d', data_lines (saveCheckpoint (checkpointPath cfg) set d') =
                    data_lines d') as Hsave.
  { intros set d'. unfold saveCheckpoint, data_lines. by destruct (falsy _). }
  assert (∀ d' rows, data_lines (writeCsvAppend d' rows) = data_lines d' ++ rows)
    as Hwrite.
  { intros d' rows. apply data_lines_writeCsvAppend. }
  assert (∀ set d', csv_file (saveCheckpoint (checkpointPath cfg) set d') =
                    csv_file d') as Hsave'.
  { intros set d'. unfold saveCheckpoint. by destruct (falsy _). }
  destruct (falsy (outputCsvPath cfg)) eqn:Hcsv.
  - assert (kept cfg update settles (λ s, csv_file (disk s) = csv_file d)) as HI.
    { split_and!.
      - intros r t b Ht. unfold scan_row. case_bool_decide; [done|].
        destruct (_ && _); [done|]. by case_bool_decide.
      - intros wave t Ht. unfold wave_step. destruct (negb (apply cfg)).
        + rewrite dry_run_wave_dried. unfold dried. cbn [disk].
          by rewrite Hsave', Hcsv.
        + unfold apply_wave.
          destruct (runWithConcurrency_done cfg update settles wave t)
            as (n & rows & t' & _ & -> & -> & _ & _ & _ & _ & _ & _ & _ & Hd & _).
          rewrite Hcsv. cbn [negb andb disk set_disk]. by rewrite Hsave', Hd.
      - done. }
    by apply (pages_kept cfg update settles _ HI j fuel _ _ Hp).
  - assert (kept cfg update settles
              (λ s, ∃ lines, data_lines (disk s) = data_lines d ++ lines ∧
                      length lines = totalAttempted s ∧
                      Forall (λ a, a_status a = DRY_RUN ↔ apply cfg = false) lines))
      as HI.
    { split_and!.
      - intros r t b Ht. unfold scan_row. case_bool_decide; [done|].
        destruct (_ && _); [done|]. by case_bool_decide.
      - intros wave t (lines & Hl & Hn & Hst). unfold wave_step.
        destruct (apply cfg) eqn:Happly; cbn [negb].
        + unfold apply_wave.
          destruct (runWithConcurrency_done cfg update settles wave t)
            as (n & rows & t' & _ & -> & -> & Hperm & Hlen & _ & Hat & _ & _ & _
                & Hd & _).
          destruct (audit_lines_count _ _ Hperm) as [_ Hnot].
          exists (lines ++ rows).
          assert (Forall (λ a, a_status a = DRY_RUN ↔ true = false) (lines ++ rows))
            as HF.
          { apply Forall_app. split; [done|].
            eapply Forall_impl; [exact Hnot|]. intros a Ha. by split. }
          rewrite Hcsv. cbn [negb andb].
          case_bool_decide as Hrows;
            cbn [negb disk set_disk processed totalAttempted];
            rewrite Hsave, ?Hwrite, Hd, Hl, Hat.
          * subst rows. rewrite app_nil_r in *. simpl in *.
            split_and!; [done | lia | done].
          * rewrite <- app_assoc, length_app. split_and!; [done | lia | done].
        + rewrite dry_run_wave_dried. unfold dried.
          cbn [disk totalAttempted]. rewrite Hsave.
          exists (lines ++ (dry_row <$> wave)).
          assert (Forall (λ a, a_status a = DRY_RUN ↔ false = false)
                    (lines ++ (dry_row <$> wave))) as HF.
          { apply Forall_app. split; [done|].
            apply Forall_fmap, Forall_true. by intros w. }
          rewrite Hcsv. cbn [negb andb].
          case_bool_decide as Hwave; cbn [negb]; rewrite ?Hwrite, Hl.
          * subst wave. rewrite app_nil_r in *. simpl.
            split_and!; [done | lia | done].
          * rewrite <- app_assoc, length_app, length_fmap.
            split_and!; [done | lia | done].
      - done. }
    apply (pages_kept cfg update settles _ HI j fuel _ _ Hp).
    exists []. simpl. by rewrite app_nil_r.
Qed.

(** ** The requests of a run *)

Lemma elem_of_slice {A} (l : list A) (a b : Z) (x : A) :
  x ∈ slice l a b → x ∈ l.
Proof.
  unfold slice. intros H.
  apply (subseteq_take _ _) in H. by apply (subseteq_drop _ _) in H.
Qed.

Lemma waves_sent (cfg : config) (update : list call → call → update_result)
    (settles : pool → nat) (fuel : nat) (batchUpdates : list pending) (i : Z)
    (s s' : state) :
  waves cfg update settles fuel batchUpdates i s = Some s' →
  ∃ sent, requests s' = requests s ++ (call_of cfg <$> sent) ∧
          ∀ w, w ∈ sent → w ∈ batchUpdates.
Proof.
  revert i s. induction fuel as [|fuel IH]; intros i s; [done|].
  cbn [waves]. case_bool_decide.
  2:{ intros [= ->]. exists [].
      split; [simpl; by rewrite app_nil_r | by intros w ?%elem_of_nil]. }
  intros (sent & Hr & Hs)%IH.
  set (wave := slice batchUpdates i (i + updateBatchSize cfg)) in *.
  assert (∃ sent1, requests (if bool_decide (wave = []) then s
                             else if negb (apply cfg) then dry_run_wave cfg wave s
                             else apply_wave cfg update settles wave s) =
                   requests s ++ (call_of cfg <$> sent1) ∧
                   ∀ w, w ∈ sent1 → w ∈ batchUpdates) as (sent1 & Hr1 & Hs1).
  { case_bool_decide.
    { exists []. split; [simpl; by rewrite app_nil_r | by intros w ?%elem_of_nil]. }
    destruct (negb (apply cfg)).
    - rewrite dry_run_wave_dried. exists [].
      split; [simpl; by rewrite app_nil_r | by intros w ?%elem_of_nil].
    - unfold apply_wave.
      destruct (runWithConcurrency_done cfg update settles wave s)
        as (n & rows & t' & _ & -> & -> & _ & _ & Hreq & _).
      exists (take n wave). split; [by destruct (_ && _)|].
      intros w Hw. apply (subseteq_take _ _) in Hw. by eapply elem_of_slice. }
  exists (sent1 ++ sent). split.
  - by rewrite Hr, Hr1, fmap_app, app_assoc.
  - intros w [?|?]%elem_of_app; auto.
Qed.

(** X7. A run never sends a request that the CRM could not make sense of:
    every request it has sent when it returns goes to the entry point of
    the configured object, names an identifier that is not empty, and
    carries at least one property, none of them [undefined] or [null], and
    none blank when blanks are dropped. *)
Theorem requests_well_formed (cfg : config)
    (update : list call → call → update_result) (settles : pool → nat)
    (readFileSync : jstr → read_result) (createQueryJob : jstr → job_result)
    (fuel : nat) (d : files) (s : state) :
  syncHubSpotPropertiesFromBigQuery cfg update settles readFileSync createQueryJob
    fuel d = Some (Returns s) →
  Forall (well_formed cfg) (requests s).
Proof.
  intros [[t [=]]|[j Hp]]%sync_outcome. revert Hp. rewrite pages_paging.
  destruct (paging _ _ _ _ _) as [[pgs e]|]; [|done].
  destruct (page_steps cfg update settles pgs (initial cfg d)) as [s'|] eqn:E;
    [|done].
  intros Hs. assert (s' = s) as -> by (by destruct e; injection Hs). clear Hs.
  assert (Forall (well_formed cfg) (requests (initial cfg d))) as H0
    by (simpl; constructor).
  revert E H0. generalize (initial cfg d). clear.
  induction pgs as [|pg pgs IH]; intros a; cbn [page_steps].
  { by intros [= ->]. }
  destruct (page_step cfg update settles pg a) as [a1|] eqn:E1; [|done].
  intros E Ha. apply (IH a1 E). clear IH E.
  revert E1. unfold page_step. case_bool_decide; [by intros [= <-]|].
  unfold page_body.
  pose proof (scan_requests cfg pg.1 (fetched_page (length pg.1) pg.2 a))
    as [Hreq _].
  pose proof (scan_builds cfg pg.1 (fetched_page (length pg.1) pg.2 a) []) as Hb.
  fold (scan cfg pg.1 (fetched_page (length pg.1) pg.2 a)) in Hb.
  destruct (scan cfg pg.1 (fetched_page (length pg.1) pg.2 a)) as [s1 b].
  simpl in Hreq, Hb.
  intros (sent & Hr & Hsent)%waves_sent. rewrite Hr, Hreq.
  apply Forall_app. split; [done|]. apply Forall_fmap, Forall_forall.
  intros w Hw. destruct (Hb w (Hsent w Hw)) as [Hnil|(r & _ & -> & Hid & Hm)].
  { by apply elem_of_nil in Hnil. }
  split_and!; try done.
  intros k v Hk. simpl in Hk. unfold mapped, row_props in Hk.
  destruct (property cfg); apply lookup_clean in Hk as [_ Hk];
    by apply keep_true in Hk.
Qed.

(** ** Rows, skips and attempts *)

Lemma scan_accounts (cfg : config) (rows : list row) (s : state) (b : list pending) :
  totalSkipped (foldl (λ acc r, scan_row cfg r acc) (s, b) rows).1 +
  length (foldl (λ acc r, scan_row cfg r acc) (s, b) rows).2 =
    totalSkipped s + length b + length (identified cfg rows).
Proof.
  revert s b. unfold identified.
  induction rows as [|r rows IH]; intros s b; [simpl; lia|].
  cbn [foldl].
  destruct (decide (row_id (the (matching_id cfg)) r = [])) as [Hnil|Hid].
  { rewrite scan_row_no_id by done. rewrite filter_cons_False by eauto.
    apply IH. }
  rewrite filter_cons_True by done. cbn [length].
  destruct (already_processed_dec cfg r s) as [Hp|Hp].
  { rewrite scan_row_skip by done. rewrite IH. simpl. lia. }
  destruct (decide (mapped cfg r = ∅)) as [Hm|Hm].
  - rewrite scan_row_discard by done. rewrite IH. simpl. lia.
  - rewrite scan_row_enqueue by done. rewrite IH, length_app. simpl. lia.
Qed.

(** X8. Every row that has an identifier is skipped or attempted, once:
    when the updates are dispatched (a positive [updateBatchSize] and, in
    apply mode, a worker at least) a run over pages that are fetched
    without a throw returns with fetched = the rows of the pages and
    skipped + attempted = the rows among them that have an identifier. *)
Theorem rows_skipped_or_attempted (cfg : config)
    (update : list call → call → update_result) (settles : pool → nat)
    (readFileSync : jstr → read_result) (createQueryJob : jstr → job_result)
    (text : jstr) (j : job) (pgs : list (list row * option jstr)) (fuel : nat)
    (d : files) :
  validate cfg = None →
  query cfg readFileSync = Contents text →
  createQueryJob text = Job j →
  (0 < updateBatchSize cfg)%Z →
  apply cfg = false ∨ (1 ≤ updateConcurrency cfg)%Z →
  paging j (pageSize cfg) fuel 0 None = Some (pgs, None) →
  ∃ s : state,
    syncHubSpotPropertiesFromBigQuery cfg update settles readFileSync
      createQueryJob fuel d = Some (Returns s) ∧
    fetched (summary_of cfg s) = length (concat pgs.*1) ∧
    skipped (summary_of cfg s) + attempted (summary_of cfg s) =
      length (identified cfg (concat pgs.*1)).
Proof.
  intros Hv Hq Hjob Hbs Hworkers Hpg.
  rewrite (sync_pages cfg _ _ readFileSync createQueryJob text j) by done.
  rewrite pages_paging. simpl fetches. simpl pageToken. rewrite Hpg.
  assert (∀ a, ∃ s, page_steps cfg update settles pgs a = Some s ∧
            totalFetched s = totalFetched a + length (concat pgs.*1) ∧
            totalSkipped s + totalAttempted s =
              totalSkipped a + totalAttempted a +
              length (identified cfg (concat pgs.*1))) as Hall.
  { clear Hpg. induction pgs as [|pg pgs IH]; intros a.
    { exists a. simpl. split_and!; [done | lia | lia]. }
    cbn [page_steps].
    assert (∃ a1, page_step cfg update settles pg a = Some a1 ∧
              totalFetched a1 = totalFetched a + length pg.1 ∧
              totalSkipped a1 + totalAttempted a1 =
                totalSkipped a + totalAttempted a + length (identified cfg pg.1))
      as (a1 & -> & Hf1 & Hs1).
    { unfold page_step. case_bool_decide as Hlen.
      - apply length_zero_iff_nil in Hlen. rewrite Hlen. eexists. split; [done|].
        simpl. lia.
      - unfold page_body.
        pose proof (scan_accounts cfg pg.1 (fetched_page (length pg.1) pg.2 a) [])
          as Hacc.
        pose proof (scan_requests cfg pg.1 (fetched_page (length pg.1) pg.2 a))
          as (_ & _ & Hatt & _).
        pose proof (scan_grows cfg pg.1 (fetched_page (length pg.1) pg.2 a))
          as [_ _ _ _ Hfet].
        fold (scan cfg pg.1 (fetched_page (length pg.1) pg.2 a)) in Hacc.
        destruct (scan cfg pg.1 (fetched_page (length pg.1) pg.2 a)) as [s1 b].
        destruct (waves_dispatch cfg update settles Hbs Hworkers b s1)
          as (s' & Hw & _ & _ & Hsk & Hat & _).
        exists s'. split; [done|].
        pose proof (waves_grows _ _ _ _ _ _ _ _ Hw) as [_ _ _ _ Hfet'].
        simpl in *. lia. }
    destruct (IH a1) as (s & Hs & Hf & Hsa). exists s. split; [done|].
    rewrite fmap_cons, concat_cons. unfold identified in *.
    rewrite filter_app, !length_app. lia. }
  destruct (Hall (initial cfg d)) as (s & -> & Hf & Hsa).
  exists s. split; [done|]. simpl in *. lia.
Qed.

(** ** Settings that dispatch nothing *)

(** X9. In apply mode with [updateConcurrency] zero or negative no worker
    is started: with a positive [updateBatchSize] the page is gone through,
    but none of its updates is sent, attempted, counted or marked
    processed, no error is recorded and no audit line is written; the
    processed set is the one the scan left. *)
Theorem no_worker_no_update (cfg : config) (update : list call → call → update_result)
    (settles : pool → nat) (rows : list row) (s : state) :
  apply cfg = true → (updateConcurrency cfg ≤ 0)%Z → (0 < updateBatchSize cfg)%Z →
  ∃ s' : state,
    page_body cfg update settles rows s = Some s' ∧
    requests s' = requests s ∧ totalAttempted s' = totalAttempted s ∧
    totalUpdated s' = totalUpdated s ∧ errors s' = errors s ∧
    processed s' = processed (scan cfg rows s).1 ∧
    csv_file (disk s') = csv_file (disk s).
Proof.
  intros Happly HC Hbs. unfold page_body.
  destruct (scan_requests cfg rows s) as (Hr & Hd & Ha & Hu & He).
  destruct (scan cfg rows s) as [s1 b]. simpl in *.
  destruct (waves_rule cfg update settles
              (λ _ t, requests t = requests s1 ∧
                      totalAttempted t = totalAttempted s1 ∧
                      totalUpdated t = totalUpdated s1 ∧ errors t = errors s1 ∧
                      processed t = processed s1 ∧
                      csv_file (disk t) = csv_file (disk s1)) b s1 Hbs)
    as (s' & Hw & H); [done | |].
  - intros done wave t _ (H1 & H2 & H3 & H4 & H5 & H6). unfold wave_step.
    rewrite Happly. cbn [negb]. rewrite apply_wave_no_worker by done. simpl.
    split_and!; try done. unfold saveCheckpoint. by destruct (falsy _).
  - exists s'. split; [done|]. destruct H as (H1 & H2 & H3 & H4 & H5 & H6).
    split_and!; congruence.
Qed.

(** X10. With an [updateBatchSize] that is zero or negative the loop over
    the waves never ends once a page has an update to dispatch: when the
    pages before it are gone through and the scan of the page builds an
    update, the run returns for no amount of fuel. *)
Theorem batch_size_must_be_positive (cfg : config)
    (update : list call → call → update_result) (settles : pool → nat)
    (readFileSync : jstr → read_result) (createQueryJob : jstr → job_result)
    (text : jstr) (j : job) (fuel0 : nat)
    (pre post : list (list row * option jstr)) (rows : list row)
    (tok : option jstr) (e : option js_error) (a : state) (d : files) :
  validate cfg = None →
  query cfg readFileSync = Contents text →
  createQueryJob text = Job j →
  (updateBatchSize cfg ≤ 0)%Z →
  paging j (pageSize cfg) fuel0 0 None = Some (pre ++ (rows, tok) :: post, e) →
  page_steps cfg update settles pre (initial cfg d) = Some a →
  (scan cfg rows (fetched_page (length rows) tok a)).2 ≠ [] →
  ∀ fuel : nat,
    syncHubSpotPropertiesFromBigQuery cfg update settles readFileSync
      createQueryJob fuel d = None.
Proof.
  intros Hv Hq Hjob Hbs Hpg Hpre Hb fuel.
  rewrite (sync_pages cfg _ _ readFileSync createQueryJob text j) by done.
  by apply (pages_diverges cfg update settles j fuel0 _ a pre post rows tok e).
Qed.

(** ** A second run with another dispatch *)

Lemma scan_same (cfg cfg' : config) (rows : list row) (s : state) :
  same_scan cfg cfg' → scan cfg' rows s = scan cfg rows s.
Proof.
  intros (Hm & Hp & Hc & Hd & Hk). unfold scan.
  generalize (s, @nil pending). clear s.
  induction rows as [|r rows IH]; intros acc; [done|]. cbn [foldl].
  rewrite IH. f_equal. destruct acc as [s b]. unfold scan_row.
  by rewrite Hm, Hp, Hc, Hd, Hk.
Qed.

Lemma same_scan_with_dispatch (apply_ : bool) (batch concurrency : Z) (cfg : config) :
  same_scan cfg (with_dispatch apply_ batch concurrency cfg).
Proof. by split_and!. Qed.

Section Idle.

Variable cfg : config.
Variable update : list call → call → update_result.
Variable settles : pool → nat.

Hypothesis Hbs : (0 < updateBatchSize cfg)%Z.
Hypothesis Hworkers : apply cfg = false ∨ (1 ≤ updateConcurrency cfg)%Z.

(** A page adds to the attempts the number of the updates it has built. *)
Lemma page_step_attempted (pg : list row * option jstr) (a a' : state) :
  page_step cfg update settles pg a = Some a' →
  totalAttempted a' =
    totalAttempted a +
    length (scan cfg pg.1 (fetched_page (length pg.1) pg.2 a)).2.
Proof using Hbs Hworkers.
  unfold page_step. case_bool_decide as Hlen.
  { apply length_zero_iff_nil in Hlen. rewrite Hlen. intros [= <-]. simpl. lia. }
  unfold page_body.
  destruct (scan_requests cfg pg.1 (fetched_page (length pg.1) pg.2 a))
    as (_ & _ & Ha & _).
  destruct (scan cfg pg.1 (fetched_page (length pg.1) pg.2 a)) as [t b].
  destruct (waves_dispatch cfg update settles Hbs Hworkers b t)
    as (s' & Hw & _ & _ & _ & Hat & _).
  rewrite Hw. intros [= <-]. simpl in *. lia.
Qed.

Lemma page_steps_attempted (pgs : list (list row * option jstr)) (a s : state) :
  page_steps cfg update settles pgs a = Some s →
  totalAttempted a ≤ totalAttempted s.
Proof using Hbs Hworkers.
  revert a. induction pgs as [|pg pgs IH]; intros a; cbn [page_steps].
  - by intros [= ->].
  - destruct (page_step cfg update settles pg a) as [a'|] eqn:E; [|done].
    intros H%IH. apply page_step_attempted in E. lia.
Qed.

(** Pages that attempt nothing go the same way whatever the dispatch. *)
Lemma page_steps_idle (cfg' : config) (update' : list call → call → update_result)
    (settles' : pool → nat) (pgs : list (list row * option jstr)) (a s : state) :
  same_scan cfg cfg' →
  page_steps cfg update settles pgs a = Some s →
  totalAttempted s = totalAttempted a →
  page_steps cfg' update' settles' pgs a = Some s.
Proof using Hbs Hworkers.
  intros Hsame. revert a. induction pgs as [|pg pgs IH]; intros a; cbn [page_steps].
  - done.
  - destruct (page_step cfg update settles pg a) as [a'|] eqn:E; [|done].
    intros H Hat. pose proof (page_step_attempted _ _ _ E) as Ha.
    pose proof (page_steps_attempted _ _ _ H) as Hle.
    assert ((scan cfg pg.1 (fetched_page (length pg.1) pg.2 a)).2 = []) as Hb.
    { apply length_zero_iff_nil. lia. }
    assert (page_step cfg' update' settles' pg a = Some a') as ->.
    { revert E. unfold page_step. case_bool_decide; [done|].
      destruct (page_body_no_update cfg update settles pg.1
                  (fetched_page (length pg.1) pg.2 a) Hb) as [-> _].
      destruct (page_body_no_update cfg' update' settles' pg.1
                  (fetched_page (length pg.1) pg.2 a)) as [-> _].
      { by rewrite (scan_same cfg cfg'). }
      by rewrite (scan_same cfg cfg'). }
    apply IH; [done|]. lia.
Qed.

End Idle.

(** X11. A dry run uses up the identifiers.  Let a dry run return, with
    [skipAlreadyProcessed] set, a checkpoint path and a positive
    [updateBatchSize]: it has sent no request.  A run of the same query in
    apply mode on the files it left, whatever its [updateBatchSize] and
    [updateConcurrency], returns as well and sends no request either: every
    row with an identifier is counted as skipped. *)
Theorem dry_run_uses_up_identifiers (cfg : config)
    (update1 update2 : list call → call → update_result)
    (settles1 settles2 : pool → nat) (readFileSync : jstr → read_result)
    (createQueryJob : jstr → job_result) (text : jstr) (j : job)
    (pgs : list (list row * option jstr)) (fuel : nat) (d : files)
    (batch concurrency : Z) :
  validate cfg = None →
  query cfg readFileSync = Contents text →
  createQueryJob text = Job j →
  apply cfg = false →
  skipAlreadyProcessed cfg = true →
  falsy (checkpointPath cfg) = false →
  (0 < updateBatchSize cfg)%Z →
  paging j (pageSize cfg) fuel 0 None = Some (pgs, None) →
  ∃ s1 s2 : state,
    syncHubSpotPropertiesFromBigQuery cfg update1 settles1 readFileSync
      createQueryJob fuel d = Some (Returns s1) ∧
    requests s1 = [] ∧
    syncHubSpotPropertiesFromBigQuery (with_dispatch true batch concurrency cfg)
      update2 settles2 readFileSync createQueryJob fuel (disk s1) =
      Some (Returns s2) ∧
    requests s2 = [] ∧ totalAttempted s2 = 0 ∧
    totalSkipped s2 = length (identified cfg (concat pgs.*1)).
Proof.
  intros Hv Hq Hjob Hdry Hskip Hpath Hbs Hpg.
  assert (apply cfg = false ∨ (1 ≤ updateConcurrency cfg)%Z) as Hworkers
    by by left.
  destruct (page_steps_total cfg update1 settles1 pgs (initial cfg d) Hbs)
    as [s1 Hs1].
  destruct (page_steps_stored cfg update1 settles1 pgs (initial cfg d) s1 Hs1)
    as [_ Hmono]; [done|].
  destruct (page_steps_rerun cfg Hskip update1 update2 settles1 settles2
              Hpath Hbs Hworkers pgs (initial cfg d) (initial cfg (disk s1)) s1)
    as (s2 & Hs2 & Hr & Ha & _ & _ & _ & Hsk); try done.
  apply (page_steps_idle cfg update2 settles2 Hbs Hworkers
           (with_dispatch true batch concurrency cfg) update2 settles2)
    in Hs2; [|apply same_scan_with_dispatch|done].
  assert (requests s1 = []) as Hr1.
  { apply (page_steps_kept cfg update1 settles1 (λ t, requests t = []))
      with (pgs := pgs) (s := initial cfg d); [|done|done].
    split_and!.
    - intros r t b Ht. unfold scan_row. case_bool_decide; [done|].
      destruct (_ && _); [done|]. by case_bool_decide.
    - intros wave t Ht. unfold wave_step. rewrite Hdry. cbn [negb].
      by rewrite dry_run_wave_dried.
    - done. }
  exists s1, s2.
  rewrite (sync_pages cfg _ _ readFileSync createQueryJob text j) by done.
  rewrite (sync_pages (with_dispatch true batch concurrency cfg) _ _
             readFileSync createQueryJob text j) by done.
  rewrite !pages_paging. simpl fetches. simpl pageToken.
  change (pageSize (with_dispatch true batch concurrency cfg)) with (pageSize cfg).
  change (initial (with_dispatch true batch concurrency cfg) (disk s1))
    with (initial cfg (disk s1)).
  rewrite Hpg, Hs1, Hs2. simpl in *. done.
Qed.

(** ** The order in which the calls come back *)

Lemma same_up_to_order_refl (cfg : config) (s : state) : same_up_to_order cfg s s.
Proof.
  unfold same_up_to_order. by split_and!.
Qed.

Lemma loadCheckpoint_save (path : option jstr) (set : gset jstr) (d : files) :
  loadCheckpoint path (saveCheckpoint path set d) =
    if falsy path then ∅ else set.
Proof.
  destruct (falsy path) eqn:E.
  - unfold loadCheckpoint. by rewrite E.
  - by apply loadCheckpoint_saveCheckpoint.
Qed.

Lemma csv_file_save (path : option jstr) (set : gset jstr) (d : files) :
  csv_file (saveCheckpoint path set d) = csv_file d.
Proof. unfold saveCheckpoint. by destruct (falsy path). Qed.

Lemma writeCsvAppend_perm (d d' : files) (rows rows' : list audit) :
  option_Forall2 (≡ₚ) (csv_file d') (csv_file d) → rows' ≡ₚ rows →
  option_Forall2 (≡ₚ) (csv_file (writeCsvAppend d' rows'))
    (csv_file (writeCsvAppend d rows)).
Proof.
  intros H Hr.
  assert (bool_decide (rows' = []) = bool_decide (rows = [])) as Hnil.
  { apply bool_decide_ext. split; intros ->.
    - by apply Permutation_nil_l in Hr.
    - by apply Permutation_nil_r in Hr. }
  destruct (csv_file d') as [l'|] eqn:E', (csv_file d) as [l|] eqn:E;
    inversion H as [? ? Hl|]; subst.
  - rewrite (writeCsvAppend_exists d' l'), (writeCsvAppend_exists d l) by done.
    constructor. rewrite Hnil. destruct (bool_decide (rows = [])); by rewrite Hl, ?Hr.
  - unfold writeCsvAppend. rewrite E, E'. simpl. constructor.
    by rewrite Hr.
Qed.

Section Order.

Variable cfg : config.
Variable update : list call → call → update_result.
Variable settles1 settles2 : pool → nat.

Lemma scan_row_order (r : row) (s s' : state) (b : list pending) :
  same_up_to_order cfg s s' →
  same_up_to_order cfg (scan_row cfg r (s, b)).1 (scan_row cfg r (s', b)).1 ∧
  (scan_row cfg r (s', b)).2 = (scan_row cfg r (s, b)).2.
Proof.
  intros H. pose proof H as (Hp & _). unfold scan_row. rewrite Hp.
  case_bool_decide; [done|].
  destruct (_ && _); [|case_bool_decide]; (split; [|done]);
    unfold same_up_to_order, stored in *; simpl; destruct_and!;
    split_and!; congruence.
Qed.

Lemma scan_order (rows : list row) (s s' : state) :
  same_up_to_order cfg s s' →
  same_up_to_order cfg (scan cfg rows s).1 (scan cfg rows s').1 ∧
  (scan cfg rows s').2 = (scan cfg rows s).2.
Proof.
  unfold scan. generalize (@nil pending). revert s s'.
  induction rows as [|r rows IH]; intros s s' b H; [done|]. cbn [foldl].
  destruct (scan_row_order r s s' b H) as [H1 H2].
  destruct (scan_row cfg r (s, b)) as [t c], (scan_row cfg r (s', b)) as [t' c'].
  simpl in *. subst c'. by apply IH.
Qed.

Lemma dried_order (wave : list pending) (s s' : state) :
  same_up_to_order cfg s s' →
  same_up_to_order cfg (dried cfg wave s) (dried cfg wave s').
Proof.
  intros (Hp & Ht & Hf & Ha & Hu & Hsk & Hr & Hfe & He & Hst & Hcsv).
  unfold same_up_to_order, stored, dried. simpl.
  rewrite !loadCheckpoint_save, !csv_file_save, Hp.
  split_and!; try congruence.
  destruct (_ && _); [by apply writeCsvAppend_perm|done].
Qed.

Lemma applied_order (wave : list pending) (rows rows' : list audit) (s s' : state) :
  same_up_to_order cfg s s' → rows' ≡ₚ rows →
  same_up_to_order cfg (applied cfg wave rows s) (applied cfg wave rows' s').
Proof.
  intros (Hp & Ht & Hf & Ha & Hu & Hsk & Hr & Hfe & He & Hst & Hcsv) Hperm.
  assert (list_to_set (C := gset jstr) (matchVal <$> rows') =
          list_to_set (matchVal <$> rows)) as Hset.
  { apply list_to_set_perm_L. by rewrite Hperm. }
  assert (bool_decide (rows' = []) = bool_decide (rows = [])) as Hnil.
  { apply bool_decide_ext. split; intros ->.
    - by apply Permutation_nil_l in Hperm.
    - by apply Permutation_nil_r in Hperm. }
  unfold same_up_to_order, stored, applied. simpl.
  rewrite !loadCheckpoint_save, !csv_file_save, Hp, Hset, Hnil.
  split_and!; try congruence.
  - by rewrite Hu, Hperm.
  - by rewrite He, Hperm.
  - destruct (_ && _); [by apply writeCsvAppend_perm|done].
Qed.

Lemma wave_step_order (wave : list pending) (s s' : state) :
  same_up_to_order cfg s s' →
  same_up_to_order cfg (wave_step cfg update settles1 wave s)
    (wave_step cfg update settles2 wave s').
Proof.
  intros H. unfold wave_step. destruct (negb (apply cfg)).
  { rewrite !dry_run_wave_dried. by apply dried_order. }
  destruct (decide (1 ≤ updateConcurrency cfg)%Z) as [HC|HC].
  - destruct (apply_wave_applied cfg update settles1 wave s HC) as (r1 & H1 & ->).
    destruct (apply_wave_applied cfg update settles2 wave s' HC) as (r2 & H2 & ->).
    apply applied_order; [done|].
    destruct H as (_ & _ & _ & _ & _ & _ & Hr & _). by rewrite H1, H2, Hr.
  - rewrite !apply_wave_no_worker by lia.
    destruct H as (Hp & Ht & Hf & Ha & Hu & Hsk & Hr & Hfe & He & Hst & Hcsv).
    unfold same_up_to_order, stored. simpl.
    rewrite !loadCheckpoint_save, !csv_file_save, Hp. by split_and!.
Qed.

Lemma waves_order (fuel : nat) (b : list pending) (i : Z) (s s' : state) :
  same_up_to_order cfg s s' →
  match waves cfg update settles1 fuel b i s,
        waves cfg update settles2 fuel b i s' with
  | Some t, Some t' => same_up_to_order cfg t t'
  | None, None => True
  | _, _ => False
  end.
Proof.
  revert i s s'. induction fuel as [|fuel IH]; intros i s s' H; [done|].
  cbn [waves]. case_bool_decide; [|done]. apply IH.
  case_bool_decide; [done|]. by apply wave_step_order.
Qed.

Lemma pages_order (j : job) (fuel : nat) (s s' : state) :
  same_up_to_order cfg s s' →
  match pages cfg update settles1 j fuel s, pages cfg update settles2 j fuel s' with
  | Some o, Some o' => same_outcome cfg o o'
  | None, None => True
  | _, _ => False
  end.
Proof.
  revert s s'. induction fuel as [|fuel IH]; intros s s' H; [done|].
  cbn [pages]. pose proof H as (_ & Ht & _ & _ & _ & _ & _ & Hfe & _).
  rewrite Ht, Hfe.
  destruct (fetchBigQueryPage j (fetches s) (pageToken s) (pageSize cfg))
    as [e|[rows tok]]; [done|].
  assert (same_up_to_order cfg (fetched_page (length rows) tok s)
            (fetched_page (length rows) tok s')) as H'.
  { destruct H as (Hp & _ & Hf & Ha & Hu & Hsk & Hr & _ & He & Hst & Hcsv).
    unfold same_up_to_order, stored in *. simpl. split_and!; congruence. }
  case_bool_decide; [done|]. unfold page_body.
  destruct (scan_order rows _ _ H') as [H1 H2].
  destruct (scan cfg rows (fetched_page (length rows) tok s)) as [t b],
           (scan cfg rows (fetched_page (length rows) tok s')) as [t' b'].
  cbn [fst snd] in *. subst b'.
  pose proof (waves_order (S (length b)) b 0 t t' H1) as Hw.
  destruct (waves cfg update settles1 (S (length b)) b 0 t) as [u|],
           (waves cfg update settles2 (S (length b)) b 0 t') as [u'|]; try done.
  pose proof Hw as (_ & -> & _). destruct (falsy (pageToken u)); [done|].
  by apply IH.
Qed.

End Order.

(** X12. The order in which the calls of a wave come back does not change
    what a run does: the answer to a request depending on the requests sent
    before it, a run under another order of completion ends the same way,
    with the same requests in the same order, the same counters, the same
    processed set and the same identifiers in the checkpoint file; only
    the order of the entries of [errors] and of the lines of the audit
    file may differ. *)
Theorem completion_order_is_immaterial (cfg : config)
    (update : list call → call → update_result) (settles1 settles2 : pool → nat)
    (readFileSync : jstr → read_result) (createQueryJob : jstr → job_result)
    (fuel : nat) (d : files) (o : outcome) :
  syncHubSpotPropertiesFromBigQuery cfg update settles1 readFileSync
    createQueryJob fuel d = Some o →
  ∃ o' : outcome,
    syncHubSpotPropertiesFromBigQuery cfg update settles2 readFileSync
      createQueryJob fuel d = Some o' ∧
    same_outcome cfg o o'.
Proof.
  unfold syncHubSpotPropertiesFromBigQuery.
  destruct (validate cfg); [intros [= <-]; by eexists|].
  destruct (query cfg readFileSync); [intros [= <-]; by eexists|].
  destruct (createQueryJob text) as [e|j]; [intros [= <-]; by eexists|].
  pose proof (pages_order cfg update settles1 settles2 j fuel _ _
                (same_up_to_order_refl cfg (initial cfg d))) as H.
  intros Ho. rewrite Ho in H.
  destruct (pages cfg update settles2 j fuel (initial cfg d)) as [o'|]; [|done].
  by exists o'.
Qed.

(** ** The requests to the warehouse *)

Lemma paging_some (j : job) (pageSize : Z) (fuel n : nat) (first : option jstr) :
  paging j pageSize fuel n first ≠ Some ([], None).
Proof.
  destruct fuel as [|fuel]; [done|]. cbn [paging].
  destruct (fetchBigQueryPage _ _ _ _) as [?|[rows tok]]; [done|].
  case_bool_decide; [done|]. destruct (falsy tok); [done|].
  by destruct (paging _ _ _ _ _) as [[? ?]|].
Qed.

Lemma paging_chain (j : job) (pageSize : Z) (fuel n : nat) (first : option jstr)
    (pgs : list (list row * option jstr)) (e : option js_error) :
  paging j pageSize fuel n first = Some (pgs, e) →
  first ≠ Some [] →
  length pgs ≤ fuel ∧
  ∀ k rows tok, pgs !! k = Some (rows, tok) →
    tok ≠ Some [] ∧
    (∃ raw, j (n + k) {| maxResults := pageSize;
                         opt_pageToken := token_before first pgs k |} =
              Page rows raw ∧
            tok = if falsy raw then None else raw) ∧
    (S k < length pgs → rows ≠ [] ∧ tok ≠ None) ∧
    (S k = length pgs → e = None → rows = [] ∨ tok = None).
Proof.
  revert n first pgs e. induction fuel as [|fuel IH]; intros n first pgs e; [done|].
  cbn [paging]. unfold fetchBigQueryPage.
  intros H Hfirst.
  assert ((if falsy first then None else first) = first) as Hf.
  { by destruct first as [[|c t]|]. }
  rewrite Hf in H.
  destruct (j n {| maxResults := pageSize; opt_pageToken := first |})
    as [err|rows raw] eqn:Hj.
  { injection H as <- <-. split; [simpl; lia|]. intros k rows' tok' Hk. by rewrite lookup_nil in Hk. }
  set (next := if falsy raw then None else raw) in *.
  assert (next ≠ Some []) as Hnext.
  { unfold next. by destruct raw as [[|c t]|]. }
  assert (∀ k rows' tok', [(rows, next)] !! k = Some (rows', tok') →
            k = 0 ∧ rows' = rows ∧ tok' = next) as Hone.
  { intros [|k] rows' tok' [=]; by subst. }
  case_bool_decide as Hlen.
  { injection H as <- <-. split; [simpl; lia|].
    intros k rows' tok' (-> & -> & ->)%Hone. rewrite Nat.add_0_r.
    split_and!; [done | by exists raw | simpl; lia |].
    intros _ _. left. by apply length_zero_iff_nil. }
  destruct (falsy next) eqn:Hfalsy.
  { injection H as <- <-. split; [simpl; lia|].
    intros k rows' tok' (-> & -> & ->)%Hone. rewrite Nat.add_0_r.
    split_and!; [done | by exists raw | simpl; lia |].
    intros _ _. right. by destruct next as [[|c t]|]. }
  destruct (paging j pageSize fuel (S n) next) as [[pgs' e']|] eqn:Hrec; [|done].
  injection H as <- <-.
  destruct (IH _ _ _ _ Hrec Hnext) as [Hle Hall].
  split; [simpl; lia|].
  intros [|k] rows' tok' Hk.
  - injection Hk as <- <-. rewrite Nat.add_0_r.
    split_and!; [done | by exists raw | |].
    + intros _. split; [by intros ->|]. by intros Hn; rewrite Hn in Hfalsy.
    + simpl. intros [= Hnil] ->. destruct pgs' as [|pg pgs']; [|done].
      by apply paging_some in Hrec.
  - cbn [lookup list_lookup] in Hk.
    destruct (Hall k rows' tok' Hk) as (H1 & (raw' & H2 & H3) & H4 & H5).
    replace (n + S k) with (S n + k) by lia.
    assert (token_before first ((rows, next) :: pgs') (S k) =
            token_before next pgs' k) as ->.
    { by destruct k. }
    split_and!; [done | by exists raw' | |].
    + simpl. intros ?. apply H4. lia.
    + simpl. intros [= ?]. by apply H5.
Qed.

(** X13. Each page is asked for with the token the page before it came
    with, and with [maxResults] = [pageSize].  The first request carries no
    token; the token of a response is kept when it is a non-empty string
    and dropped otherwise, so that an empty token is never sent and ends
    the loop as a missing one does; every page but the last has rows and
    a token, and when no fetch throws the last page has no rows or no
    token. *)
Theorem page_asked_with_previous_token (j : job) (pageSize : Z) (fuel : nat)
    (pgs : list (list row * option jstr)) (e : option js_error) :
  paging j pageSize fuel 0 None = Some (pgs, e) →
  ∀ (k : nat) (rows : list row) (tok : option jstr),
    pgs !! k = Some (rows, tok) →
    token_before None pgs k ≠ Some [] ∧
    (∃ raw : option jstr,
       j k {| maxResults := pageSize; opt_pageToken := token_before None pgs k |} =
         Page rows raw ∧
       tok = if falsy raw then None else raw) ∧
    (S k < length pgs → rows ≠ [] ∧ tok ≠ None) ∧
    (S k = length pgs → e = None → rows = [] ∨ tok = None).
Proof.
  intros H k rows tok Hk.
  destruct (paging_chain j pageSize fuel 0 None pgs e H) as [_ Hall]; [done|].
  destruct (Hall k rows tok Hk) as (_ & H2 & H3 & H4).
  split_and!; try done.
  destruct k as [|k]; [done|]. simpl.
  destruct (pgs !! k) as [[rows' tok']|] eqn:Hk'; [|done]. simpl.
  by destruct (Hall k rows' tok' Hk') as (? & _).
Qed.

(** ** The entry point of the CRM *)

(** X14. [updateSingleByObjectType] sends two object types to two entry
    points: the four named types have each their own one, and the generic
    entry point is used with the name of the type for the others only. *)
Theorem route_injective (object1 object2 : jstr) :
  (route object1 = route object2 → object1 = object2) ∧
  (∀ objectType : jstr,
     route object1 = Objects objectType →
     objectType = object1 ∧
     object1 ∉ [lit "contacts"; lit "companies"; lit "deals"; lit "tickets"]).
Proof.
  split.
  - unfold route. repeat case_bool_decide; congruence.
  - intros t. unfold route. repeat case_bool_decide; try done.
    intros [= <-]. split; [done|]. rewrite !elem_of_cons, elem_of_nil. tauto.
Qed.

(** ** Without the skip of processed identifiers *)

Lemma scan_without_skip (cfg : config) (rows : list row) (s : state)
    (b : list pending) :
  skipAlreadyProcessed cfg = false →
  (foldl (λ acc r, scan_row cfg r acc) (s, b) rows).2 =
    b ++ (update_of cfg <$> updatable cfg rows).
Proof.
  intros Hskip. revert s b. unfold updatable.
  induction rows as [|r rows IH]; intros s b; [simpl; by rewrite app_nil_r|].
  cbn [foldl].
  assert (¬ already_processed cfg r s) as Hp.
  { intros [H _]. congruence. }
  destruct (decide (row_id (the (matching_id cfg)) r = [])) as [Hnil|Hid].
  { rewrite scan_row_no_id by done. rewrite filter_cons_False by tauto. apply IH. }
  destruct (decide (mapped cfg r = ∅)) as [Hm|Hm].
  - rewrite scan_row_discard by done. rewrite filter_cons_False by tauto. apply IH.
  - rewrite scan_row_enqueue by done. rewrite filter_cons_True by done.
    rewrite IH, fmap_cons, <- app_assoc. done.
Qed.

(** X15. With [skipAlreadyProcessed] off the checkpoint file has no say:
    whatever it holds, a run whose updates are dispatched attempts every row
    that has an identifier and keeps a property, in the order of the
    stream and as many times as the row comes; in apply mode these are its
    requests. *)
Theorem without_skip_every_row_is_sent (cfg : config)
    (update : list call → call → update_result) (settles : pool → nat)
    (readFileSync : jstr → read_result) (createQueryJob : jstr → job_result)
    (text : jstr) (j : job) (pgs : list (list row * option jstr)) (fuel : nat)
    (d : files) :
  validate cfg = None →
  query cfg readFileSync = Contents text →
  createQueryJob text = Job j →
  skipAlreadyProcessed cfg = false →
  (0 < updateBatchSize cfg)%Z →
  apply cfg = false ∨ (1 ≤ updateConcurrency cfg)%Z →
  paging j (pageSize cfg) fuel 0 None = Some (pgs, None) →
  ∃ s : state,
    syncHubSpotPropertiesFromBigQuery cfg update settles readFileSync
      createQueryJob fuel d = Some (Returns s) ∧
    attempted (summary_of cfg s) = length (updatable cfg (concat pgs.*1)) ∧
    requests s =
      if apply cfg
      then call_of cfg <$> (update_of cfg <$> updatable cfg (concat pgs.*1))
      else [].
Proof.
  intros Hv Hq Hjob Hskip Hbs Hworkers Hpg.
  rewrite (sync_pages cfg _ _ readFileSync createQueryJob text j) by done.
  rewrite pages_paging. simpl fetches. simpl pageToken. rewrite Hpg.
  assert (∀ a, ∃ s, page_steps cfg update settles pgs a = Some s ∧
            totalAttempted s =
              totalAttempted a + length (updatable cfg (concat pgs.*1)) ∧
            requests s =
              requests a ++
              (if apply cfg
               then call_of cfg <$> (update_of cfg <$> updatable cfg (concat pgs.*1))
               else [])) as Hall.
  { clear Hpg. induction pgs as [|pg pgs IH]; intros a.
    { exists a. simpl. split_and!; [done | lia |].
      destruct (apply cfg); by rewrite app_nil_r. }
    cbn [page_steps].
    assert (∃ a1, page_step cfg update settles pg a = Some a1 ∧
              totalAttempted a1 = totalAttempted a + length (updatable cfg pg.1) ∧
              requests a1 =
                requests a ++
                (if apply cfg
                 then call_of cfg <$> (update_of cfg <$> updatable cfg pg.1)
                 else []))
      as (a1 & -> & Ha1 & Hr1).
    { unfold page_step. case_bool_decide as Hlen.
      - apply length_zero_iff_nil in Hlen. rewrite Hlen. eexists. split; [done|].
        simpl. split; [lia|]. destruct (apply cfg); by rewrite app_nil_r.
      - unfold page_body.
        pose proof (scan_without_skip cfg pg.1
                      (fetched_page (length pg.1) pg.2 a) [] Hskip) as Hb.
        pose proof (scan_requests cfg pg.1 (fetched_page (length pg.1) pg.2 a))
          as (Hreq & _ & Hatt & _).
        fold (scan cfg pg.1 (fetched_page (length pg.1) pg.2 a)) in Hb.
        destruct (scan cfg pg.1 (fetched_page (length pg.1) pg.2 a)) as [s1 b].
        destruct (waves_dispatch cfg update settles Hbs Hworkers b s1)
          as (s' & Hw & _ & Hr & _ & Hat & _).
        exists s'. split; [done|]. cbn [fst snd] in *.
        rewrite app_nil_l in Hb. subst b.
        rewrite Hat, Hr, Hatt, Hreq, length_fmap. by split. }
    destruct (IH a1) as (s & Hs & Ha & Hr). exists s. split; [done|].
    rewrite Ha, Hr, Ha1, Hr1, fmap_cons, concat_cons. unfold updatable.
    rewrite filter_app, length_app. split; [lia|].
    destruct (apply cfg); [|by rewrite !app_nil_r]. by rewrite !fmap_app, app_assoc. }
  destruct (Hall (initial cfg d)) as (s & -> & Ha & Hr).
  exists s. split; [done|]. simpl in *. by rewrite Ha, Hr.
Qed.
(** * The properties at work *)

(** The second contact of the scenario has neither country nor state: its
    row is dropped and the contact is marked processed. *)
Lemma blank_only_row_discarded_witness :
  row_id (the (matching_id (Sample.contacts true))) Sample.row_blank = lit "2" ∧
  (scan_row (Sample.contacts true) Sample.row_blank (Sample.fresh, [])).2 = [] ∧
  totalSkipped (scan_row (Sample.contacts true) Sample.row_blank (Sample.fresh, [])).1 = 1 ∧
  lit "2" ∈ processed (scan_row (Sample.contacts true) Sample.row_blank (Sample.fresh, [])).1.
Proof.
  assert (row_id (the (matching_id (Sample.contacts true))) Sample.row_blank = lit "2")
    as Hid by (vm_compute; reflexivity).
  assert (row_id (the (matching_id (Sample.contacts true))) Sample.row_blank ≠ [])
    as Hne by (rewrite Hid; discriminate).
  assert (row_props (property (Sample.contacts true))
            (column_name (Sample.contacts true)) (dropBlanks (Sample.contacts true))
            Sample.row_blank = ∅) as Hblank by (vm_compute; reflexivity).
  destruct (blank_only_row_discarded (Sample.contacts true) Sample.row_blank
              Sample.fresh [] Hne Hblank) as (H1 & H2 & H3 & _).
  rewrite Hid in H3. split_and!; [exact Hid | exact H1 | exact H2 | exact H3].
Defined.

(** A wave of three contacts whose second call is rejected, the calls coming
    back last first. *)
Lemma failure_isolation_witness :
  totalAttempted (apply_wave (Sample.contacts true) Sample.rejects_3
                    Sample.last_first Sample.wave3 Sample.fresh) = 3 ∧
  totalUpdated (apply_wave (Sample.contacts true) Sample.rejects_3
                  Sample.last_first Sample.wave3 Sample.fresh) = 2 ∧
  errors (apply_wave (Sample.contacts true) Sample.rejects_3
            Sample.last_first Sample.wave3 Sample.fresh) =
    [{| e_matchVal := lit "3"; e_error := lit "boom";
        e_properties := {[ lit "country" := VStr (lit "FR") ]} |}] ∧
  lit "3" ∈ processed (apply_wave (Sample.contacts true) Sample.rejects_3
                         Sample.last_first Sample.wave3 Sample.fresh).
Proof.
  assert (1 ≤ updateConcurrency (Sample.contacts true))%Z as HC by (simpl; lia).
  assert (answers (Sample.contacts true) Sample.rejects_3
            (requests Sample.fresh) Sample.wave3 !! 1 =
          Some (update_of (Sample.contacts true) Sample.row_FR,
                Rejected Sample.boom)) as Hk by (vm_compute; reflexivity).
  assert (∀ j w r, j ≠ 1 →
            answers (Sample.contacts true) Sample.rejects_3
              (requests Sample.fresh) Sample.wave3 !! j = Some (w, r) →
            r = Resolved) as Hothers.
  { intros [|[|[|j]]] w r Hj; vm_compute; intros H; congruence. }
  destruct (failure_isolation (Sample.contacts true) Sample.rejects_3
              Sample.last_first Sample.wave3 1
              (update_of (Sample.contacts true) Sample.row_FR) Sample.boom
              Sample.fresh HC Hk Hothers) as (_ & H1 & H2 & H3 & H4 & _).
  split_and!; [exact H1 | exact H2 | | ].
  - rewrite H3. vm_compute. reflexivity.
  - revert H4. vm_compute. exact id.
Defined.



(** Three pages: 5000 rows, 5000 rows, none, each with a token. *)
Lemma pagination_terminates_witness :
  ∃ s' : state,
    syncHubSpotPropertiesFromBigQuery (Sample.contacts true) Sample.accepts
      Sample.in_order Sample.no_file (λ _, Job Sample.three_pages) 3
      Sample.no_files = Some (Returns s') ∧
    totalFetched s' = 10000 ∧ fetches s' = 3.
Proof.
  apply (proj2 (proj2 (pagination_terminates (Sample.contacts true) Sample.accepts
                         Sample.in_order))
           Sample.no_file (λ _, Job Sample.three_pages)
           (the (sql (Sample.contacts true))) Sample.three_pages
           (replicate 5000 ∅) (replicate 5000 ∅) (lit "t1") (lit "t2")
           (Some (lit "t3")) Sample.no_files 3).
  - vm_compute. reflexivity.
  - vm_compute. reflexivity.
  - reflexivity.
  - simpl. lia.
  - apply length_replicate.
  - apply length_replicate.
  - discriminate.
  - discriminate.
  - reflexivity.
  - reflexivity.
  - reflexivity.
  - lia.
Defined.

(** C6, as it is stated, fails: the only page comes without a token, and
    with an [updateBatchSize] of 0 the page loop does not end, the loop
    over the waves of that page never getting past its one update. *)
Lemma null_token_and_no_end :
  fetchBigQueryPage (Sample.job_of [[Sample.row_US]]) 0 None
    (pageSize (with_dispatch true 0 10 (Sample.contacts true))) =
    inr ([Sample.row_US], None) ∧
  ∀ fuel : nat,
    syncHubSpotPropertiesFromBigQuery
      (with_dispatch true 0 10 (Sample.contacts true)) Sample.accepts
      Sample.in_order Sample.no_file (Sample.warehouse [[Sample.row_US]])
      fuel Sample.no_files = None.
Proof.
  split; [vm_compute; reflexivity|]. intros fuel.
  rewrite (sync_pages (with_dispatch true 0 10 (Sample.contacts true))
             Sample.accepts Sample.in_order Sample.no_file
             (Sample.warehouse [[Sample.row_US]])
             (the (sql (Sample.contacts true)))
             (Sample.job_of [[Sample.row_US]]) fuel Sample.no_files)
    by (vm_compute; reflexivity).
  apply (pages_diverges (with_dispatch true 0 10 (Sample.contacts true))
           Sample.accepts Sample.in_order (Sample.job_of [[Sample.row_US]]) 1
           (initial (with_dispatch true 0 10 (Sample.contacts true)) Sample.no_files)
           (initial (with_dispatch true 0 10 (Sample.contacts true)) Sample.no_files)
           [] [] [Sample.row_US] None None).
  - simpl. lia.
  - vm_compute. reflexivity.
  - reflexivity.
  - vm_compute. discriminate.
Qed.

(** C2, as it is stated, fails.  In the only wave of a page the update of
    the contact 3 is rejected and the other one is accepted; the fetch of
    the next page throws, and the run throws with it: there is no summary.
    And with an [updateBatchSize] of -1 the first wave holds the rejected
    update alone, the loop over the waves does not end after it and the
    run does not return. *)
Lemma one_rejected_call_and_no_summary :
  (∃ s : state,
     syncHubSpotPropertiesFromBigQuery (Sample.contacts true) Sample.rejects_3
       Sample.in_order Sample.no_file
       (λ _, Job (Sample.breaks_after [Sample.row_US; Sample.row_FR]))
       2 Sample.no_files = Some (ThrowsInLoop Sample.boom s) ∧
     totalAttempted s = 2 ∧ totalUpdated s = 1 ∧
     e_matchVal <$> errors s = [lit "3"]) ∧
  slice [update_of (Sample.contacts true) Sample.row_FR;
         update_of (Sample.contacts true) Sample.row_US] 0
    (0 + updateBatchSize (with_dispatch true (-1) 10 (Sample.contacts true))) =
    [update_of (Sample.contacts true) Sample.row_FR] ∧
  ∀ fuel : nat,
    syncHubSpotPropertiesFromBigQuery
      (with_dispatch true (-1) 10 (Sample.contacts true)) Sample.rejects_3
      Sample.in_order Sample.no_file
      (Sample.warehouse [[Sample.row_FR; Sample.row_US]]) fuel Sample.no_files =
      None.
Proof.
  split_and!.
  - eexists. split_and!; vm_compute; reflexivity.
  - vm_compute. reflexivity.
  - intros fuel.
    rewrite (sync_pages (with_dispatch true (-1) 10 (Sample.contacts true))
               Sample.rejects_3 Sample.in_order Sample.no_file
               (Sample.warehouse [[Sample.row_FR; Sample.row_US]])
               (the (sql (Sample.contacts true)))
               (Sample.job_of [[Sample.row_FR; Sample.row_US]]) fuel
               Sample.no_files)
      by (vm_compute; reflexivity).
    apply (pages_diverges (with_dispatch true (-1) 10 (Sample.contacts true))
             Sample.rejects_3 Sample.in_order
             (Sample.job_of [[Sample.row_FR; Sample.row_US]]) 1
             (initial (with_dispatch true (-1) 10 (Sample.contacts true))
                Sample.no_files)
             (initial (with_dispatch true (-1) 10 (Sample.contacts true))
                Sample.no_files)
             [] [] [Sample.row_FR; Sample.row_US] None None).
    + simpl. lia.
    + vm_compute. reflexivity.
    + reflexivity.
    + vm_compute. discriminate.
Qed.

(** C9, as it is stated, fails: the contact 1 comes in three rows of a
    page, the first without a property, the two others with their
    properties; the first row marks the identifier during the scan, the
    two others are skipped, no update is built and no request is sent. *)
Lemma marked_by_a_blank_row :
  row_id (the (matching_id (Sample.contacts true))) Sample.row_US = lit "1" ∧
  row_id (the (matching_id (Sample.contacts true))) Sample.row_blank_1 = lit "1" ∧
  mapped (Sample.contacts true) Sample.row_US ≠ ∅ ∧
  processed Sample.fresh = ∅ ∧
  (scan (Sample.contacts true)
     [Sample.row_blank_1; Sample.row_US; Sample.row_US] Sample.fresh).2 = [] ∧
  ∃ s : state,
    syncHubSpotPropertiesFromBigQuery (Sample.contacts true) Sample.accepts
      Sample.in_order Sample.no_file
      (Sample.warehouse [[Sample.row_blank_1; Sample.row_US; Sample.row_US]])
      2 Sample.no_files = Some (Returns s) ∧
    requests s = [] ∧ totalAttempted s = 0 ∧ totalSkipped s = 3.
Proof.
  split_and!; try (vm_compute; reflexivity).
  - vm_compute. discriminate.
  - eexists. split_and!; vm_compute; reflexivity.
Qed.

(** A property of the three rows of a page. *)
Lemma elem_of_three {A} (P : A → Prop) (a b c : A) :
  P a → P b → P c → ∀ r, r ∈ [] ++ a :: [b] ++ c :: [] → P r.
Proof.
  intros Ha Hb Hc r Hr. cbn [app] in Hr.
  apply elem_of_cons in Hr as [->|Hr]; [done|].
  apply elem_of_cons in Hr as [->|Hr]; [done|].
  apply elem_of_cons in Hr as [->|Hr]; [done|].
  by apply elem_of_nil in Hr.
Qed.

(** The first contact comes twice in a page, around the blank one: two
    updates are built and two requests are sent for it. *)
Lemma duplicates_dispatched_twice_witness :
  ∃ s' : state,
    page_body (Sample.contacts true) Sample.accepts Sample.in_order
      [Sample.row_US; Sample.row_blank; Sample.row_US] Sample.fresh = Some s' ∧
    c_id <$> requests s' = [lit "1"; lit "1"].
Proof.
  assert (row_id (the (matching_id (Sample.contacts true))) Sample.row_US = [49%N])
    as Hid by (vm_compute; reflexivity).
  assert (row_id (the (matching_id (Sample.contacts true))) Sample.row_blank = [50%N])
    as Hid2 by (vm_compute; reflexivity).
  assert (mapped (Sample.contacts true) Sample.row_US ≠ ∅) as Hkeep
    by (vm_compute; discriminate).
  assert (apply (Sample.contacts true) = true) as Happly by reflexivity.
  assert (1 ≤ updateConcurrency (Sample.contacts true))%Z as HC by (simpl; lia).
  assert (0 < updateBatchSize (Sample.contacts true))%Z as Hbs by (simpl; lia).
  assert (row_id (the (matching_id (Sample.contacts true))) Sample.row_US ≠ [])
    as Hne by congruence.
  assert (row_id (the (matching_id (Sample.contacts true))) Sample.row_US ∉
          processed Sample.fresh) as Hfresh.
  { assert (processed Sample.fresh = ∅) as -> by (vm_compute; reflexivity).
    apply not_elem_of_empty. }
  pose proof (elem_of_three
                (λ r, row_id (the (matching_id (Sample.contacts true))) r =
                      row_id (the (matching_id (Sample.contacts true))) Sample.row_US →
                      mapped (Sample.contacts true) r ≠ ∅)
                Sample.row_US Sample.row_blank Sample.row_US
                (λ _, Hkeep) ltac:(congruence) (λ _, Hkeep)) as Hrows.
  pose proof (duplicates_dispatched_twice (Sample.contacts true) Sample.accepts
                Sample.in_order [] [Sample.row_blank] [] Sample.row_US Sample.row_US
                Sample.fresh Happly HC Hbs Hne eq_refl Hfresh Hrows) as H.
  destruct H as (s' & Hs' & _ & _ & _ & _ & Hreq & _).
  exists s'. split; [exact Hs'|]. rewrite Hreq. vm_compute. reflexivity.
Defined.

(** Two pages, three contacts, one of them blank: the second run skips the
    three rows and sends nothing. *)
Lemma rerun_skips_everything_witness :
  ∃ s1 s2 : state,
    syncHubSpotPropertiesFromBigQuery (Sample.contacts true) Sample.accepts
      Sample.in_order Sample.no_file
      (Sample.warehouse [[Sample.row_US; Sample.row_blank]; [Sample.row_FR]])
      3 Sample.no_files = Some (Returns s1) ∧
    syncHubSpotPropertiesFromBigQuery (Sample.contacts true) Sample.rejects_3
      Sample.last_first Sample.no_file
      (Sample.warehouse [[Sample.row_US; Sample.row_blank]; [Sample.row_FR]])
      3 (disk s1) = Some (Returns s2) ∧
    requests s2 = [] ∧ totalSkipped s2 = 3.
Proof.
  destruct (rerun_skips_everything (Sample.contacts true) Sample.accepts
              Sample.rejects_3 Sample.in_order Sample.last_first Sample.no_file
              (Sample.warehouse [[Sample.row_US; Sample.row_blank]; [Sample.row_FR]])
              (the (sql (Sample.contacts true)))
              (Sample.job_of [[Sample.row_US; Sample.row_blank]; [Sample.row_FR]])
              [([Sample.row_US; Sample.row_blank], Some (lit "next"));
               ([Sample.row_FR], None)]
              3 Sample.no_files)
    as (s1 & s2 & H1 & H2 & Hr & _ & _ & _ & Hsk & _).
  - vm_compute. reflexivity.
  - vm_compute. reflexivity.
  - reflexivity.
  - reflexivity.
  - reflexivity.
  - simpl. lia.
  - right. simpl. lia.
  - vm_compute. reflexivity.
  - exists s1, s2. split_and!; [exact H1 | exact H2 | exact Hr |].
    rewrite Hsk. vm_compute. reflexivity.
Defined.

(** C1, as it is stated, fails: a contact that comes twice is updated twice
    by the first run and skipped twice by the second, while one identifier
    only was given an update. *)
Lemma rerun_skipped_counts_rows :
  ∃ s1 s2 : state,
    syncHubSpotPropertiesFromBigQuery (Sample.contacts true) Sample.accepts
      Sample.in_order Sample.no_file
      (Sample.warehouse [[Sample.row_US; Sample.row_US]]) 2 Sample.no_files =
      Some (Returns s1) ∧
    syncHubSpotPropertiesFromBigQuery (Sample.contacts true) Sample.accepts
      Sample.in_order Sample.no_file
      (Sample.warehouse [[Sample.row_US; Sample.row_US]]) 2 (disk s1) =
      Some (Returns s2) ∧
    totalUpdated s1 = 2 ∧
    totalSkipped s2 = 2 ∧
    distinct_updated_ids (Sample.contacts true) [Sample.row_US; Sample.row_US] = 1 ∧
    totalSkipped s2 ≠
      distinct_updated_ids (Sample.contacts true) [Sample.row_US; Sample.row_US].
Proof.
  eexists _, _. split; [vm_compute; reflexivity|].
  split; [vm_compute; reflexivity|].
  split_and!; vm_compute; (reflexivity || discriminate).
Qed.

(** ** More of the scenario *)

(** Two contacts, the update of the second rejected: two attempts, one
    update, one error, two requests. *)
Lemma counters_add_up_witness :
  ∃ s : state,
    syncHubSpotPropertiesFromBigQuery (Sample.contacts true) Sample.rejects_3
      Sample.in_order Sample.no_file
      (Sample.warehouse [[Sample.row_US; Sample.row_FR]]) 2 Sample.no_files =
      Some (Returns s) ∧
    attempted (summary_of (Sample.contacts true) s) =
      updated (summary_of (Sample.contacts true) s) +
      length (s_errors (summary_of (Sample.contacts true) s)) ∧
    length (requests s) = attempted (summary_of (Sample.contacts true) s).
Proof.
  eexists.
  assert (syncHubSpotPropertiesFromBigQuery (Sample.contacts true) Sample.rejects_3
            Sample.in_order Sample.no_file
            (Sample.warehouse [[Sample.row_US; Sample.row_FR]]) 2 Sample.no_files =
          Some (Returns _)) as H by (vm_compute; reflexivity).
  split; [exact H|].
  exact (proj1 (counters_add_up _ _ _ _ _ _ _ _ H) eq_refl).
Defined.

(** The dry run of the same page leaves two lines in a new audit file. *)
Lemma audit_line_per_attempt_witness :
  ∃ s : state,
    syncHubSpotPropertiesFromBigQuery (Sample.contacts false) Sample.accepts
      Sample.in_order Sample.no_file
      (Sample.warehouse [[Sample.row_US; Sample.row_FR]]) 2 Sample.no_files =
      Some (Returns s) ∧
    ∃ lines : list audit,
      data_lines (disk s) = data_lines Sample.no_files ++ lines ∧
      length lines = attempted (summary_of (Sample.contacts false) s) ∧
      Forall (λ a, a_status a = DRY_RUN ↔ apply (Sample.contacts false) = false)
        lines.
Proof.
  eexists.
  assert (syncHubSpotPropertiesFromBigQuery (Sample.contacts false) Sample.accepts
            Sample.in_order Sample.no_file
            (Sample.warehouse [[Sample.row_US; Sample.row_FR]]) 2 Sample.no_files =
          Some (Returns _)) as H by (vm_compute; reflexivity).
  split; [exact H|].
  exact (audit_line_per_attempt _ _ _ _ _ _ _ _ H).
Defined.

(** The two requests of the page are well formed. *)
Lemma requests_well_formed_witness :
  ∃ s : state,
    syncHubSpotPropertiesFromBigQuery (Sample.contacts true) Sample.accepts
      Sample.last_first Sample.no_file
      (Sample.warehouse [[Sample.row_US; Sample.row_FR]]) 2 Sample.no_files =
      Some (Returns s) ∧
    Forall (well_formed (Sample.contacts true)) (requests s).
Proof.
  eexists.
  assert (syncHubSpotPropertiesFromBigQuery (Sample.contacts true) Sample.accepts
            Sample.last_first Sample.no_file
            (Sample.warehouse [[Sample.row_US; Sample.row_FR]]) 2 Sample.no_files =
          Some (Returns _)) as H by (vm_compute; reflexivity).
  split; [exact H|].
  exact (requests_well_formed _ _ _ _ _ _ _ _ H).
Defined.

(** Two pages, three rows with an identifier: one is skipped, two are
    attempted. *)
Lemma rows_skipped_or_attempted_witness :
  ∃ s : state,
    syncHubSpotPropertiesFromBigQuery (Sample.contacts true) Sample.rejects_3
      Sample.last_first Sample.no_file
      (Sample.warehouse [[Sample.row_US; Sample.row_blank]; [Sample.row_FR]])
      3 Sample.no_files = Some (Returns s) ∧
    fetched (summary_of (Sample.contacts true) s) = 3 ∧
    skipped (summary_of (Sample.contacts true) s) +
    attempted (summary_of (Sample.contacts true) s) = 3.
Proof.
  destruct (rows_skipped_or_attempted (Sample.contacts true) Sample.rejects_3
              Sample.last_first Sample.no_file
              (Sample.warehouse [[Sample.row_US; Sample.row_blank]; [Sample.row_FR]])
              (the (sql (Sample.contacts true)))
              (Sample.job_of [[Sample.row_US; Sample.row_blank]; [Sample.row_FR]])
              [([Sample.row_US; Sample.row_blank], Some (lit "next"));
               ([Sample.row_FR], None)]
              3 Sample.no_files)
    as (s & H & Hf & Hs).
  - vm_compute. reflexivity.
  - vm_compute. reflexivity.
  - reflexivity.
  - simpl. lia.
  - right. simpl. lia.
  - vm_compute. reflexivity.
  - exists s. split_and!; [exact H | |].
    + rewrite Hf. reflexivity.
    + rewrite Hs. vm_compute. reflexivity.
Defined.

(** The page of the two contacts, in apply mode without a worker. *)
Lemma no_worker_no_update_witness :
  ∃ s' : state,
    page_body (with_dispatch true 500 0 (Sample.contacts true)) Sample.accepts
      Sample.in_order [Sample.row_US; Sample.row_FR] Sample.fresh = Some s' ∧
    requests s' = [] ∧ totalAttempted s' = 0.
Proof.
  destruct (no_worker_no_update (with_dispatch true 500 0 (Sample.contacts true))
              Sample.accepts Sample.in_order [Sample.row_US; Sample.row_FR]
              Sample.fresh)
    as (s' & H & Hr & Ha & _).
  - reflexivity.
  - simpl. lia.
  - simpl. lia.
  - exists s'. split_and!; [exact H | exact Hr | exact Ha].
Defined.

(** The run with [updateBatchSize] 0 over a first page without an update
    and a second page with one has not returned after a thousand steps. *)
Lemma batch_size_must_be_positive_witness :
  syncHubSpotPropertiesFromBigQuery
    (with_dispatch true 0 10 (Sample.contacts true)) Sample.accepts
    Sample.in_order Sample.no_file
    (Sample.warehouse [[Sample.row_blank]; [Sample.row_US]])
    1000 Sample.no_files = None.
Proof.
  assert (validate (with_dispatch true 0 10 (Sample.contacts true)) = None) as Hv
    by (vm_compute; reflexivity).
  assert (query (with_dispatch true 0 10 (Sample.contacts true)) Sample.no_file =
          Contents (the (sql (Sample.contacts true)))) as Hq
    by (vm_compute; reflexivity).
  assert (paging (Sample.job_of [[Sample.row_blank]; [Sample.row_US]])
            (pageSize (with_dispatch true 0 10 (Sample.contacts true))) 2 0 None =
          Some ([([Sample.row_blank], Some (lit "next"))] ++
                ([Sample.row_US], None) :: [], None)) as Hpg
    by (vm_compute; reflexivity).
  assert (∃ a, page_steps (with_dispatch true 0 10 (Sample.contacts true))
                 Sample.accepts Sample.in_order
                 [([Sample.row_blank], Some (lit "next"))]
                 (initial (with_dispatch true 0 10 (Sample.contacts true))
                    Sample.no_files) = Some a ∧
               (scan (with_dispatch true 0 10 (Sample.contacts true))
                  [Sample.row_US]
                  (fetched_page (length [Sample.row_US]) None a)).2 ≠ [])
    as (a & Hpre & Hb).
  { eexists. split; [vm_compute; reflexivity|]. vm_compute. discriminate. }
  assert (updateBatchSize (with_dispatch true 0 10 (Sample.contacts true)) ≤ 0)%Z
    as Hbs by (simpl; lia).
  exact (batch_size_must_be_positive
           (with_dispatch true 0 10 (Sample.contacts true)) Sample.accepts
           Sample.in_order Sample.no_file
           (Sample.warehouse [[Sample.row_blank]; [Sample.row_US]])
           (the (sql (Sample.contacts true)))
           (Sample.job_of [[Sample.row_blank]; [Sample.row_US]]) 2
           [([Sample.row_blank], Some (lit "next"))] [] [Sample.row_US] None None
           a Sample.no_files Hv Hq eq_refl Hbs Hpg Hpre Hb 1000).
Defined.

(** The dry run of the scenario, then the run in apply mode with a batch
    size of 1 and 3 workers. *)
Lemma dry_run_uses_up_identifiers_witness :
  ∃ s1 s2 : state,
    syncHubSpotPropertiesFromBigQuery (Sample.contacts false) Sample.accepts
      Sample.in_order Sample.no_file
      (Sample.warehouse [[Sample.row_US; Sample.row_blank]; [Sample.row_FR]])
      3 Sample.no_files = Some (Returns s1) ∧
    requests s1 = [] ∧
    syncHubSpotPropertiesFromBigQuery
      (with_dispatch true 1 3 (Sample.contacts false)) Sample.accepts
      Sample.last_first Sample.no_file
      (Sample.warehouse [[Sample.row_US; Sample.row_blank]; [Sample.row_FR]])
      3 (disk s1) = Some (Returns s2) ∧
    requests s2 = [] ∧ totalSkipped s2 = 3.
Proof.
  destruct (dry_run_uses_up_identifiers (Sample.contacts false) Sample.accepts
              Sample.accepts Sample.in_order Sample.last_first Sample.no_file
              (Sample.warehouse [[Sample.row_US; Sample.row_blank]; [Sample.row_FR]])
              (the (sql (Sample.contacts false)))
              (Sample.job_of [[Sample.row_US; Sample.row_blank]; [Sample.row_FR]])
              [([Sample.row_US; Sample.row_blank], Some (lit "next"));
               ([Sample.row_FR], None)]
              3 Sample.no_files 1%Z 3%Z)
    as (s1 & s2 & H1 & Hr1 & H2 & Hr2 & _ & Hsk).
  - vm_compute. reflexivity.
  - vm_compute. reflexivity.
  - reflexivity.
  - reflexivity.
  - reflexivity.
  - reflexivity.
  - simpl. lia.
  - vm_compute. reflexivity.
  - exists s1, s2. split_and!; [exact H1 | exact Hr1 | exact H2 | exact Hr2 |].
    rewrite Hsk. vm_compute. reflexivity.
Defined.

(** The run of the two contacts with the calls coming back in order, and
    with the last one first. *)
Lemma completion_order_is_immaterial_witness :
  ∃ (s : state) (o' : outcome),
    syncHubSpotPropertiesFromBigQuery (Sample.contacts true) Sample.rejects_3
      Sample.in_order Sample.no_file
      (Sample.warehouse [[Sample.row_US; Sample.row_FR]]) 2 Sample.no_files =
      Some (Returns s) ∧
    syncHubSpotPropertiesFromBigQuery (Sample.contacts true) Sample.rejects_3
      Sample.last_first Sample.no_file
      (Sample.warehouse [[Sample.row_US; Sample.row_FR]]) 2 Sample.no_files =
      Some o' ∧
    same_outcome (Sample.contacts true) (Returns s) o'.
Proof.
  eexists.
  assert (syncHubSpotPropertiesFromBigQuery (Sample.contacts true) Sample.rejects_3
            Sample.in_order Sample.no_file
            (Sample.warehouse [[Sample.row_US; Sample.row_FR]]) 2 Sample.no_files =
          Some (Returns _)) as H by (vm_compute; reflexivity).
  destruct (completion_order_is_immaterial (Sample.contacts true) Sample.rejects_3
              Sample.in_order Sample.last_first Sample.no_file
              (Sample.warehouse [[Sample.row_US; Sample.row_FR]]) 2
              Sample.no_files _ H) as (o' & H2 & Hs).
  exists o'. split_and!; [exact H | exact H2 | exact Hs].
Defined.

(** The second page of the scenario is asked for with the token of the
    first. *)
Lemma page_asked_with_previous_token_witness :
  ∃ raw : option jstr,
    Sample.job_of [[Sample.row_US; Sample.row_blank]; [Sample.row_FR]] 1
      {| maxResults := 5000; opt_pageToken := Some (lit "next") |} =
      Page [Sample.row_FR] raw ∧
    None = if falsy raw then None else raw.
Proof.
  assert (paging (Sample.job_of [[Sample.row_US; Sample.row_blank]; [Sample.row_FR]])
            5000 3 0 None =
          Some ([([Sample.row_US; Sample.row_blank], Some (lit "next"));
                 ([Sample.row_FR], None)], None)) as H
    by (vm_compute; reflexivity).
  exact (proj1 (proj2 (page_asked_with_previous_token _ _ _ _ _ H 1
                         [Sample.row_FR] None eq_refl))).
Defined.

(** The checkpoint file holds the contact 1; without the skip the run
    sends the update of the contact 1 all the same. *)
Lemma without_skip_every_row_is_sent_witness :
  ∃ s : state,
    syncHubSpotPropertiesFromBigQuery (without_skip (Sample.contacts true))
      Sample.accepts Sample.in_order Sample.no_file
      (Sample.warehouse [[Sample.row_US; Sample.row_blank]]) 2
      {| checkpoint_file := Some (ArrayOf [VStr (lit "1")]); csv_file := None |} =
      Some (Returns s) ∧
    attempted (summary_of (without_skip (Sample.contacts true)) s) = 1 ∧
    c_id <$> requests s = [lit "1"].
Proof.
  destruct (without_skip_every_row_is_sent (without_skip (Sample.contacts true))
              Sample.accepts Sample.in_order Sample.no_file
              (Sample.warehouse [[Sample.row_US; Sample.row_blank]])
              (the (sql (Sample.contacts true)))
              (Sample.job_of [[Sample.row_US; Sample.row_blank]])
              [([Sample.row_US; Sample.row_blank], None)]
              2
              {| checkpoint_file := Some (ArrayOf [VStr (lit "1")]);
                 csv_file := None |})
    as (s & H & Ha & Hr).
  - vm_compute. reflexivity.
  - vm_compute. reflexivity.
  - reflexivity.
  - reflexivity.
  - simpl. lia.
  - right. simpl. lia.
  - vm_compute. reflexivity.
  - exists s. split_and!; [exact H | |].
    + rewrite Ha. vm_compute. reflexivity.
    + rewrite Hr. vm_compute. reflexivity.
Defined.
